(** * ereb_telegraf: the telegraf input plugin that polls ereb schedulers

  A shallow embedding of [ereb.go] and the properties of its collection
  engine.  The repository carries the plugin twice: an earlier copy
  (lines 1-220 of the source file) and a later copy (lines 221-492) that
  adds the trailing-slash handling, the error reporting, the
  [last_errors_count] scan and the guard for an empty exit-code history.
  Both are embedded, as [Rev1] and [Rev2]; what they share (the data
  types, the Go library functions they call, the fetcher) comes first.

  How the code is read:
  - strings are byte strings, [int] is a 64-bit integer kept in [Z] with
    its wrap-around written out, [float64] is a primitive float;
  - the plugin object, the accumulator and the requests on the wire are
    one state, threaded through a state monad in which a computation
    returns or panics, leaving the state it had got to; the state also
    keeps the order in which the effects on it were made;
  - net/url, net/http, encoding/json and the clock are an environment
    [Env] the code is run in; strconv and strings are written out; the
    clock gives one reading, so the records are not told apart by their
    time;
  - the goroutines of [Gather] and its wait group are a transition
    system: the goroutines make their effects on the shared state one
    at a time, each goroutine its own in their order, and any goroutine
    that has not ended may be the next to go on; a goroutine that ends,
    by returning or by panicking, runs its deferred [wg.Done];
  - the debug log is left out. *)

From Stdlib Require Import ZArith Ascii Lia Bool.
From Stdlib Require Import Numbers.DecimalString.
From Stdlib Require Import Floats.PrimFloat.
From stdpp Require Import base tactics option list strings gmap.

Local Open Scope Z_scope.

(* ===================================================================== *)
(** * Go's machine integers *)
(* ===================================================================== *)

Module GoInt.

(** [int] is 64 bits wide on the platforms telegraf is built for. *)
Definition intSize : Z := 64.
Definition MaxInt : Z := 2 ^ 63 - 1.
Definition MinInt : Z := - 2 ^ 63.
Definition maxUint64 : Z := 2 ^ 64 - 1.

(** Two's complement wrap-around of a signed 64-bit result. *)
Definition wrap (z : Z) : Z := (z + 2 ^ 63) mod 2 ^ 64 - 2 ^ 63.

(** Wrap-around of an unsigned 64-bit result. *)
Definition wrapU (z : Z) : Z := z mod 2 ^ 64.

(** The nearest value of [int]. *)
Definition clamp (z : Z) : Z := Z.max MinInt (Z.min MaxInt z).

(** [len] of a slice, as an [int]. *)
Definition len {A} (l : list A) : Z := Z.of_nat (length l).

(** Every Go slice has a length that fits [int]. *)
Definition slice_ok {A} (l : list A) : Prop := len l <= MaxInt.

End GoInt.

(* ===================================================================== *)
(** * package strconv: [Atoi] *)
(* ===================================================================== *)

Module strconv.
Import GoInt.

Inductive NumError := ErrSyntax | ErrRange.

Definition byte_val (c : ascii) : Z := Z.of_N (N_of_ascii c).

(** ['0' <= c && c <= '9'] *)
Definition is_digit (c : ascii) : bool :=
  (48 <=? byte_val c) && (byte_val c <=? 57).

(** [maxUint64/10 + 1]: the smallest [n] with [n*10 > maxUint64]. *)
Definition cutoff10 : Z := maxUint64 / 10 + 1.

(** The digit loop of [ParseUint(s, 10, 64)], entered with the value
    accumulated so far.  A byte that is no digit ends the loop with a
    syntax error and value 0; an overflow ends it AT ONCE with a range
    error and the largest value, whatever bytes follow. *)
Fixpoint ParseUint_loop (n : Z) (s : string) : Z * option NumError :=
  match s with
  | EmptyString => (n, None)
  | String c s' =>
      if is_digit c then
        let d := byte_val c - 48 in
        if cutoff10 <=? n then (maxUint64, Some ErrRange)
        else
          let n := wrapU (n * 10) in
          let n1 := wrapU (n + d) in
          if (n1 <? n) || (maxUint64 <? n1) then (maxUint64, Some ErrRange)
          else ParseUint_loop n1 s'
      else (0, Some ErrSyntax)
  end.

Definition ParseUint (s : string) : Z * option NumError :=
  match s with
  | EmptyString => (0, Some ErrSyntax)
  | _ => ParseUint_loop 0 s
  end.

(** [ParseInt(s, 10, 0)]: pick off the sign, convert the magnitude,
    clamp to the range of [int]. *)
Definition ParseInt (s : string) : Z * option NumError :=
  match s with
  | EmptyString => (0, Some ErrSyntax)
  | String c0 rest =>
      let neg := Ascii.eqb c0 "-" in
      let s1 := if Ascii.eqb c0 "+" then rest
                else if neg then rest else s in
      match ParseUint s1 with
      | (_, Some ErrSyntax) => (0, Some ErrSyntax)
      | (un, _) =>
          let cutoff := 2 ^ (intSize - 1) in
          if negb neg && (cutoff <=? un) then (cutoff - 1, Some ErrRange)
          else if neg && (cutoff <? un) then (- cutoff, Some ErrRange)
          else (if neg then - un else un, None)
      end
  end.

(** [Atoi(s)] is [ParseInt(s, 10, 0)] converted to [int]. *)
Definition Atoi (s : string) : Z * option NumError := ParseInt s.

(** [Itoa], used by the [%d] verb below. *)
Definition Itoa (z : Z) : string := NilEmpty.string_of_int (Z.to_int z).

End strconv.

(* ===================================================================== *)
(** * package strings: [HasPrefix], [HasSuffix], [TrimRight] *)
(* ===================================================================== *)

Module strings.

(** [len(s) >= len(prefix) && s[:len(prefix)] == prefix] *)
Fixpoint HasPrefix (s prefix : string) {struct prefix} : bool :=
  match prefix, s with
  | EmptyString, _ => true
  | String p prefix', String c s' => Ascii.eqb c p && HasPrefix s' prefix'
  | String _ _, EmptyString => false
  end.

(** [len(s) >= len(suffix) && s[len(s)-len(suffix):] == suffix] *)
Definition HasSuffix (s suffix : string) : bool :=
  let n := String.length s in
  let k := String.length suffix in
  (k <=? n)%nat && String.eqb (String.substring (n - k) k s) suffix.

Fixpoint in_cutset (c : ascii) (cutset : string) : bool :=
  match cutset with
  | EmptyString => false
  | String x cutset' => Ascii.eqb c x || in_cutset c cutset'
  end.

(** [TrimRight(s, cutset)] for a cutset of ASCII bytes: the longest
    trailing run of bytes of the cutset is removed, not just one. *)
Fixpoint TrimRight (s cutset : string) : string :=
  match s with
  | EmptyString => EmptyString
  | String c s' =>
      match TrimRight s' cutset with
      | EmptyString => if in_cutset c cutset then EmptyString
                       else String c EmptyString
      | t => String c t
      end
  end.

End strings.

(* ===================================================================== *)
(** * The exit-code scan of the later copy (lines 398-423) *)
(* ===================================================================== *)

Module ExitCodes.
Import GoInt.

(** One turn of the loop [for _, exitCode := range exitCodes]. *)
Definition scan_step (lastErrorsCount : Z) (exitCode : string) : Z :=
  if negb (String.eqb exitCode "None") then
    let intExitCode := fst (strconv.Atoi exitCode) in
    if 0 <? intExitCode then wrap (lastErrorsCount + 1)
    else if intExitCode =? 0 then 0
    else lastErrorsCount
  else lastErrorsCount.

Definition scan (exitCodes : list string) : Z :=
  fold_left scan_step exitCodes 0.

(** [lastExitCode] and [lastErrorsCount] as lines 399-423 leave them. *)
Definition analyse (exitCodes : list string) : string * Z :=
  if len exitCodes =? 0 then ("-1", 0)
  else (List.last exitCodes "", scan exitCodes).

End ExitCodes.

(* ===================================================================== *)
(** * Data model *)
(* ===================================================================== *)

Definition float64 : Type := PrimFloat.float.

(** What [interface{}] holds after a JSON decode. *)
#[warnings="-register-all"]
Inductive JSON :=
| JNull
| JBool (b : bool)
| JNumber (f : float64)
| JString (s : string)
| JArray (l : list JSON)
| JObject (l : list (string * JSON)).

Module ErebStatus.
Record NextTask := {
  Cmd : string;
  CronSchedule : string;
  Description : string;
  Enabled : bool;
  Group : string;
  Name : string;
  ShellScripts : list JSON;
  TaskID : string;
  Timeout : string;
  TryMoreOnError : bool
}.
Record t := {
  NextRun : float64;
  NextTasks : list NextTask;
  PlannedTaskRunUuids : list string;
  State : string
}.
(** [ErebStatus{}] *)
Definition zero : t :=
  {| NextRun := 0%float; NextTasks := []; PlannedTaskRunUuids := [];
     State := "" |}.
End ErebStatus.

Module ErebTasks.
Record Stats_t := {
  DurationAvg : float64;
  DurationMax : Z;
  DurationMin : Z;
  Error : Z;
  ExitCodes : list string;
  Success : Z;
  Stats_TaskID : string
}.
Record Task := {
  Cmd : string;
  CronSchedule : string;
  Description : string;
  Enabled : bool;
  Group : string;
  Name : string;
  ShellScripts : list JSON;
  Stats : Stats_t;
  TaskID : string;
  Timeout : string;
  TryMoreOnError : bool
}.
(** [ErebTasks] is a slice; [ErebTasks{}] is the empty one. *)
Definition t : Type := list Task.
Definition zero : t := [].
End ErebTasks.

(** A field value of a metric: [map[string]interface{}]. *)
Inductive Value :=
| VInt (z : Z)
| VFloat (f : float64)
| VBool (b : bool)
| VString (s : string).

(** One call of [acc.AddFields(measurement, fields, tags, t)]. *)
Record Metric := {
measurement : string;
fields : gmap string Value;
tags : gmap string string;
timestamp : Z
}.

(** The errors the plugin makes with [fmt.Errorf], and the error of
  [url.Parse] that [gatherTasks] can hand back as it is. *)
Inductive error :=
| ParseError (requestUrl err : string)
| ConnectError (requestUrl err : string)
| StatusError (requestUrl : string) (code : Z)
| UrlError (err : string).

Definition Error (e : error) : string :=
match e with
| ParseError u err =>
    "Unable parse server address '" +:+ u +:+ "': " +:+ err
| ConnectError u err =>
    "Unable to connect to ereb server '" +:+ u +:+ "': " +:+ err
| StatusError u code =>
    "Unable to get valid stat result from '" +:+ u +:+
    "', http response code : " +:+ strconv.Itoa code
| UrlError err => err
end.

(* ===================================================================== *)
(** * The plugin's surroundings: net/url, net/http, encoding/json, time *)
(* ===================================================================== *)

(** The parts of [url.URL] the plugin reads. [User] holds the user name
  and the password ([""] when none is set). *)
Record URL := {
User : option (string * string);
Host : string
}.

Record Request := {
Method : string;
RequestURL : string;
BasicAuth : option (string * string)
}.

Record Response := {
StatusCode : Z;
Body : string
}.

Record Client := {
ResponseHeaderTimeout : Z;   (* seconds *)
Timeout : Z                  (* seconds *)
}.

(** The outcome of [json.NewDecoder(body).Decode(target)]. The decoder
  reads one whole JSON value and checks its syntax before it stores
  anything: a body that is no JSON leaves the target as it was
  ([Invalid]). A body that is JSON is stored into the target
  ([Stored]); a value of the wrong type for a field is skipped and
  reported at the end, with the other fields stored. *)
Inductive Decoded (T : Type) :=
| Stored (v : T) (err : option string)
| Invalid (err : string).
Arguments Stored {T} v err.
Arguments Invalid {T} err.

Definition after_Decode {T} (d : Decoded T) (target : T) : T :=
match d with
| Stored v _ => v
| Invalid _ => target
end.

(** Everything outside the plugin. The network is a function of the
  request: the answer to a request does not depend on which other
  requests were made. [gatherStatus] decodes into a pointer
  ([**ErebStatus]), so the JSON [null] can store [nil] ([None]) there.
  [time_Now] is the one reading of the clock there is: the model does
  not follow the time, and which moment the time of a record is that of
  is not in it. *)
Record Env := {
url_Parse : string -> string + URL;
client_Do : Request -> string + Response;
Decode_status : string -> option ErebStatus.t -> Decoded (option ErebStatus.t);
Decode_tasks : string -> ErebTasks.t -> Decoded ErebTasks.t;
time_Now : Z
}.

(* ===================================================================== *)
(** * State: the plugin object, the accumulator, the wire *)
(* ===================================================================== *)

(** [debug_mode] exists in the later copy only. The debug log it guards
  is not part of the model. *)
Record ereb := {
Servers : list string;
debug_mode : bool;
client : option Client
}.

(** What a call does to what the goroutines share, one effect at a
  time. *)
Inductive Event :=
| Cached (headerTimeout totalTimeout : Z)   (* getJson finds or makes g.client *)
| Sent (req : Request)                      (* client.Do *)
| Added (m : Metric)                        (* acc.AddFields *)
| Reported (e : error).                     (* acc.AddError *)

Record State := {
g : ereb;
added : list Metric;          (* acc.AddFields, oldest first *)
reported : list error;        (* acc.AddError, oldest first *)
wire : list Request;          (* requests handed to client.Do *)
trace : list Event            (* all of these effects, in the order they
                                 were made *)
}.

(** A call returns, or it panics; either way it leaves a state behind:
  what a goroutine did before it panicked stays done. *)
Inductive Res (A : Type) :=
| Ok (a : A) (σ : State)
| Panic (msg : string) (σ : State).
Arguments Ok {A} a σ.
Arguments Panic {A} msg σ.

Definition M (A : Type) : Type := State -> Res A.

Definition ret {A} (a : A) : M A := fun σ => Ok a σ.

Definition bind {A B} (m : M A) (k : A -> M B) : M B :=
fun σ => match m σ with
         | Ok a σ' => k a σ'
         | Panic msg σ' => Panic msg σ'
         end.

Definition panic {A} (msg : string) : M A := fun σ => Panic msg σ.

(** The state a call leaves, and the panic it ended with. *)
Definition final {A} (r : Res A) : State :=
match r with
| Ok _ σ => σ
| Panic _ σ => σ
end.

Definition panicked {A} (r : Res A) : list string :=
match r with
| Ok _ _ => []
| Panic msg _ => [msg]
end.

Notation "x <~ m ; k" := (bind m (fun x => k))
(at level 20, m at level 100, k at level 200, only parsing).
Notation "' pat <~ m ; k" := (bind m (fun x => match x with pat => k end))
(at level 20, pat pattern, m at level 100, k at level 200, only parsing).
Notation "'run' m ; k" := (bind m (fun _ => k))
(at level 20, m at level 100, k at level 200, only parsing).

(** The four ways the state changes. *)
Definition with_metric (m : Metric) (σ : State) : State :=
{| g := g σ; added := added σ ++ [m]; reported := reported σ;
   wire := wire σ; trace := trace σ ++ [Added m] |}.

Definition with_error (e : error) (σ : State) : State :=
{| g := g σ; added := added σ; reported := reported σ ++ [e];
   wire := wire σ; trace := trace σ ++ [Reported e] |}.

Definition with_request (req : Request) (σ : State) : State :=
{| g := g σ; added := added σ; reported := reported σ;
   wire := wire σ ++ [req]; trace := trace σ ++ [Sent req] |}.

Definition with_g (g' : ereb) (σ : State) : State :=
{| g := g'; added := added σ; reported := reported σ; wire := wire σ;
   trace := trace σ |}.

Definition AddFields (name : string) (fs : gmap string Value)
  (ts : gmap string string) (t : Z) : M unit :=
fun σ => Ok tt (with_metric {| measurement := name; fields := fs;
                               tags := ts; timestamp := t |} σ).

Definition AddError (e : error) : M unit :=
fun σ => Ok tt (with_error e σ).

(** [for _, x := range xs { body }] *)
Fixpoint range {A} (xs : list A) (body : A -> M unit) : M unit :=
match xs with
| [] => ret tt
| x :: xs' => run body x; range xs' body
end.

(** The state of a plugin that has done nothing yet. *)
Definition blank : State :=
  {| g := {| Servers := []; debug_mode := false; client := None |};
     added := []; reported := []; wire := []; trace := [] |}.

(** The records, errors and requests among some effects. *)
Definition adds (es : list Event) : list Metric :=
  omap (fun e => match e with Added m => Some m | _ => None end) es.

Definition reports (es : list Event) : list error :=
  omap (fun e => match e with Reported e => Some e | _ => None end) es.

Definition sends (es : list Event) : list Request :=
  omap (fun e => match e with Sent req => Some req | _ => None end) es.

(** A computation that reports no error to the accumulator. *)
Definition quiet {X} (m : M X) : Prop :=
  forall σ, match m σ with
            | Ok _ σ' => reported σ' = reported σ
            | Panic _ σ' => reported σ' = reported σ
            end.

(* ===================================================================== *)
(** * The fetcher shared by both copies of [getJson] *)
(* ===================================================================== *)

Section Fetcher.
Context (env : Env).
(** The two copies differ in the timeouts of the client only. *)
Context (headerTimeout totalTimeout : Z).

(** [if g.client == nil { ... g.client = client }] *)
Definition cached_client (g : ereb) : ereb :=
  match client g with
  | Some _ => g
  | None =>
      {| Servers := Servers g; debug_mode := debug_mode g;
         client := Some {| ResponseHeaderTimeout := headerTimeout;
                           Timeout := totalTimeout |} |}
  end.

(** The state in which the request is sent. *)
Definition ready (σ : State) : State :=
  {| g := cached_client (g σ); added := added σ; reported := reported σ;
     wire := wire σ;
     trace := trace σ ++ [Cached headerTimeout totalTimeout] |}.

Definition init_client : M unit := fun σ => Ok tt (ready σ).

(** [http.NewRequest("GET", requestUrl, nil)], which cannot fail on a
    URL that [url.Parse] has accepted, and [req.SetBasicAuth]. *)
Definition NewRequest (method requestUrl : string) : Request :=
  {| Method := method; RequestURL := requestUrl; BasicAuth := None |}.

Definition SetBasicAuth (req : Request) (username password : string)
    : Request :=
  {| Method := Method req; RequestURL := RequestURL req;
     BasicAuth := Some (username, password) |}.

(** The request [getJson] sends for a parsed URL (lines 465-469). *)
Definition request (requestUrl : string) (u : URL) : Request :=
  let req := NewRequest "GET" requestUrl in
  match User u with
  | Some (username, p) => SetBasicAuth req username p
  | None => req
  end.

(** [g.client.Do(req)] *)
Definition Do (req : Request) : M (string + Response) :=
  fun σ => Ok (client_Do env req) (with_request req σ).

(** The target is a pointer in Go; here the value it points to goes in
    and comes out. *)
Definition getJson_with {T} (Decode : string -> T -> Decoded T)
    (requestUrl : string) (target : T) : M (option error * T) :=
  run init_client;
  match url_Parse env requestUrl with
  | inl err => ret (Some (ParseError requestUrl err), target)
  | inr u =>
      res <~ Do (request requestUrl u);
      match res with
      | inl err => ret (Some (ConnectError requestUrl err), target)
      | inr res =>
          if negb (StatusCode res =? 200) then
            ret (Some (StatusError requestUrl (StatusCode res)), target)
          else
            (* the result of Decode is dropped *)
            ret (None, after_Decode (Decode (Body res) target) target)
      end
  end.

End Fetcher.

(** An effect made on a state, and some effects made one after the
  other. *)
Definition apply_event (e : Event) (σ : State) : State :=
  match e with
  | Cached h t => ready h t σ
  | Sent req => with_request req σ
  | Added m => with_metric m σ
  | Reported e => with_error e σ
  end.

Definition replay (es : list Event) (σ : State) : State :=
  fold_left (fun s e => apply_event e s) es σ.

(** A computation that does the same whatever the state it starts from:
  the same effects in the same order, and the same end. *)
Definition scripted {X} (m : M X) : Prop :=
  forall σ,
    match m σ, m blank with
    | Ok x σ', Ok y δ => x = y /\ σ' = replay (trace δ) σ
    | Panic msg σ', Panic msg' δ => msg = msg' /\ σ' = replay (trace δ) σ
    | _, _ => False
    end.

(* ===================================================================== *)
(** * The later copy (lines 221-492) *)
(* ===================================================================== *)

Module Rev2.
Section WithEnv.
Context (env : Env).

(** [getJson] (lines 450-486): both timeouts are 30 seconds. *)
Definition getJson {T} (Decode : string -> T -> Decoded T)
    (requestUrl : string) (target : T) : M (option error * T) :=
  getJson_with env 30 30 Decode requestUrl target.

(** [gatherStatus] (lines 349-376). [url.Parse] hands back a nil URL
    with its error, and [u.Host] is read without looking at the error. *)
Definition gatherStatus (serverAddr : string) : M (option error) :=
  let erebStatus := Some ErebStatus.zero in
  '(err, erebStatus) <~ getJson (Decode_status env)
                          (serverAddr +:+ "/status") erebStatus;
  match err with
  | Some e => ret (Some e)
  | None =>
      match url_Parse env serverAddr with
      | inl _ => panic "invalid memory address or nil pointer dereference"
      | inr u =>
          let tags : gmap string string := {[ "hostname" := Host u ]} in
          let now := time_Now env in
          match erebStatus with
          | None => panic "invalid memory address or nil pointer dereference"
          | Some erebStatus =>
              let is_running :=
                if String.eqb (ErebStatus.State erebStatus) "running"
                then 1 else 0 in
              let fields : gmap string Value :=
                <[ "running" := VInt is_running ]>
                (<[ "tasks_queue_length" :=
                      VInt (GoInt.len (ErebStatus.NextTasks erebStatus)) ]>
                (<[ "next_run_in" :=
                      VFloat (ErebStatus.NextRun erebStatus) ]> ∅)) in
              run AddFields "ereb_status" fields tags now;
              ret None
          end
      end
  end.

(** The body of [for _, task := range erebTasks] (lines 391-443). *)
Definition task_fields (task : ErebTasks.Task) : gmap string Value :=
  let exitCodes := ErebTasks.ExitCodes (ErebTasks.Stats task) in
  let '(lastExitCode, lastErrorsCount) := ExitCodes.analyse exitCodes in
  let taskTimeout := fst (strconv.Atoi (ErebTasks.Timeout task)) in
  <[ "task_name" := VString (ErebTasks.Name task) ]>
  (<[ "enabled" := VBool (ErebTasks.Enabled task) ]>
  (<[ "success_count" := VInt (ErebTasks.Success (ErebTasks.Stats task)) ]>
  (<[ "errors_count" := VInt (ErebTasks.Error (ErebTasks.Stats task)) ]>
  (<[ "avg_duration" := VFloat (ErebTasks.DurationAvg (ErebTasks.Stats task)) ]>
  (<[ "max_duration" := VInt (ErebTasks.DurationMax (ErebTasks.Stats task)) ]>
  (<[ "min_duration" := VInt (ErebTasks.DurationMin (ErebTasks.Stats task)) ]>
  (<[ "timeout" := VInt taskTimeout ]>
  (<[ "last_exit_code" := VString lastExitCode ]>
  (<[ "last_errors_count" := VInt lastErrorsCount ]> ∅))))))))).

Definition task_tags (u : URL) (task : ErebTasks.Task) : gmap string string :=
  <[ "hostname" := Host u ]> {[ "task_tag" := ErebTasks.Name task ]}.

(** The record of one task (line 442). *)
Definition task_metric (u : URL) (now : Z) (task : ErebTasks.Task) : Metric :=
  {| measurement := "ereb_tasks"; fields := task_fields task;
     tags := task_tags u task; timestamp := now |}.

Definition task_body (u : string + URL) (now : Z) (task : ErebTasks.Task)
    : M unit :=
  match u with
  | inl _ => panic "invalid memory address or nil pointer dereference"
  | inr u => AddFields "ereb_tasks" (task_fields task) (task_tags u task) now
  end.

(** [gatherTasks] (lines 379-446). With no task in the document the
    loop never reads [u], and the error of [url.Parse] is returned. *)
Definition gatherTasks (serverAddr : string) : M (option error) :=
  let now := time_Now env in
  let erebTasks := ErebTasks.zero in
  '(err, erebTasks) <~ getJson (Decode_tasks env)
                         (serverAddr +:+ "/tasks") erebTasks;
  match err with
  | Some e => ret (Some e)
  | None =>
      let u := url_Parse env serverAddr in
      run range erebTasks (task_body u now);
      ret (match u with inl err => Some (UrlError err) | inr _ => None end)
  end.

Definition gatherFunc : Type := string -> M (option error).
Definition gatherFunctions : list gatherFunc := [gatherStatus; gatherTasks].

(** Lines 310-312: the default is appended to [g.Servers] itself. *)
Definition default_servers : M unit :=
  fun σ =>
    if GoInt.len (Servers (g σ)) =? 0 then
      Ok tt (with_g {| Servers := Servers (g σ) ++ ["http://localhost:8888"];
                       debug_mode := debug_mode (g σ);
                       client := client (g σ) |} σ)
    else Ok tt σ.

(** One turn of the loop of lines 317-325. *)
Definition endpoint_step (endpoints : list string) (endpoint : string)
    : list string :=
  let trailingSlash := "/" in
  if strings.HasPrefix endpoint "http" then
    let endpoint :=
      if strings.HasSuffix endpoint trailingSlash
      then strings.TrimRight endpoint trailingSlash
      else endpoint in
    endpoints ++ [endpoint]
  else endpoints.

Definition normalize (servers : list string) : list string :=
  fold_left endpoint_step servers [].

(** Lines 309-325: the endpoints the cycle polls. *)
Definition endpoints : M (list string) :=
  run default_servers;
  fun σ => Ok (normalize (Servers (g σ))) σ.

(** The goroutines of lines 333-343, in the order they are launched. *)
Definition units (endpoints : list string) : list (string * gatherFunc) :=
  flat_map (fun server => map (fun f => (server, f)) gatherFunctions)
           endpoints.

(** The body of one goroutine (lines 335-341), [wg.Done] apart. *)
Definition goroutine (u : string * gatherFunc) : M unit :=
  let '(serv, gf) := u in
  err <~ gf serv;
  match err with
  | Some err => AddError err
  | None => ret tt
  end.

(** What one goroutine adds and reports when it runs, to its return or
    to its panic. *)
Definition unit_added (u : string * gatherFunc) : list Metric :=
  added (final (goroutine u blank)).

Definition unit_reported (u : string * gatherFunc) : list error :=
  reported (final (goroutine u blank)).

(** ** The goroutines and the wait group

    A goroutine does not wait for the others and reads nothing of what
    they leave in the accumulator or on the wire: what it does is the
    same whenever it runs, a row of effects on what the goroutines
    share, and then its end (lemma [Rev2_script_runs]).  The effects of
    the goroutines of a cycle come one at a time, those of one goroutine
    in their order, those of different goroutines in any.  A goroutine
    that the loops have not launched yet is here one that has made no
    effect yet: [wg.Add] comes before the loops, and launching changes
    nothing of what the goroutines share. *)
Record Flying := {
  unit_of : string * gatherFunc;   (* the endpoint and the extractor *)
  script : list Event;             (* the effects it has still to make *)
  ending : list string             (* the panic it ends with, if any *)
}.

(** A goroutine that has just been launched. *)
Definition fly (u : string * gatherFunc) : Flying :=
  {| unit_of := u;
     script := trace (final (goroutine u blank));
     ending := panicked (goroutine u blank) |}.

Definition with_script (es : list Event) (f : Flying) : Flying :=
  {| unit_of := unit_of f; script := es; ending := ending f |}.

Record Running := {
  pool : list Flying;      (* launched, not yet ended *)
  wg : Z;                  (* the counter of the WaitGroup *)
  st : State;
  dying : list string      (* the panics so far, oldest first *)
}.

Inductive Proc :=
| Live (r : Running)
| Crashed (msg : string).

(** [wg.Done()] *)
Definition Done (r : Running) : Proc :=
  if wg r - 1 <? 0 then Crashed "sync: negative WaitGroup counter"
  else Live {| pool := pool r; wg := wg r - 1; st := st r;
               dying := dying r |}.

(** The counter of the wait group is the number of goroutines that have
    not ended. *)
Definition counted (r : Running) : Prop := wg r = GoInt.len (pool r).

(** A goroutine of the pool makes its next effect, or, with none left,
    it ends.  [wg.Done] is deferred (line 336): it runs when the
    goroutine returns and also when it panics.  Nothing recovers the
    panic, so the process is then on its way out ([dying]), but the
    other goroutines and [Gather] go on until it is gone. *)
Inductive step : Running -> option (string * gatherFunc) -> Proc -> Prop :=
| step_effect l1 f e es l2 n σ d :
    script f = e :: es ->
    step {| pool := l1 ++ f :: l2; wg := n; st := σ; dying := d |} None
         (Live {| pool := l1 ++ with_script es f :: l2; wg := n;
                  st := apply_event e σ; dying := d |})
| step_end l1 f l2 n σ d :
    script f = [] ->
    step {| pool := l1 ++ f :: l2; wg := n; st := σ; dying := d |}
         (Some (unit_of f))
         (Done {| pool := l1 ++ l2; wg := n; st := σ;
                  dying := d ++ ending f |}).

(** Some steps, one after the other; [finished] lists the goroutines
    that ended, in the order in which they did.  A process in which a
    goroutine has panicked can be gone at any moment. *)
Inductive steps : Running -> list (string * gatherFunc) -> Proc -> Prop :=
| steps_refl r : steps r [] (Live r)
| steps_effect r r' finished p :
    step r None (Live r') ->
    steps r' finished p ->
    steps r finished p
| steps_end r u r' finished p :
    step r (Some u) (Live r') ->
    steps r' finished p ->
    steps r (u :: finished) p
| steps_crash r o msg : step r o (Crashed msg) -> steps r [] (Crashed msg)
| steps_exit r msg : In msg (dying r) -> steps r [] (Crashed msg).

(** Lines 329-343: [wg.Add] and the launch of every goroutine. The
    product cannot overflow: a slice of strings has far fewer than 2^62
    entries. *)
Definition launch (endpoints : list string) (σ : State) : Running :=
  {| pool := map fly (units endpoints);
     wg := GoInt.len endpoints * GoInt.len gatherFunctions;
     st := σ;
     dying := [] |}.

(** [wg.Wait()] lets [Gather] go on when the counter is zero; [Gather]
    then returns nil. It does so too when a goroutine has panicked, if
    the counter gets to zero before the process is gone. *)
Inductive Gather : State -> list (string * gatherFunc) -> option error
                   -> State -> Prop :=
| Gather_returns σ σ1 eps finished r :
    endpoints σ = Ok eps σ1 ->
    steps (launch eps σ1) finished (Live r) ->
    wg r = 0 ->
    Gather σ finished None (st r).

(** The goroutines run in the order of their launch, each to its return
    or to its panic: the state they leave and the panics they raise. *)
Fixpoint in_order (us : list (string * gatherFunc)) (σ : State) : State :=
  match us with
  | [] => σ
  | u :: us' => in_order us' (final (goroutine u σ))
  end.

Fixpoint in_order_panics (us : list (string * gatherFunc)) (σ : State)
    : list string :=
  match us with
  | [] => []
  | u :: us' =>
      panicked (goroutine u σ) ++ in_order_panics us' (final (goroutine u σ))
  end.

(** The schedule that runs the goroutines in the order of their launch,
    in a process that is gone as soon as a goroutine panics. *)
Definition Gather_in_order : M (option error) :=
  eps <~ endpoints;
  run range (units eps) goroutine;
  ret None.

End WithEnv.
End Rev2.

(* ===================================================================== *)
(** * The earlier copy (lines 1-220) *)
(* ===================================================================== *)

Module Rev1.
Section WithEnv.
Context (env : Env).

(** [getJson] (lines 179-214): 3 seconds for the header, 4 in all. *)
Definition getJson {T} (Decode : string -> T -> Decoded T)
    (requestUrl : string) (target : T) : M (option error * T) :=
  getJson_with env 3 4 Decode requestUrl target.

(** [gatherStatus] (lines 110-137). *)
Definition gatherStatus (serverAddr : string) : M (option error) :=
  let erebStatus := Some ErebStatus.zero in
  '(err, erebStatus) <~ getJson (Decode_status env)
                          (serverAddr +:+ "/status") erebStatus;
  match err with
  | Some e => ret (Some e)
  | None =>
      match url_Parse env serverAddr with
      | inl _ => panic "invalid memory address or nil pointer dereference"
      | inr u =>
          let tags : gmap string string := {[ "host" := Host u ]} in
          let now := time_Now env in
          match erebStatus with
          | None => panic "invalid memory address or nil pointer dereference"
          | Some erebStatus =>
              let is_running :=
                if String.eqb (ErebStatus.State erebStatus) "running"
                then true else false in
              let fields : gmap string Value :=
                <[ "running" := VBool is_running ]>
                (<[ "tasks_queue_length" :=
                      VInt (GoInt.len (ErebStatus.NextTasks erebStatus)) ]>
                (<[ "next_run_in" :=
                      VFloat (ErebStatus.NextRun erebStatus) ]> ∅)) in
              run AddFields "ereb_status" fields tags now;
              ret None
          end
      end
  end.

(** The fields of lines 157-168. [exitCodes[len(exitCodes) - 1]] is
    evaluated for every task: with an empty history the index is -1 and
    the run-time panics ([None]). *)
Definition task_fields (task : ErebTasks.Task) : option (gmap string Value) :=
  let exitCodes := ErebTasks.ExitCodes (ErebTasks.Stats task) in
  let taskTimeout := fst (strconv.Atoi (ErebTasks.Timeout task)) in
  match last exitCodes with
  | None => None
  | Some lastExitCode =>
      Some
      (<[ "enabled" := VBool (ErebTasks.Enabled task) ]>
      (<[ "success_count" := VInt (ErebTasks.Success (ErebTasks.Stats task)) ]>
      (<[ "errors_count" := VInt (ErebTasks.Error (ErebTasks.Stats task)) ]>
      (<[ "avg_duration" := VFloat (ErebTasks.DurationAvg (ErebTasks.Stats task)) ]>
      (<[ "max_duration" := VInt (ErebTasks.DurationMax (ErebTasks.Stats task)) ]>
      (<[ "min_duration" := VInt (ErebTasks.DurationMin (ErebTasks.Stats task)) ]>
      (<[ "timeout" := VInt taskTimeout ]>
      (<[ "last_exit_code" := VString lastExitCode ]> ∅))))))))
  end.

Definition task_body (u : string + URL) (now : Z) (task : ErebTasks.Task)
    : M unit :=
  match u with
  | inl _ => panic "invalid memory address or nil pointer dereference"
  | inr u =>
      let tags : gmap string string :=
        <[ "host" := Host u ]> {[ "task_name" := ErebTasks.Name task ]} in
      match task_fields task with
      | None => panic "index out of range [-1]"
      | Some fields => AddFields "ereb_tasks" fields tags now
      end
  end.

(** [gatherTasks] (lines 140-175): the request goes to
    [serverAddr + "/status"]. *)
Definition gatherTasks (serverAddr : string) : M (option error) :=
  let now := time_Now env in
  let erebTasks := ErebTasks.zero in
  '(err, erebTasks) <~ getJson (Decode_tasks env)
                         (serverAddr +:+ "/status") erebTasks;
  match err with
  | Some e => ret (Some e)
  | None =>
      let u := url_Parse env serverAddr in
      run range erebTasks (task_body u now);
      ret (match u with inl err => Some (UrlError err) | inr _ => None end)
  end.

Definition gatherFunc : Type := string -> M (option error).
Definition gatherFunctions : list gatherFunc := [gatherStatus; gatherTasks].

(** Lines 81-83. *)
Definition default_servers : M unit :=
  fun σ =>
    if GoInt.len (Servers (g σ)) =? 0 then
      Ok tt (with_g {| Servers := Servers (g σ) ++ ["http://localhost:8888"];
                       debug_mode := debug_mode (g σ);
                       client := client (g σ) |} σ)
    else Ok tt σ.

(** One turn of the loop of lines 87-93. *)
Definition endpoint_step (endpoints : list string) (endpoint : string)
    : list string :=
  if strings.HasPrefix endpoint "http" then endpoints ++ [endpoint]
  else endpoints.

Definition normalize (servers : list string) : list string :=
  fold_left endpoint_step servers [].

Definition endpoints : M (list string) :=
  run default_servers;
  fun σ => Ok (normalize (Servers (g σ))) σ.

Definition units (endpoints : list string) : list (string * gatherFunc) :=
  flat_map (fun server => map (fun f => (server, f)) gatherFunctions)
           endpoints.

(** The body of one goroutine (lines 99-102). The closure has the
    parameters [serv] and [gf], but it calls [gf] with [server], the
    variable of the loop of line 97, which is one variable for all the
    turns of the loop (as Go has it before version 1.22) and which the
    loop and all the goroutines share: [server] is what that variable
    holds when the goroutine reads it. What [gf] returns is dropped. *)
Definition goroutine (server : string) (u : string * gatherFunc) : M unit :=
  let '(serv, gf) := u in
  run gf server;
  ret tt.

(** The schedule in which every goroutine runs as soon as it is
    launched, so that [server] still holds the endpoint it was launched
    for, in a process that is gone as soon as a goroutine panics. *)
Definition Gather_in_order : M (option error) :=
  eps <~ endpoints;
  run range (units eps) (fun u => goroutine (fst u) u);
  ret None.

(** ** The loop, the goroutines and the wait group

    As in the later copy, the effects of the goroutines come one at a
    time.  A goroutine that was launched first reads the loop variable;
    from then on what it does is settled. *)
Inductive Flying :=
| Waiting (u : string * gatherFunc)
    (* launched, [server] not read yet *)
| Going (u : string * gatherFunc) (script : list Event) (ending : list string).
    (* the effects it has still to make, and the panic it ends with *)

Record Running := {
  todo : list (string * gatherFunc);   (* what the loops have still to launch *)
  server : string;                     (* the loop variable of line 97 *)
  pool : list Flying;                  (* launched, not yet ended *)
  wg : Z;                              (* the counter of the WaitGroup *)
  st : State;
  dying : list string                  (* the panics so far, oldest first *)
}.

Inductive Proc :=
| Live (r : Running)
| Crashed (msg : string).

(** [wg.Done()] *)
Definition Done (r : Running) : Proc :=
  if wg r - 1 <? 0 then Crashed "sync: negative WaitGroup counter"
  else Live {| todo := todo r; server := server r; pool := pool r;
               wg := wg r - 1; st := st r; dying := dying r |}.

(** The loops launch the next goroutine, with [server] set to the
    endpoint of the turn; a goroutine reads [server] and calls its
    extractor with what it holds; a goroutine makes its next effect; a
    goroutine with no effect left ends.  [wg.Done] is deferred
    (line 100): it runs when the goroutine returns and when it
    panics. *)
Inductive step : Running -> Proc -> Prop :=
| step_launch e f rest s p n σ d :
    step {| todo := (e, f) :: rest; server := s; pool := p; wg := n;
            st := σ; dying := d |}
         (Live {| todo := rest; server := e; pool := p ++ [Waiting (e, f)];
                  wg := n; st := σ; dying := d |})
| step_read t s l1 u l2 n σ d :
    step {| todo := t; server := s; pool := l1 ++ Waiting u :: l2; wg := n;
            st := σ; dying := d |}
         (Live {| todo := t; server := s;
                  pool := l1 ++ Going u (trace (final (goroutine s u blank)))
                                        (panicked (goroutine s u blank)) :: l2;
                  wg := n; st := σ; dying := d |})
| step_effect t s l1 u e es en l2 n σ d :
    step {| todo := t; server := s; pool := l1 ++ Going u (e :: es) en :: l2;
            wg := n; st := σ; dying := d |}
         (Live {| todo := t; server := s; pool := l1 ++ Going u es en :: l2;
                  wg := n; st := apply_event e σ; dying := d |})
| step_end t s l1 u en l2 n σ d :
    step {| todo := t; server := s; pool := l1 ++ Going u [] en :: l2;
            wg := n; st := σ; dying := d |}
         (Done {| todo := t; server := s; pool := l1 ++ l2; wg := n;
                  st := σ; dying := d ++ en |}).

Inductive steps : Running -> Proc -> Prop :=
| steps_refl r : steps r (Live r)
| steps_step r r' p : step r (Live r') -> steps r' p -> steps r p
| steps_crash r msg : step r (Crashed msg) -> steps r (Crashed msg)
| steps_exit r msg : In msg (dying r) -> steps r (Crashed msg).

(** Lines 95-96: [wg.Add], before the loops. *)
Definition launch (endpoints : list string) (σ : State) : Running :=
  {| todo := units endpoints;
     server := "";
     pool := [];
     wg := GoInt.len endpoints * GoInt.len gatherFunctions;
     st := σ;
     dying := [] |}.

(** [wg.Wait()] comes after the loops and lets [Gather] go on when the
    counter is zero; [Gather] then returns nil. *)
Inductive Gather : State -> option error -> State -> Prop :=
| Gather_returns σ σ1 eps r :
    endpoints σ = Ok eps σ1 ->
    steps (launch eps σ1) (Live r) ->
    todo r = [] ->
    wg r = 0 ->
    Gather σ None (st r).

(** The goroutines run one after the other, all of them with the same
    value of [server]: the state they leave. *)
Fixpoint in_order (server : string) (us : list (string * gatherFunc))
    (σ : State) : State :=
  match us with
  | [] => σ
  | u :: us' => in_order server us' (final (goroutine server u σ))
  end.

End WithEnv.
End Rev1.

(* ===================================================================== *)
(** * What the specification says of the exit-code history *)
(* ===================================================================== *)

Module Spec.

(** An entry of the history is the text of a decimal integer or the
    text [None]. *)
Inductive entry :=
| NoExitCode
| ExitCode (z : Z).

Definition all_digits (s : string) : bool :=
  forallb strconv.is_digit (String.list_ascii_of_string s).

(** An optional sign and at least one digit. *)
Definition is_numeric (s : string) : bool :=
  match s with
  | EmptyString => false
  | String c rest =>
      if Ascii.eqb c "+" || Ascii.eqb c "-"
      then negb (String.eqb rest "") && all_digits rest
      else all_digits s
  end.

(** The value of a run of digits, most significant first. *)
Fixpoint digits_value (acc : Z) (s : string) : Z :=
  match s with
  | EmptyString => acc
  | String c s' => digits_value (acc * 10 + (strconv.byte_val c - 48)) s'
  end.

Definition int_value (s : string) : Z :=
  match s with
  | EmptyString => 0
  | String c rest =>
      if Ascii.eqb c "+" then digits_value 0 rest
      else if Ascii.eqb c "-" then - digits_value 0 rest
      else digits_value 0 s
  end.

Definition classify (s : string) : option entry :=
  if String.eqb s "None" then Some NoExitCode
  else if is_numeric s then Some (ExitCode (int_value s))
  else None.

(** Modelled from the spec: "skip None entries entirely; for numeric
    entries, if the value is nonzero, increment the running counter; if
    the value is exactly zero, reset the counter to zero". *)
Definition last_errors_step (counter : Z) (e : entry) : Z :=
  match e with
  | NoExitCode => counter
  | ExitCode z => if z =? 0 then 0 else counter + 1
  end.

Definition last_errors_count (history : list entry) : Z :=
  fold_left last_errors_step history 0.

(** No run of the history ended with a negative exit code. *)
Definition no_negative (e : entry) : Prop :=
  match e with
  | NoExitCode => True
  | ExitCode z => 0 <= z
  end.

End Spec.

(* ===================================================================== *)
(** * A small world to run the plugin in *)
(* ===================================================================== *)

Module Sample.

Fixpoint until_slash (s : string) : string :=
  match s with
  | EmptyString => EmptyString
  | String c s' => if Ascii.eqb c "/" then EmptyString
                   else String c (until_slash s')
  end.

(** Enough of [url.Parse] for plain [http://host:port/path] addresses. *)
Definition parse (s : string) : string + URL :=
  if strings.HasPrefix s "http://" then
    inr {| User := None;
           Host := until_slash (String.substring 7 (String.length s - 7) s) |}
  else inl "first path segment in URL cannot contain colon".

Fixpoint assoc {A} (d : A) (k : string) (tbl : list (string * A)) : A :=
  match tbl with
  | [] => d
  | (k', a) :: tbl' => if String.eqb k k' then a else assoc d k tbl'
  end.

(** A world given by the answer to each URL and the reading of each
    body. No answer: the connection is refused. No reading: the body is
    no JSON. *)
Definition world
    (answers : list (string * (string + Response)))
    (status_docs : list (string * Decoded (option ErebStatus.t)))
    (task_docs : list (string * Decoded ErebTasks.t)) : Env :=
  {| url_Parse := parse;
     client_Do := fun req =>
       assoc (inl "connection refused") (RequestURL req) answers;
     Decode_status := fun body _ =>
       assoc (Invalid "invalid character") body status_docs;
     Decode_tasks := fun body _ =>
       assoc (Invalid "invalid character") body task_docs;
     time_Now := 1500000000 |}.

Definition start (servers : list string) : State :=
  {| g := {| Servers := servers; debug_mode := false; client := None |};
     added := []; reported := []; wire := []; trace := [] |}.

Definition next_task : ErebStatus.NextTask :=
  {| ErebStatus.Cmd := "true"; ErebStatus.CronSchedule := "* * * * *";
     ErebStatus.Description := ""; ErebStatus.Enabled := true;
     ErebStatus.Group := ""; ErebStatus.Name := "backup";
     ErebStatus.ShellScripts := []; ErebStatus.TaskID := "backup";
     ErebStatus.Timeout := "60"; ErebStatus.TryMoreOnError := false |}.

Definition status_running : ErebStatus.t :=
  {| ErebStatus.NextRun := 12.5%float;
     ErebStatus.NextTasks := [next_task];
     ErebStatus.PlannedTaskRunUuids := [];
     ErebStatus.State := "running" |}.

Definition task (name : string) (exit_codes : list string) : ErebTasks.Task :=
  {| ErebTasks.Cmd := "true"; ErebTasks.CronSchedule := "* * * * *";
     ErebTasks.Description := ""; ErebTasks.Enabled := true;
     ErebTasks.Group := ""; ErebTasks.Name := name;
     ErebTasks.ShellScripts := [];
     ErebTasks.Stats :=
       {| ErebTasks.DurationAvg := 0.5%float; ErebTasks.DurationMax := 2;
          ErebTasks.DurationMin := 0; ErebTasks.Error := 3;
          ErebTasks.ExitCodes := exit_codes; ErebTasks.Success := 7;
          ErebTasks.Stats_TaskID := name |};
     ErebTasks.TaskID := name; ErebTasks.Timeout := "60";
     ErebTasks.TryMoreOnError := false |}.

Definition ok (body : string) : string + Response :=
  inr {| StatusCode := 200; Body := body |}.

Definition status (code : Z) : string + Response :=
  inr {| StatusCode := code; Body := "" |}.

(** A healthy scheduler on localhost with one task. *)
Definition healthy (exit_codes : list string) : Env :=
  world [ ("http://localhost:8888/status", ok "STATUS");
          ("http://localhost:8888/tasks", ok "TASKS") ]
        [ ("STATUS", Stored (Some status_running) None) ]
        [ ("TASKS", Stored [task "backup" exit_codes] None);
          ("STATUS", Stored [] (Some "json: cannot unmarshal object")) ].

(** A scheduler that answers every request with 500. *)
Definition broken : Env :=
  world [ ("http://localhost:8888/status", status 500);
          ("http://localhost:8888/tasks", status 500) ]
        [] [].

(** A server that answers [/status] with a list of tasks. *)
Definition tasks_at_status (exit_codes : list string) : Env :=
  world [ ("http://localhost:8888/status", ok "TASKS") ]
        [ ("TASKS", Stored None (Some "cannot unmarshal array")) ]
        [ ("TASKS", Stored [task "backup" exit_codes] None) ].

(** A scheduler whose answers are no JSON. *)
Definition garbled : Env :=
  world [ ("http://localhost:8888/status", ok "<html>");
          ("http://localhost:8888/tasks", ok "<html>") ]
        [] [].

End Sample.

(* ===================================================================== *)
(** * The factory, and names for what the cycle does *)
(* ===================================================================== *)

(** [init] (lines 216-220 and 488-492) registers a factory that returns
    [&ereb{}]: no server, no client. *)
Definition new_ereb : ereb :=
  {| Servers := []; debug_mode := false; client := None |}.

Definition fresh : State :=
  {| g := new_ereb; added := []; reported := []; wire := []; trace := [] |}.

Module History.

(** The three kinds of entry the loop of lines 411-422 tells apart. *)
Definition is_None (exitCode : string) : bool := String.eqb exitCode "None".

Definition resets (exitCode : string) : bool :=
  negb (is_None exitCode) && (fst (strconv.Atoi exitCode) =? 0).

Definition counts (exitCode : string) : bool :=
  negb (is_None exitCode) && (0 <? fst (strconv.Atoi exitCode)).

End History.

(** The requests one goroutine of the later copy sends when it runs,
    to its return or to its panic. *)
Definition unit_wire (u : string * Rev2.gatherFunc) : list Request :=
  wire (final (Rev2.goroutine u blank)).

(** A record without the time it was made at. *)
Definition untimed (m : Metric)
    : string * gmap string Value * gmap string string :=
  (measurement m, fields m, tags m).

(** An effect that leaves the plugin object alone, a computation that
    makes only effects of one kind, one that leaves the plugin object
    alone, and one that does so after it has found or made the
    client. *)
Definition neutral (e : Event) : Prop :=
  match e with
  | Cached _ _ => False
  | _ => True
  end.

Definition logs (P : Event -> Prop) {X} (m : M X) : Prop :=
  forall σ, exists es,
    trace (final (m σ)) = trace σ ++ es /\ Forall P es.

Definition calm {X} (m : M X) : Prop := logs neutral m.

Definition opens (h t : Z) {X} (m : M X) : Prop :=
  forall σ, exists es,
    trace (final (m σ)) = trace σ ++ Cached h t :: es /\ Forall neutral es.

(** What holds of the plugin object at every moment of a cycle of the
    later copy that began with the plugin object [G0]: the client is
    cached, or every goroutine has still to find or make it. *)
Definition client_coming (G0 : ereb) (r : Rev2.Running) : Prop :=
  (g (Rev2.st r) = G0 \/ g (Rev2.st r) = cached_client 30 30 G0) /\
  Forall (fun f =>
            Forall (fun e => e = Cached 30 30 \/ neutral e) (Rev2.script f) /\
            (In (Cached 30 30) (Rev2.script f) \/
             g (Rev2.st r) = cached_client 30 30 G0))
         (Rev2.pool r).

(** A request for the status document of one of the endpoints. *)
Definition asks_status (endpoints : list string) (req : Request) : Prop :=
  Method req = "GET" /\
  exists serv, In serv endpoints /\ RequestURL req = serv +:+ "/status".

(** An effect of a goroutine of the earlier copy in a cycle over some
    endpoints: no error reported, and no request but for the status of
    one of the endpoints. *)
Definition polls (endpoints : list string) (e : Event) : Prop :=
  match e with
  | Sent req => asks_status endpoints req
  | Reported _ => False
  | _ => True
  end.

(** What holds of a cycle of the earlier copy at every moment: what is
    still to launch belongs to the cycle, the loop variable holds one of
    the endpoints once a goroutine is launched, the goroutines that have
    read it have no other effects to make than those of [polls], the
    counter is the number of goroutines that have not ended, no error
    was reported and every request asked one of the endpoints for its
    status. *)
Record Rev1_polling (env : Env) (eps : list string) (σ0 : State)
    (r : Rev1.Running) : Prop := {
  polling_todo :
    Forall (fun u => In (fst u) eps /\ In (snd u) (Rev1.gatherFunctions env))
           (Rev1.todo r);
  polling_pool :
    Forall (fun f => match f with
                     | Rev1.Waiting u => In (snd u) (Rev1.gatherFunctions env)
                     | Rev1.Going _ script _ => Forall (polls eps) script
                     end) (Rev1.pool r);
  polling_server : Rev1.pool r = [] \/ In (Rev1.server r) eps;
  polling_wg :
    Rev1.wg r = GoInt.len (Rev1.todo r) + GoInt.len (Rev1.pool r);
  polling_reported : reported (Rev1.st r) = reported σ0;
  polling_wire :
    exists reqs, wire (Rev1.st r) = wire σ0 ++ reqs /\
                 Forall (asks_status eps) reqs
}.

Module Worlds.

(** A scheduler whose status answer is the JSON [null], which the
    decoder stores as a nil pointer. *)
Definition null_status : Env :=
  Sample.world [ ("http://localhost:8888/status", Sample.ok "null");
                 ("http://localhost:8888/tasks", Sample.ok "TASKS") ]
               [ ("null", Stored None None) ]
               [ ("TASKS", Stored [Sample.task "backup" ["0"]] None) ].

(** A scheduler whose [/tasks] answers 500 while [/status] is healthy. *)
Definition tasks_down : Env :=
  Sample.world [ ("http://localhost:8888/status", Sample.ok "STATUS");
                 ("http://localhost:8888/tasks", Sample.status 500) ]
               [ ("STATUS", Stored (Some Sample.status_running) None) ]
               [ ("TASKS", Stored [Sample.task "backup" ["0"]] None);
                 ("STATUS", Stored [] (Some "json: cannot unmarshal object")) ].

(** A scheduler whose status document has a text where the number of
    seconds to the next run should be: the decoder stores the state,
    skips that field and returns an error. *)
Definition wrong_shape : Env :=
  Sample.world
    [ ("http://localhost:8888/status", Sample.ok "SOON") ]
    [ ("SOON",
       Stored (Some {| ErebStatus.NextRun := 0%float;
                       ErebStatus.NextTasks := [];
                       ErebStatus.PlannedTaskRunUuids := [];
                       ErebStatus.State := "running" |})
              (Some "json: cannot unmarshal string into Go struct field")) ]
    [].

(** A healthy scheduler with two tasks. *)
Definition two_tasks : Env :=
  Sample.world [ ("http://localhost:8888/status", Sample.ok "STATUS");
                 ("http://localhost:8888/tasks", Sample.ok "TASKS") ]
               [ ("STATUS", Stored (Some Sample.status_running) None) ]
               [ ("TASKS", Stored [Sample.task "backup" ["0"; "1"];
                                   Sample.task "rotate" []] None) ].

(** The state a cycle against a healthy scheduler ends in when the
    goroutines run in the order of their launch. *)
Definition after_healthy_cycle : State :=
  final (Rev2.Gather_in_order (Sample.healthy ["0"]) (Sample.start [])).

End Worlds.

Example Atoi_ex1 : strconv.Atoi "12" = (12, None). Proof. reflexivity. Qed.
Example Atoi_ex2 : strconv.Atoi "-9" = (-9, None). Proof. reflexivity. Qed.
Example Atoi_ex3 : strconv.Atoi "abc" = (0, Some strconv.ErrSyntax). Proof. reflexivity. Qed.
Example Atoi_ex4 : strconv.Atoi "99999999999999999999x" = (GoInt.MaxInt, Some strconv.ErrRange).
Proof. vm_compute. reflexivity. Qed.
Example Atoi_ex5 : strconv.Atoi "9223372036854775808" = (GoInt.MaxInt, Some strconv.ErrRange).
Proof. vm_compute. reflexivity. Qed.
Example Atoi_ex6 : strconv.Atoi "-9223372036854775808" = (GoInt.MinInt, None).
Proof. vm_compute. reflexivity. Qed.
Example Atoi_ex7 : strconv.Atoi "18446744073709551616" = (GoInt.MaxInt, Some strconv.ErrRange).
Proof. vm_compute. reflexivity. Qed.
Example Atoi_ex8 : strconv.Atoi "-99999999999999999999" = (GoInt.MinInt, Some strconv.ErrRange).
Proof. vm_compute. reflexivity. Qed.
Example Atoi_ex9 : strconv.Atoi "" = (0, Some strconv.ErrSyntax). Proof. reflexivity. Qed.
Example Atoi_ex10 : strconv.Atoi "+7" = (7, None). Proof. reflexivity. Qed.
Example analyse_ex1 : ExitCodes.analyse ["1";"0";"2";"3"] = ("3", 2). Proof. reflexivity. Qed.
Example analyse_ex2 : ExitCodes.analyse [] = ("-1", 0). Proof. reflexivity. Qed.
Example analyse_ex3 : ExitCodes.analyse ["None";"None"] = ("None", 0). Proof. reflexivity. Qed.
Example normalize_ex :
  Rev2.normalize ["http://a:1/"; "b:2"; "https://c//"; "ftp://d"] = ["http://a:1"; "https://c"].
Proof. reflexivity. Qed.
Example scan_ex1 : ExitCodes.scan ["1";"0";"2";"3"] = 2. Proof. reflexivity. Qed.
Example scan_ex2 : ExitCodes.scan ["None";"1";"None";"2"] = 2. Proof. reflexivity. Qed.
Example trim_ex : strings.TrimRight "http://host:8888//" "/" = "http://host:8888". Proof. reflexivity. Qed.
Example suffix_ex : strings.HasSuffix "http://host:8888/" "/" = true. Proof. reflexivity. Qed.
Example itoa_ex : strconv.Itoa 500 = "500". Proof. reflexivity. Qed.

(* ===================================================================== *)
(** * Facts about the Go library functions *)
(* ===================================================================== *)

Section GoIntFacts.
Import GoInt.

Lemma wrap_id (z : Z) : MinInt <= z <= MaxInt -> wrap z = z.
Proof.
  unfold wrap, MinInt, MaxInt. intros H.
  rewrite Z.mod_small; lia.
Qed.

Lemma len_nonneg {A} (l : list A) : 0 <= len l.
Proof. unfold len. lia. Qed.

Lemma len_app {A} (l1 l2 : list A) : len (l1 ++ l2) = len l1 + len l2.
Proof. unfold len. rewrite length_app. lia. Qed.

Lemma len_zero {A} (l : list A) : len l = 0 <-> l = [].
Proof.
  unfold len. destruct l; simpl; split; intros H; try done; lia.
Qed.

End GoIntFacts.

Section StrconvFacts.
Import GoInt strconv.

Lemma is_digit_range (c : ascii) :
  is_digit c = true -> 0 <= byte_val c - 48 <= 9.
Proof.
  unfold is_digit. rewrite andb_true_iff, !Z.leb_le. lia.
Qed.

Lemma pow10_le (k : nat) (m : Z) :
  (Z.of_nat k <= m) -> 10 ^ Z.of_nat k <= 10 ^ m.
Proof. intros H. apply Z.pow_le_mono_r; lia. Qed.

(** The digit loop cannot overflow on a text of at most 19 bytes, so a
    byte that is no digit is found and reported. *)
Lemma ParseUint_loop_syntax (s : string) :
  forall (n : Z) (k : nat),
    Spec.all_digits s = false ->
    0 <= n < 10 ^ Z.of_nat k ->
    (String.length s + k <= 19)%nat ->
    ParseUint_loop n s = (0, Some ErrSyntax).
Proof.
  induction s as [|c s IH]; intros n k Hnd Hn Hlen.
  - discriminate.
  - unfold Spec.all_digits in Hnd. simpl in Hnd. simpl.
    destruct (is_digit c) eqn:Hc; [|reflexivity].
    simpl in Hnd.
    pose proof (is_digit_range c Hc) as Hd.
    simpl in Hlen.
    assert (Hk : 10 ^ Z.of_nat k <= 10 ^ 18) by (apply pow10_le; lia).
    assert (Hk1 : 10 ^ Z.of_nat (S k) <= 10 ^ 19) by (apply pow10_le; lia).
    assert (Hs : 10 ^ Z.of_nat (S k) = 10 * 10 ^ Z.of_nat k).
    { rewrite Nat2Z.inj_succ, Z.pow_succ_r; lia. }
    change (10 ^ 18) with 1000000000000000000 in Hk.
    change (10 ^ 19) with 10000000000000000000 in Hk1.
    assert (Hcut : (cutoff10 <=? n) = false).
    { apply Z.leb_gt. change cutoff10 with 1844674407370955162. lia. }
    rewrite Hcut.
    assert (Hm : wrapU (n * 10) = n * 10).
    { unfold wrapU. apply Z.mod_small.
      change (2 ^ 64) with 18446744073709551616. lia. }
    rewrite Hm.
    assert (Hw : wrapU (n * 10 + (byte_val c - 48)) = n * 10 + (byte_val c - 48)).
    { unfold wrapU. apply Z.mod_small.
      change (2 ^ 64) with 18446744073709551616. lia. }
    rewrite Hw.
    assert (Hb : ((n * 10 + (byte_val c - 48) <? n * 10)
                  || (maxUint64 <? n * 10 + (byte_val c - 48))) = false).
    { apply orb_false_iff. split; apply Z.ltb_ge.
      - lia.
      - change maxUint64 with 18446744073709551615. lia. }
    rewrite Hb.
    apply (IH _ (S k)); [exact Hnd | lia | lia].
Qed.

Lemma all_digits_cons (c : ascii) (s : string) :
  Spec.all_digits (String c s) = is_digit c && Spec.all_digits s.
Proof. reflexivity. Qed.

(** A malformed text of at most 19 bytes parses to 0 with a syntax
    error. *)
Lemma Atoi_syntax (e : string) :
  Spec.is_numeric e = false ->
  (String.length e <= 19)%nat ->
  Atoi e = (0, Some ErrSyntax).
Proof.
  intros Hnum Hlen. unfold Atoi, ParseInt.
  destruct e as [|c rest]; [reflexivity|].
  unfold Spec.is_numeric in Hnum. simpl in Hlen.
  assert (Hrest : forall s, Spec.all_digits s = false ->
                    (String.length s <= 19)%nat ->
                    ParseUint s = (0, Some ErrSyntax)).
  { intros s Hs Hl. destruct s as [|c' s']; [reflexivity|].
    unfold ParseUint. apply (ParseUint_loop_syntax _ 0 0%nat Hs); simpl in *; lia. }
  destruct (Ascii.eqb c "+") eqn:Hplus; simpl in Hnum.
  - destruct rest as [|c' r']; [reflexivity|].
    simpl in Hnum. rewrite (Hrest (String c' r')); [reflexivity|exact Hnum|lia].
  - destruct (Ascii.eqb c "-") eqn:Hminus; simpl in Hnum.
    + destruct rest as [|c' r']; [reflexivity|].
      simpl in Hnum. rewrite (Hrest (String c' r')); [reflexivity|exact Hnum|lia].
    + rewrite (Hrest (String c rest)); [reflexivity|exact Hnum|simpl; lia].
Qed.

(** Whenever the parse reports a syntax error its value is 0. *)
Lemma Atoi_syntax_value (e : string) :
  snd (Atoi e) = Some ErrSyntax -> fst (Atoi e) = 0.
Proof.
  unfold Atoi, ParseInt. destruct e as [|c rest]; [reflexivity|].
  destruct (ParseUint _) as [un [[]|]]; simpl; try reflexivity.
  - repeat (match goal with |- context [if ?b then _ else _] => destruct b end);
      simpl; intros H; discriminate.
  - repeat (match goal with |- context [if ?b then _ else _] => destruct b end);
      simpl; intros H; discriminate.
Qed.

End StrconvFacts.

Section AtoiValue.
Import GoInt strconv.

Lemma digits_value_mono (s : string) :
  forall m, Spec.all_digits s = true -> 0 <= m -> m <= Spec.digits_value m s.
Proof.
  induction s as [|c s IH]; intros m Hd Hm; simpl; [lia|].
  rewrite all_digits_cons in Hd. apply andb_true_iff in Hd as [Hc Hs].
  pose proof (is_digit_range c Hc).
  specialize (IH (m * 10 + (byte_val c - 48)) Hs). lia.
Qed.

(** On a run of digits the loop computes the value, or stops at the
    largest unsigned value once the value no longer fits. *)
Lemma ParseUint_loop_value (s : string) :
  forall n,
    Spec.all_digits s = true ->
    0 <= n <= maxUint64 ->
    ParseUint_loop n s =
      if Spec.digits_value n s <=? maxUint64
      then (Spec.digits_value n s, None)
      else (maxUint64, Some ErrRange).
Proof.
  induction s as [|c s IH]; intros n Hd Hn; simpl.
  - destruct (Z.leb_spec n maxUint64); [reflexivity | lia].
  - rewrite all_digits_cons in Hd. apply andb_true_iff in Hd as [Hc Hs].
    rewrite Hc. pose proof (is_digit_range c Hc) as Hr.
    set (d := byte_val c - 48) in *.
    pose proof (digits_value_mono s (n * 10 + d) Hs) as Hmono.
    change maxUint64 with 18446744073709551615 in *.
    destruct (Z.leb_spec cutoff10 n) as [Hcut|Hcut];
      change cutoff10 with 1844674407370955162 in Hcut.
    + destruct (Z.leb_spec (Spec.digits_value (n * 10 + d) s)
                           18446744073709551615); [lia | reflexivity].
    + assert (Hm10 : wrapU (n * 10) = n * 10).
      { unfold wrapU. apply Z.mod_small.
        change (2 ^ 64) with 18446744073709551616. lia. }
      rewrite Hm10.
      unfold wrapU. change (2 ^ 64) with 18446744073709551616.
      destruct (Z_lt_le_dec (n * 10 + d) 18446744073709551616) as [Hfit|Hover].
      * rewrite Z.mod_small by lia.
        destruct (Z.ltb_spec (n * 10 + d) (n * 10)); [lia|].
        destruct (Z.ltb_spec 18446744073709551615 (n * 10 + d)); [lia|].
        simpl. apply IH; [exact Hs | lia].
      * assert (Hm : (n * 10 + d) mod 18446744073709551616
                     = n * 10 + d - 18446744073709551616).
        { symmetry. apply (Z.mod_unique _ _ 1); lia. }
        rewrite Hm.
        destruct (Z.ltb_spec (n * 10 + d - 18446744073709551616) (n * 10));
          [|lia].
        simpl.
        destruct (Z.leb_spec (Spec.digits_value (n * 10 + d) s)
                             18446744073709551615); [lia | reflexivity].
Qed.

Lemma ParseUint_digits (s : string) :
  s <> EmptyString ->
  Spec.all_digits s = true ->
  ParseUint s =
    if Spec.digits_value 0 s <=? maxUint64
    then (Spec.digits_value 0 s, None)
    else (maxUint64, Some ErrRange).
Proof.
  intros Hne Hd. destruct s as [|c s']; [done|].
  unfold ParseUint. apply ParseUint_loop_value; [exact Hd|].
  change maxUint64 with 18446744073709551615. lia.
Qed.

(** On the text of a decimal integer [Atoi] yields its value, clamped
    to the range of [int]. *)
Lemma Atoi_numeric (e : string) :
  Spec.is_numeric e = true ->
  fst (Atoi e) = clamp (Spec.int_value e).
Proof.
  intros Hnum. unfold Atoi, ParseInt, Spec.int_value, clamp.
  destruct e as [|c rest]; [discriminate|].
  unfold Spec.is_numeric in Hnum.
  assert (Hcut : 2 ^ (intSize - 1) = 9223372036854775808) by reflexivity.
  rewrite Hcut.
  change MinInt with (-9223372036854775808).
  change MaxInt with 9223372036854775807.
  assert (Hgen : forall s (neg : bool),
    s <> EmptyString -> Spec.all_digits s = true ->
    fst (match ParseUint s with
         | (_, Some ErrSyntax) => (0, Some ErrSyntax)
         | (un, _) =>
             if negb neg && (9223372036854775808 <=? un)
             then (9223372036854775808 - 1, Some ErrRange)
             else if neg && (9223372036854775808 <? un)
                  then (- 9223372036854775808, Some ErrRange)
                  else (if neg then - un else un, None)
         end)
    = Z.max (-9223372036854775808)
        (Z.min 9223372036854775807
           (if neg then - Spec.digits_value 0 s else Spec.digits_value 0 s))).
  { intros s neg Hne Hd. rewrite (ParseUint_digits s Hne Hd).
    pose proof (digits_value_mono s 0 Hd) as Hpos.
    change maxUint64 with 18446744073709551615.
    destruct (Z.leb_spec (Spec.digits_value 0 s) 18446744073709551615) as [Hv|Hv].
    - destruct neg; simpl.
      + destruct (Z.ltb_spec 9223372036854775808 (Spec.digits_value 0 s));
          simpl; lia.
      + destruct (Z.leb_spec 9223372036854775808 (Spec.digits_value 0 s));
          simpl; lia.
    - destruct neg; simpl; lia. }
  destruct (Ascii.eqb c "+") eqn:Hplus; simpl in Hnum.
  - apply andb_true_iff in Hnum as [Hne Hd].
    apply Ascii.eqb_eq in Hplus. subst c. cbv zeta. simpl Ascii.eqb. cbv iota.
    apply (Hgen rest false); [|exact Hd].
    intros ->. discriminate.
  - destruct (Ascii.eqb c "-") eqn:Hminus; simpl in Hnum.
    + apply andb_true_iff in Hnum as [Hne Hd].
      cbv zeta. cbv iota.
      apply (Hgen rest true); [|exact Hd].
      intros ->. discriminate.
    + cbv zeta. cbv iota.
      apply (Hgen (String c rest) false); [done|exact Hnum].
Qed.

Lemma Atoi_numeric_sign (e : string) :
  Spec.is_numeric e = true ->
  (0 < fst (Atoi e) <-> 0 < Spec.int_value e) /\
  (fst (Atoi e) = 0 <-> Spec.int_value e = 0).
Proof.
  intros H. rewrite (Atoi_numeric e H). unfold clamp.
  change MinInt with (-9223372036854775808).
  change MaxInt with 9223372036854775807. lia.
Qed.

End AtoiValue.

(* ===================================================================== *)
(** * The exit-code history: [last_exit_code] and [last_errors_count] *)
(* ===================================================================== *)

Section ExitCodeFacts.
Import GoInt ExitCodes.

Lemma scan_step_None (c : Z) : scan_step c "None" = c.
Proof. reflexivity. Qed.

Lemma scan_step_other (c : Z) (e : string) :
  String.eqb e "None" = false ->
  scan_step c e =
    if 0 <? fst (strconv.Atoi e) then wrap (c + 1)
    else if fst (strconv.Atoi e) =? 0 then 0 else c.
Proof. intros H. unfold scan_step. rewrite H. reflexivity. Qed.

(** The counter never leaves the range from 0 to the number of entries
    read, so the increment never wraps on a slice. *)
Lemma scan_bounds (l : list string) :
  forall c, 0 <= c -> c + len l <= MaxInt ->
    0 <= fold_left scan_step l c <= c + len l.
Proof.
  induction l as [|e l IH]; intros c Hc Hlen; simpl.
  - unfold len. simpl. lia.
  - unfold len in *. simpl length in *. rewrite Nat2Z.inj_succ in *.
    assert (Hstep : 0 <= scan_step c e <= c + 1).
    { unfold scan_step. destruct (negb _); [|lia].
      destruct (0 <? _); [rewrite wrap_id; unfold MinInt, MaxInt in *; lia|].
      destruct (_ =? 0); lia. }
    specialize (IH (scan_step c e)). lia.
Qed.

Lemma scan_agrees_from (h : list string) (es : list Spec.entry) :
  Forall2 (fun s e => Spec.classify s = Some e) h es ->
  Forall Spec.no_negative es ->
  forall c, 0 <= c -> c + len h <= MaxInt ->
    fold_left scan_step h c = fold_left Spec.last_errors_step es c.
Proof.
  induction 1 as [|s e h es Hse Hrest IH]; intros Hpos c Hc Hlen.
  - reflexivity.
  - apply Forall_cons in Hpos as [He Hes].
    unfold len in Hlen. simpl length in Hlen. rewrite Nat2Z.inj_succ in Hlen.
    simpl.
    assert (Hstep : scan_step c s = Spec.last_errors_step c e
                    /\ 0 <= scan_step c s <= c + 1).
    { unfold Spec.classify in Hse.
      destruct (String.eqb s "None") eqn:Hnone.
      - inversion Hse; subst e. unfold scan_step. rewrite Hnone. simpl. lia.
      - destruct (Spec.is_numeric s) eqn:Hnum; [|discriminate].
        inversion Hse; subst e. simpl in He.
        destruct (Atoi_numeric_sign s Hnum) as [Hgt Hz].
        rewrite (scan_step_other c s Hnone). simpl.
        destruct (Z.ltb_spec 0 (fst (strconv.Atoi s))) as [Hp|Hp].
        + rewrite wrap_id by (unfold MinInt, MaxInt in *; lia).
          destruct (Z.eqb_spec (Spec.int_value s) 0); lia.
        + destruct (Z.eqb_spec (fst (strconv.Atoi s)) 0) as [H0|H0].
          * destruct (Z.eqb_spec (Spec.int_value s) 0); lia.
          * destruct (Z.eqb_spec (Spec.int_value s) 0); lia. }
    destruct Hstep as [-> Hb].
    apply IH; [exact Hes | | ]; unfold len; lia.
Qed.

End ExitCodeFacts.

Section LastErrorsCount.
Import GoInt ExitCodes.

(** On a history without negative exit codes the scan of lines 411-422
    is the scan the specification describes. *)
Lemma scan_agrees (h : list string) (es : list Spec.entry) :
  Forall2 (fun s e => Spec.classify s = Some e) h es ->
  Forall Spec.no_negative es ->
  slice_ok h ->
  scan h = Spec.last_errors_count es.
Proof.
  intros Hcl Hpos Hok. unfold scan, Spec.last_errors_count.
  apply scan_agrees_from; [exact Hcl | exact Hpos | lia | unfold slice_ok in Hok; lia].
Qed.

(** A history ending in a zero-exit entry has no trailing errors. *)
Lemma scan_ends_in_zero (h : list string) :
  scan (h ++ ["0"]) = 0.
Proof. unfold scan. rewrite fold_left_app. reflexivity. Qed.

Lemma scan_all_None (h : list string) :
  Forall (fun e => e = "None") h -> scan h = 0.
Proof.
  intros Hall. unfold scan.
  assert (Hgen : forall c, fold_left scan_step h c = c); [|apply Hgen].
  induction Hall as [|e h -> _ IH]; intros c.
  - reflexivity.
  - simpl. apply IH.
Qed.

End LastErrorsCount.

(** C1: a negative exit code is a nonzero numeric entry, and the scan of
  the later copy does not count it.  For the history 0, -15, -15 (two
  runs killed by a signal after a good one) the scan described in the
  specification gives 2; the plugin reports [last_errors_count] 0. *)
Theorem C1_negative_exit_codes_not_counted :
let history := ["0"; "-15"; "-15"] in
Forall2 (fun s e => Spec.classify s = Some e) history
        [Spec.ExitCode 0; Spec.ExitCode (-15); Spec.ExitCode (-15)] /\
Spec.last_errors_count
  [Spec.ExitCode 0; Spec.ExitCode (-15); Spec.ExitCode (-15)] = 2 /\
ExitCodes.scan history = 0 /\
Rev2.task_fields (Sample.task "backup" history) !! "last_errors_count"
  = Some (VInt 0).
Proof.
cbv zeta. split; [|split; [|split]].
- repeat constructor.
- reflexivity.
- reflexivity.
- vm_compute. reflexivity.
Qed.

(** C10 as stated fails: the entry below is not numeric and is not
  "None", yet its parse overflows before the offending byte is read,
  yields the largest [int], and the counter goes up instead of back
  to zero. *)
Lemma C10_counterexample :
let e := "99999999999999999999x" in
String.eqb e "None" = false /\
Spec.is_numeric e = false /\
strconv.Atoi e = (GoInt.MaxInt, Some strconv.ErrRange) /\
ExitCodes.scan_step 0 e = 1 /\
ExitCodes.scan_step 0 e <> 0.
Proof. vm_compute. repeat split; congruence. Qed.

(** C10, amended: an entry other than "None" moves the counter by the sign
  of its parsed value: up by one exactly when the value is positive,
  back to zero when it is zero, not at all when it is negative.  The
  value is zero whenever the parse ends in a syntax error, which is the
  case for every malformed entry of at most 19 bytes. *)
Theorem C10_scan_step_by_sign (c : Z) (e : string) :
String.eqb e "None" = false ->
0 <= c < GoInt.MaxInt ->
let n := fst (strconv.Atoi e) in
(0 < n <-> ExitCodes.scan_step c e = c + 1) /\
(n = 0 -> ExitCodes.scan_step c e = 0) /\
(n < 0 -> ExitCodes.scan_step c e = c) /\
(snd (strconv.Atoi e) = Some strconv.ErrSyntax -> ExitCodes.scan_step c e = 0) /\
(Spec.is_numeric e = false -> (String.length e <= 19)%nat ->
   ExitCodes.scan_step c e = 0).
Proof.
intros Hnone Hc n.
assert (Hzero : n = 0 -> ExitCodes.scan_step c e = 0).
{ intros Hn. rewrite (scan_step_other c e Hnone). fold n. rewrite Hn. reflexivity. }
split; [|split; [|split; [|split]]].
- rewrite (scan_step_other c e Hnone). fold n.
  destruct (Z.ltb_spec 0 n) as [Hp|Hp].
  + rewrite wrap_id by (unfold GoInt.MinInt, GoInt.MaxInt in *; lia). tauto.
  + destruct (Z.eqb_spec n 0); split; lia.
- exact Hzero.
- intros Hn. rewrite (scan_step_other c e Hnone). fold n.
  destruct (Z.ltb_spec 0 n); [lia|].
  destruct (Z.eqb_spec n 0); [lia|reflexivity].
- intros Herr. apply Hzero. apply Atoi_syntax_value. exact Herr.
- intros Hnum Hlen. apply Hzero. unfold n.
  rewrite (Atoi_syntax e Hnum Hlen). reflexivity.
Qed.

Lemma C10_scan_step_by_sign_witness :
let n := fst (strconv.Atoi "abc") in
(0 < n <-> ExitCodes.scan_step 4 "abc" = 4 + 1) /\
(n = 0 -> ExitCodes.scan_step 4 "abc" = 0) /\
(n < 0 -> ExitCodes.scan_step 4 "abc" = 4) /\
(snd (strconv.Atoi "abc") = Some strconv.ErrSyntax ->
   ExitCodes.scan_step 4 "abc" = 0) /\
(Spec.is_numeric "abc" = false -> (String.length "abc" <= 19)%nat ->
   ExitCodes.scan_step 4 "abc" = 0).
Proof.
apply (C10_scan_step_by_sign 4 "abc").
- reflexivity.
- unfold GoInt.MaxInt. lia.
Defined.

(* ===================================================================== *)
(** * The endpoints of a cycle (lines 309-325) *)
(* ===================================================================== *)

Section NormalizeFacts.
Import strings.

Lemma HasSuffix_slash_cons (c : ascii) (s : string) :
  HasSuffix (String c s) "/" =
    match s with
    | EmptyString => Ascii.eqb c "/"
    | _ => HasSuffix s "/"
    end.
Proof.
  destruct s as [|c' s'].
  - unfold HasSuffix. simpl. destruct (Ascii.eqb c "/"); reflexivity.
  - unfold HasSuffix. simpl String.length.
    replace (S (S (String.length s')) - 1)%nat with (S (String.length s')) by lia.
    replace (S (String.length s') - 1)%nat with (String.length s') by lia.
    reflexivity.
Qed.

Lemma TrimRight_no_slash (s : string) :
  HasSuffix s "/" = false -> TrimRight s "/" = s.
Proof.
  induction s as [|c s IH]; intros H; [reflexivity|].
  rewrite HasSuffix_slash_cons in H. simpl.
  destruct s as [|c' s'].
  - simpl. rewrite H. reflexivity.
  - rewrite (IH H). reflexivity.
Qed.

(** Lines 319-321 amount to [TrimRight] alone. *)
Lemma trim_if_suffix (s : string) :
  (if HasSuffix s "/" then TrimRight s "/" else s) = TrimRight s "/".
Proof.
  destruct (HasSuffix s "/") eqn:H; [reflexivity|].
  symmetry. apply TrimRight_no_slash. exact H.
Qed.

Lemma TrimRight_app_slash (e : string) :
  TrimRight (e +:+ "/") "/" = TrimRight e "/".
Proof.
  induction e as [|c e IH]; [reflexivity|].
  simpl. rewrite IH. reflexivity.
Qed.

Lemma HasPrefix_app_slash (e : string) :
  HasPrefix (e +:+ "/") "http" = HasPrefix e "http".
Proof.
  destruct e as [|c1 [|c2 [|c3 [|c4 e]]]]; simpl;
    rewrite ?andb_false_r, ?andb_true_r; reflexivity.
Qed.

Lemma TrimRight_idem (s : string) :
  HasSuffix (TrimRight s "/") "/" = false.
Proof.
  induction s as [|c s IH]; [reflexivity|].
  simpl. destruct (TrimRight s "/") as [|c' t] eqn:Ht.
  - simpl. rewrite orb_false_r.
    destruct (Ascii.eqb c "/") eqn:Hc; [reflexivity|].
    rewrite HasSuffix_slash_cons. exact Hc.
  - rewrite HasSuffix_slash_cons. exact IH.
Qed.

Lemma endpoint_step_eq (acc : list string) (e : string) :
  Rev2.endpoint_step acc e =
    if HasPrefix e "http" then acc ++ [TrimRight e "/"] else acc.
Proof.
  unfold Rev2.endpoint_step. rewrite trim_if_suffix. reflexivity.
Qed.

Lemma normalize_from (servers acc : list string) :
  fold_left Rev2.endpoint_step servers acc =
    acc ++ map (fun e => TrimRight e "/")
               (List.filter (fun e => HasPrefix e "http") servers).
Proof.
  revert acc. induction servers as [|e servers IH]; intros acc.
  - simpl. rewrite app_nil_r. reflexivity.
  - cbn [fold_left List.filter]. rewrite IH, endpoint_step_eq.
    destruct (HasPrefix e "http"); [|reflexivity].
    cbn [map]. rewrite <- app_assoc. reflexivity.
Qed.

(** The endpoints are the configured entries that begin with the text
    [http], in their order, each without its trailing slashes. *)
Lemma normalize_filter_map (servers : list string) :
  Rev2.normalize servers =
    map (fun e => TrimRight e "/")
        (List.filter (fun e => HasPrefix e "http") servers).
Proof. unfold Rev2.normalize. rewrite normalize_from. reflexivity. Qed.

End NormalizeFacts.

(** C4 as stated fails: a configured entry that names a host and a port
    and no scheme, but whose host name begins with the letters [http], is
    no URL with an HTTP scheme and yet stays in the endpoint set. *)
Lemma C4_counterexample :
  let entry := "httpd.internal:8888" in
  strings.HasPrefix entry "http://" = false /\
  strings.HasPrefix entry "https://" = false /\
  Rev2.normalize [entry] = [entry] /\
  Rev2.endpoints (Sample.start [entry]) = Ok [entry] (Sample.start [entry]).
Proof. vm_compute. repeat split. Qed.

(** C4, amended: with no server configured the cycle polls exactly
    [http://localhost:8888]; every configured entry that does not begin
    with the four bytes [http] is dropped, and every entry that does is
    kept; every trailing slash of a kept entry is stripped, so an entry
    with a slash appended is treated as the entry itself, and
    [http://host:8888/] as [http://host:8888]. *)
Theorem C4_endpoint_normalization :
  (forall σ, Servers (g σ) = [] ->
     exists σ', Rev2.endpoints σ = Ok ["http://localhost:8888"] σ' /\
                Servers (g σ') = ["http://localhost:8888"]) /\
  (forall σ, Servers (g σ) <> [] ->
     Rev2.endpoints σ = Ok (Rev2.normalize (Servers (g σ))) σ) /\
  (forall servers,
     Rev2.normalize servers =
       map (fun e => strings.TrimRight e "/")
           (List.filter (fun e => strings.HasPrefix e "http") servers)) /\
  (forall l1 e l2, strings.HasPrefix e "http" = false ->
     Rev2.normalize (l1 ++ e :: l2) = Rev2.normalize (l1 ++ l2)) /\
  (forall l1 e l2,
     Rev2.normalize (l1 ++ (e +:+ "/") :: l2) = Rev2.normalize (l1 ++ e :: l2)) /\
  (forall e, In e (Rev2.normalize ["http://host:8888/"]) <->
             In e (Rev2.normalize ["http://host:8888"])) /\
  Rev2.normalize ["http://host:8888/"] = ["http://host:8888"] /\
  Rev2.normalize ["host:8888"] = [].
Proof.
  split; [|split; [|split; [|split; [|split; [|split; [|split]]]]]].
  - intros [[servers dbg cl] ad rep wi] H. simpl in H. subst servers.
    eexists. split; reflexivity.
  - intros [[servers dbg cl] ad rep wi] H. simpl in H.
    destruct servers as [|s servers]; [done|]. reflexivity.
  - apply normalize_filter_map.
  - intros l1 e l2 H.
    rewrite !normalize_filter_map, !List.filter_app. cbn [List.filter].
    rewrite H. reflexivity.
  - intros l1 e l2.
    rewrite !normalize_filter_map, !List.filter_app. cbn [List.filter].
    rewrite HasPrefix_app_slash.
    destruct (strings.HasPrefix e "http"); [|reflexivity].
    rewrite !map_app. cbn [map]. rewrite TrimRight_app_slash. reflexivity.
  - intros e. vm_compute. tauto.
  - vm_compute. reflexivity.
  - vm_compute. reflexivity.
Qed.

(* ===================================================================== *)
(** * The fetcher *)
(* ===================================================================== *)

Section FetcherFacts.
Context (env : Env) (headerTimeout totalTimeout : Z).
Context {T : Type} (Decode : string -> T -> Decoded T).

Lemma getJson_malformed (requestUrl : string) (target : T) (σ : State) err :
  url_Parse env requestUrl = inl err ->
  getJson_with env headerTimeout totalTimeout Decode requestUrl target σ
  = Ok (Some (ParseError requestUrl err), target) (ready headerTimeout totalTimeout σ).
Proof.
  intros H. unfold getJson_with, bind, init_client, ret. rewrite H. reflexivity.
Qed.

Lemma getJson_no_response (requestUrl : string) (target : T) (σ : State) u err :
  url_Parse env requestUrl = inr u ->
  client_Do env (request requestUrl u) = inl err ->
  getJson_with env headerTimeout totalTimeout Decode requestUrl target σ
  = Ok (Some (ConnectError requestUrl err), target)
       (with_request (request requestUrl u) (ready headerTimeout totalTimeout σ)).
Proof.
  intros H1 H2. unfold getJson_with, bind, init_client, Do, ret.
  rewrite H1, H2. reflexivity.
Qed.

Lemma getJson_bad_status (requestUrl : string) (target : T) (σ : State) u res :
  url_Parse env requestUrl = inr u ->
  client_Do env (request requestUrl u) = inr res ->
  StatusCode res <> 200 ->
  getJson_with env headerTimeout totalTimeout Decode requestUrl target σ
  = Ok (Some (StatusError requestUrl (StatusCode res)), target)
       (with_request (request requestUrl u) (ready headerTimeout totalTimeout σ)).
Proof.
  intros H1 H2 H3. unfold getJson_with, bind, init_client, Do, ret.
  rewrite H1, H2. destruct (Z.eqb_spec (StatusCode res) 200); [done|reflexivity].
Qed.

Lemma getJson_200 (requestUrl : string) (target : T) (σ : State) u res :
  url_Parse env requestUrl = inr u ->
  client_Do env (request requestUrl u) = inr res ->
  StatusCode res = 200 ->
  getJson_with env headerTimeout totalTimeout Decode requestUrl target σ
  = Ok (None, after_Decode (Decode (Body res) target) target)
       (with_request (request requestUrl u) (ready headerTimeout totalTimeout σ)).
Proof.
  intros H1 H2 H3. unfold getJson_with, bind, init_client, Do, ret.
  rewrite H1, H2, H3. reflexivity.
Qed.

(** [getJson] always returns, never touches the accumulator, and sends
    at most one request, to the URL it was given. *)
Lemma getJson_frame (requestUrl : string) (target : T) (σ : State) :
  exists r σ',
    getJson_with env headerTimeout totalTimeout Decode requestUrl target σ
      = Ok r σ' /\
    added σ' = added σ /\ reported σ' = reported σ /\
    Servers (g σ') = Servers (g σ) /\
    (wire σ' = wire σ \/
     exists req, wire σ' = wire σ ++ [req] /\ RequestURL req = requestUrl
                 /\ Method req = "GET").
Proof.
  destruct (url_Parse env requestUrl) as [err|u] eqn:Hu.
  - eexists _, _. split; [apply getJson_malformed; exact Hu|].
    unfold ready, cached_client. destruct (client (g σ)); simpl; auto.
  - assert (Hreq : RequestURL (request requestUrl u) = requestUrl
                   /\ Method (request requestUrl u) = "GET").
    { unfold request. destruct (User u) as [[name p]|]; split; reflexivity. }
    assert (Hsrv : Servers (cached_client headerTimeout totalTimeout (g σ))
                   = Servers (g σ)).
    { unfold cached_client. destruct (client (g σ)); reflexivity. }
    destruct (client_Do env (request requestUrl u)) as [err|res] eqn:Hdo.
    + eexists _, _. split; [eapply getJson_no_response; eassumption|].
      simpl. repeat split; auto. right. eexists. split; [reflexivity|exact Hreq].
    + destruct (Z.eq_dec (StatusCode res) 200) as [H200|H200].
      * eexists _, _. split; [eapply getJson_200; eassumption|].
        simpl. repeat split; auto. right. eexists. split; [reflexivity|exact Hreq].
      * eexists _, _. split; [eapply getJson_bad_status; eassumption|].
        simpl. repeat split; auto. right. eexists. split; [reflexivity|exact Hreq].
Qed.

End FetcherFacts.

(** C5: [getJson] returns an error exactly when the URL is malformed,
    the request yields no response, or the status code of the response is
    not 200; a response with any other code, 2xx or not, yields the
    HTTP-status error, the target is left as it was, and nothing is added
    to the accumulator: an extractor whose fetch fails returns that error
    and adds no record. *)
Theorem C5_getJson_error_iff (env : Env) (T : Type)
    (Decode : string -> T -> Decoded T)
    (requestUrl : string) (target : T) (σ : State) :
  exists r σ',
    Rev2.getJson env Decode requestUrl target σ = Ok r σ' /\
    (fst r <> None <->
       (exists err, url_Parse env requestUrl = inl err) \/
       (exists u err, url_Parse env requestUrl = inr u /\
                      client_Do env (request requestUrl u) = inl err) \/
       (exists u res, url_Parse env requestUrl = inr u /\
                      client_Do env (request requestUrl u) = inr res /\
                      StatusCode res <> 200)) /\
    (forall u res,
       url_Parse env requestUrl = inr u ->
       client_Do env (request requestUrl u) = inr res ->
       StatusCode res <> 200 ->
       r = (Some (StatusError requestUrl (StatusCode res)), target)) /\
    added σ' = added σ /\
    (forall serverAddr e doc σ1,
       Rev2.getJson env (Decode_status env) (serverAddr +:+ "/status")
         (Some ErebStatus.zero) σ = Ok (Some e, doc) σ1 ->
       Rev2.gatherStatus env serverAddr σ = Ok (Some e) σ1 /\
       added σ1 = added σ) /\
    (forall serverAddr e doc σ1,
       Rev2.getJson env (Decode_tasks env) (serverAddr +:+ "/tasks")
         ErebTasks.zero σ = Ok (Some e, doc) σ1 ->
       Rev2.gatherTasks env serverAddr σ = Ok (Some e) σ1 /\
       added σ1 = added σ).
Proof.
  assert (Hextract :
    (forall serverAddr e doc σ1,
       Rev2.getJson env (Decode_status env) (serverAddr +:+ "/status")
         (Some ErebStatus.zero) σ = Ok (Some e, doc) σ1 ->
       Rev2.gatherStatus env serverAddr σ = Ok (Some e) σ1 /\
       added σ1 = added σ) /\
    (forall serverAddr e doc σ1,
       Rev2.getJson env (Decode_tasks env) (serverAddr +:+ "/tasks")
         ErebTasks.zero σ = Ok (Some e, doc) σ1 ->
       Rev2.gatherTasks env serverAddr σ = Ok (Some e) σ1 /\
       added σ1 = added σ)).
  { split; intros serverAddr e doc σ1 H.
    - split; [unfold Rev2.gatherStatus, bind; rewrite H; reflexivity|].
      destruct (getJson_frame env 30 30 (Decode_status env)
                  (serverAddr +:+ "/status") (Some ErebStatus.zero) σ)
        as (r0 & σ0 & Hrun & Ha & _).
      unfold Rev2.getJson in H. rewrite H in Hrun. inversion Hrun; subst.
      exact Ha.
    - split; [unfold Rev2.gatherTasks, bind; rewrite H; reflexivity|].
      destruct (getJson_frame env 30 30 (Decode_tasks env)
                  (serverAddr +:+ "/tasks") ErebTasks.zero σ)
        as (r0 & σ0 & Hrun & Ha & _).
      unfold Rev2.getJson in H. rewrite H in Hrun. inversion Hrun; subst.
      exact Ha. }
  unfold Rev2.getJson at 1.
  destruct (url_Parse env requestUrl) as [err|u] eqn:Hu.
  - eexists _, _. split; [apply getJson_malformed; exact Hu|].
    split; [|split; [|split]].
    + simpl. split; [intros _; left; eauto|done].
    + intros u res H. discriminate.
    + unfold cached_client. destruct (client (g σ)); reflexivity.
    + exact Hextract.
  - destruct (client_Do env (request requestUrl u)) as [err|res] eqn:Hdo.
    + eexists _, _. split; [eapply getJson_no_response; eassumption|].
      split; [|split; [|split]].
      * simpl. split; [intros _; right; left; eauto|done].
      * intros u' res' H1 H2. inversion H1; subst u'. congruence.
      * reflexivity.
      * exact Hextract.
    + destruct (Z.eq_dec (StatusCode res) 200) as [H200|H200].
      * eexists _, _. split; [eapply getJson_200; eassumption|].
        split; [|split; [|split]]; [| | |exact Hextract].
        -- simpl. split; [done|].
           intros [[err H]|[(u' & err & H1 & H2)|(u' & res' & H1 & H2 & H3)]].
           ++ discriminate.
           ++ inversion H1; subst u'. congruence.
           ++ inversion H1; subst u'. rewrite Hdo in H2.
              inversion H2; subst res'. contradiction.
        -- intros u' res' H1 H2 H3. inversion H1; subst u'.
           rewrite Hdo in H2. inversion H2; subst res'. contradiction.
        -- reflexivity.
      * eexists _, _. split; [eapply getJson_bad_status; eassumption|].
        split; [|split; [|split]]; [| | |exact Hextract].
        -- simpl. split; [intros _; right; right; eauto|done].
        -- intros u' res' H1 H2 H3. inversion H1; subst u'.
           rewrite Hdo in H2. inversion H2; subst res'. reflexivity.
        -- reflexivity.
Qed.

(** C6: a 200 response whose body is no JSON is no error for [getJson]:
    it returns nil, reports nothing, and leaves the target as it was,
    which for the two extractors is the zero value they made it with.
    So [gatherStatus] then adds one status record of zero values
    (not running, an empty queue, a next run in 0 seconds) and returns
    nil, and [gatherTasks] adds no record and returns nil: no error
    gets to the accumulator. *)
Theorem C6_decode_failure_swallowed (env : Env) (T : Type)
    (Decode : string -> T -> Decoded T)
    (requestUrl : string) (target : T) (σ : State) (u : URL) (res : Response)
    (err : string) :
  url_Parse env requestUrl = inr u ->
  client_Do env (request requestUrl u) = inr res ->
  StatusCode res = 200 ->
  Decode (Body res) target = Invalid err ->
  Rev2.getJson env Decode requestUrl target σ
    = Ok (None, target) (with_request (request requestUrl u) (ready 30 30 σ)) /\
  added (with_request (request requestUrl u) (ready 30 30 σ)) = added σ /\
  reported (with_request (request requestUrl u) (ready 30 30 σ)) = reported σ /\
  (forall serverAddr u1 res1 err1 host,
     url_Parse env (serverAddr +:+ "/status") = inr u1 ->
     client_Do env (request (serverAddr +:+ "/status") u1) = inr res1 ->
     StatusCode res1 = 200 ->
     Decode_status env (Body res1) (Some ErebStatus.zero) = Invalid err1 ->
     url_Parse env serverAddr = inr host ->
     exists m σ',
       Rev2.gatherStatus env serverAddr σ = Ok None σ' /\
       Rev2.goroutine (serverAddr, Rev2.gatherStatus env) σ = Ok tt σ' /\
       added σ' = added σ ++ [m] /\
       reported σ' = reported σ /\
       measurement m = "ereb_status" /\
       fields m !! "running" = Some (VInt 0) /\
       fields m !! "tasks_queue_length" = Some (VInt 0) /\
       fields m !! "next_run_in" = Some (VFloat 0%float) /\
       tags m !! "hostname" = Some (Host host)) /\
  (forall serverAddr u1 res1 err1 host,
     url_Parse env (serverAddr +:+ "/tasks") = inr u1 ->
     client_Do env (request (serverAddr +:+ "/tasks") u1) = inr res1 ->
     StatusCode res1 = 200 ->
     Decode_tasks env (Body res1) ErebTasks.zero = Invalid err1 ->
     url_Parse env serverAddr = inr host ->
     exists σ',
       Rev2.gatherTasks env serverAddr σ = Ok None σ' /\
       Rev2.goroutine (serverAddr, Rev2.gatherTasks env) σ = Ok tt σ' /\
       added σ' = added σ /\
       reported σ' = reported σ).
Proof.
  intros Hu Hdo H200 Hdec. split; [|split; [|split; [|split]]].
  - unfold Rev2.getJson.
    rewrite (getJson_200 env 30 30 Decode _ _ σ u res Hu Hdo H200), Hdec.
    reflexivity.
  - reflexivity.
  - reflexivity.
  - intros serverAddr u1 res1 err1 host Hu1 Hdo1 H1 Hdec1 Hhost.
    assert (Hrun : Rev2.gatherStatus env serverAddr σ =
              Ok None
                (with_metric
                   {| measurement := "ereb_status";
                      fields := <[ "running" := VInt 0 ]>
                                (<[ "tasks_queue_length" := VInt 0 ]>
                                (<[ "next_run_in" := VFloat 0%float ]> ∅));
                      tags := {[ "hostname" := Host host ]};
                      timestamp := time_Now env |}
                   (with_request (request (serverAddr +:+ "/status") u1)
                      (ready 30 30 σ)))).
    { unfold Rev2.gatherStatus, Rev2.getJson, bind.
      rewrite (getJson_200 env 30 30 (Decode_status env) _ _ σ u1 res1
                 Hu1 Hdo1 H1), Hdec1, Hhost.
      reflexivity. }
    eexists _, _. split; [exact Hrun|].
    split; [unfold Rev2.goroutine, bind; rewrite Hrun; reflexivity|].
    split; [reflexivity|]. split; [reflexivity|]. split; [reflexivity|].
    simpl. split; [apply lookup_insert_eq|].
    split; [rewrite lookup_insert_ne by discriminate; apply lookup_insert_eq|].
    split; [rewrite !lookup_insert_ne by discriminate; apply lookup_insert_eq|].
    apply lookup_singleton_eq.
  - intros serverAddr u1 res1 err1 host Hu1 Hdo1 H1 Hdec1 Hhost.
    assert (Hrun : Rev2.gatherTasks env serverAddr σ =
              Ok None (with_request (request (serverAddr +:+ "/tasks") u1)
                         (ready 30 30 σ))).
    { unfold Rev2.gatherTasks, Rev2.getJson, bind.
      rewrite (getJson_200 env 30 30 (Decode_tasks env) _ _ σ u1 res1
                 Hu1 Hdo1 H1), Hdec1, Hhost.
      reflexivity. }
    eexists. split; [exact Hrun|].
    split; [unfold Rev2.goroutine, bind; rewrite Hrun; reflexivity|].
    split; reflexivity.
Qed.

Lemma C6_decode_failure_swallowed_witness :
  let env := Sample.garbled in
  let σ := Sample.start [] in
  let u := {| User := None; Host := "localhost:8888" |} in
  Rev2.getJson env (Decode_status env) "http://localhost:8888/status"
    (Some ErebStatus.zero) σ
    = Ok (None, Some ErebStatus.zero)
         (with_request (request "http://localhost:8888/status" u)
            (ready 30 30 σ)) /\
  added (with_request (request "http://localhost:8888/status" u)
           (ready 30 30 σ)) = added σ /\
  reported (with_request (request "http://localhost:8888/status" u)
              (ready 30 30 σ)) = reported σ /\
  (forall serverAddr u1 res1 err1 host,
     url_Parse env (serverAddr +:+ "/status") = inr u1 ->
     client_Do env (request (serverAddr +:+ "/status") u1) = inr res1 ->
     StatusCode res1 = 200 ->
     Decode_status env (Body res1) (Some ErebStatus.zero) = Invalid err1 ->
     url_Parse env serverAddr = inr host ->
     exists m σ',
       Rev2.gatherStatus env serverAddr σ = Ok None σ' /\
       Rev2.goroutine (serverAddr, Rev2.gatherStatus env) σ = Ok tt σ' /\
       added σ' = added σ ++ [m] /\
       reported σ' = reported σ /\
       measurement m = "ereb_status" /\
       fields m !! "running" = Some (VInt 0) /\
       fields m !! "tasks_queue_length" = Some (VInt 0) /\
       fields m !! "next_run_in" = Some (VFloat 0%float) /\
       tags m !! "hostname" = Some (Host host)) /\
  (forall serverAddr u1 res1 err1 host,
     url_Parse env (serverAddr +:+ "/tasks") = inr u1 ->
     client_Do env (request (serverAddr +:+ "/tasks") u1) = inr res1 ->
     StatusCode res1 = 200 ->
     Decode_tasks env (Body res1) ErebTasks.zero = Invalid err1 ->
     url_Parse env serverAddr = inr host ->
     exists σ',
       Rev2.gatherTasks env serverAddr σ = Ok None σ' /\
       Rev2.goroutine (serverAddr, Rev2.gatherTasks env) σ = Ok tt σ' /\
       added σ' = added σ /\
       reported σ' = reported σ).
Proof.
  cbv zeta.
  apply (C6_decode_failure_swallowed Sample.garbled _
           (Decode_status Sample.garbled) "http://localhost:8888/status"
           (Some ErebStatus.zero) (Sample.start [])
           {| User := None; Host := "localhost:8888" |}
           {| StatusCode := 200; Body := "<html>" |} "invalid character");
    reflexivity.
Defined.

(** A cycle against a scheduler whose answers are no JSON: one status
    record of zero values, no task record, nothing reported. *)
Example Rev2_Gather_garbled :
  match Rev2.Gather_in_order Sample.garbled (Sample.start []) with
  | Ok r σ' =>
      r = None /\ reported σ' = [] /\
      map measurement (added σ') = ["ereb_status"] /\
      map (fun m => fields m !! "running") (added σ') = [Some (VInt 0)] /\
      map (fun m => fields m !! "tasks_queue_length") (added σ')
        = [Some (VInt 0)]
  | Panic _ _ => False
  end.
Proof. vm_compute. repeat split. Qed.

(** A body that is JSON of another shape is not such a body: the decoder
    stores the fields that fit, and the error it returns is dropped the
    same way. *)
Example Rev2_gatherStatus_wrong_shape :
  match Rev2.gatherStatus Worlds.wrong_shape "http://localhost:8888"
          (Sample.start []) with
  | Ok r σ' =>
      r = None /\ reported σ' = [] /\
      map (fun m => fields m !! "running") (added σ') = [Some (VInt 1)]
  | Panic _ _ => False
  end.
Proof. vm_compute. repeat split. Qed.

(* ===================================================================== *)
(** * Computations that do the same from every state *)
(* ===================================================================== *)

Section Scripted.

Lemma trace_apply_event (e : Event) (σ : State) :
  trace (apply_event e σ) = trace σ ++ [e].
Proof. destruct e; reflexivity. Qed.

Lemma replay_cons (e : Event) (es : list Event) (σ : State) :
  replay (e :: es) σ = replay es (apply_event e σ).
Proof. reflexivity. Qed.

Lemma replay_app (es1 es2 : list Event) (σ : State) :
  replay (es1 ++ es2) σ = replay es2 (replay es1 σ).
Proof. unfold replay. apply fold_left_app. Qed.

Lemma trace_replay (es : list Event) (σ : State) :
  trace (replay es σ) = trace σ ++ es.
Proof.
  revert σ. induction es as [|e es IH]; intros σ.
  - simpl. rewrite app_nil_r. reflexivity.
  - rewrite replay_cons, IH, trace_apply_event, <- app_assoc. reflexivity.
Qed.

Lemma adds_cons (e : Event) (es : list Event) :
  adds (e :: es) = adds [e] ++ adds es.
Proof. destruct e; reflexivity. Qed.

Lemma reports_cons (e : Event) (es : list Event) :
  reports (e :: es) = reports [e] ++ reports es.
Proof. destruct e; reflexivity. Qed.

Lemma sends_cons (e : Event) (es : list Event) :
  sends (e :: es) = sends [e] ++ sends es.
Proof. destruct e; reflexivity. Qed.

Lemma added_apply_event (e : Event) (σ : State) :
  added (apply_event e σ) = added σ ++ adds [e].
Proof. destruct e; simpl; rewrite ?app_nil_r; reflexivity. Qed.

Lemma reported_apply_event (e : Event) (σ : State) :
  reported (apply_event e σ) = reported σ ++ reports [e].
Proof. destruct e; simpl; rewrite ?app_nil_r; reflexivity. Qed.

Lemma wire_apply_event (e : Event) (σ : State) :
  wire (apply_event e σ) = wire σ ++ sends [e].
Proof. destruct e; simpl; rewrite ?app_nil_r; reflexivity. Qed.

(** What the effects leave in the accumulator and on the wire. *)
Lemma added_replay (es : list Event) (σ : State) :
  added (replay es σ) = added σ ++ adds es.
Proof.
  revert σ. induction es as [|e es IH]; intros σ.
  - simpl. rewrite app_nil_r. reflexivity.
  - rewrite replay_cons, IH, added_apply_event, (adds_cons e es), <- app_assoc.
    reflexivity.
Qed.

Lemma reported_replay (es : list Event) (σ : State) :
  reported (replay es σ) = reported σ ++ reports es.
Proof.
  revert σ. induction es as [|e es IH]; intros σ.
  - simpl. rewrite app_nil_r. reflexivity.
  - rewrite replay_cons, IH, reported_apply_event, (reports_cons e es), <- app_assoc.
    reflexivity.
Qed.

Lemma wire_replay (es : list Event) (σ : State) :
  wire (replay es σ) = wire σ ++ sends es.
Proof.
  revert σ. induction es as [|e es IH]; intros σ.
  - simpl. rewrite app_nil_r. reflexivity.
  - rewrite replay_cons, IH, wire_apply_event, (sends_cons e es), <- app_assoc.
    reflexivity.
Qed.

Lemma scripted_ret {X} (x : X) : scripted (ret x).
Proof. intros σ. simpl. auto. Qed.

Lemma scripted_panic {X} (msg : string) : scripted (@panic X msg).
Proof. intros σ. simpl. auto. Qed.

Lemma scripted_bind {X Y} (m : M X) (k : X -> M Y) :
  scripted m -> (forall x, scripted (k x)) -> scripted (bind m k).
Proof.
  intros Hm Hk σ. unfold bind. specialize (Hm σ).
  destruct (m σ) as [x σ1|msg σ1], (m blank) as [y δ1|msg' δ1];
    try contradiction.
  - destruct Hm as [-> Hσ1].
    pose proof (Hk y σ1) as H1. pose proof (Hk y δ1) as H2.
    destruct (k y blank) as [z δk|mk δk].
    + destruct (k y σ1) as [z1 σ2|m1 σ2]; [|contradiction].
      destruct (k y δ1) as [z2 δ2|m2 δ2]; [|contradiction].
      destruct H1 as [-> E1], H2 as [-> E2]. split; [reflexivity|].
      rewrite E1, E2, trace_replay, replay_app, <- Hσ1. reflexivity.
    + destruct (k y σ1) as [z1 σ2|m1 σ2]; [contradiction|].
      destruct (k y δ1) as [z2 δ2|m2 δ2]; [contradiction|].
      destruct H1 as [-> E1], H2 as [-> E2]. split; [reflexivity|].
      rewrite E1, E2, trace_replay, replay_app, <- Hσ1. reflexivity.
  - exact Hm.
Qed.

Lemma scripted_AddFields name fs ts t : scripted (AddFields name fs ts t).
Proof. intros σ. simpl. auto. Qed.

Lemma scripted_AddError e : scripted (AddError e).
Proof. intros σ. simpl. auto. Qed.

Lemma scripted_range {X} (xs : list X) (body : X -> M unit) :
  (forall x, scripted (body x)) -> scripted (range xs body).
Proof.
  intros Hb. induction xs as [|x xs IH]; simpl.
  - apply scripted_ret.
  - apply scripted_bind; [apply Hb | intros _; exact IH].
Qed.

Lemma scripted_init_client h t : scripted (init_client h t).
Proof. intros σ. simpl. auto. Qed.

Lemma scripted_Do env req : scripted (Do env req).
Proof. intros σ. simpl. auto. Qed.

Lemma scripted_getJson_with env h t {T} (Decode : string -> T -> Decoded T)
    requestUrl target :
  scripted (getJson_with env h t Decode requestUrl target).
Proof.
  unfold getJson_with.
  apply scripted_bind; [apply scripted_init_client|]. intros _.
  destruct (url_Parse env requestUrl) as [err|u]; [apply scripted_ret|].
  apply scripted_bind; [apply scripted_Do|]. intros [err|res]; [apply scripted_ret|].
  destruct (negb _); apply scripted_ret.
Qed.

(** A scripted computation, from any state: the effects of its run
    from the blank state, made on that state, and the same end. *)
Lemma scripted_final {X} (m : M X) (σ : State) :
  scripted m ->
  final (m σ) = replay (trace (final (m blank))) σ /\
  panicked (m σ) = panicked (m blank).
Proof.
  intros Hm. specialize (Hm σ).
  destruct (m σ) as [x σ'|msg σ'], (m blank) as [y δ|msg' δ];
    try contradiction; simpl.
  - destruct Hm as [_ ->]. split; reflexivity.
  - destruct Hm as [-> ->]. split; reflexivity.
Qed.

End Scripted.

(* ===================================================================== *)
(** * The extractors of the later copy *)
(* ===================================================================== *)

Section Rev2Extractors.
Context (env : Env).

Lemma Rev2_scripted_gatherStatus serverAddr :
  scripted (Rev2.gatherStatus env serverAddr).
Proof.
  unfold Rev2.gatherStatus, Rev2.getJson.
  apply scripted_bind; [apply scripted_getJson_with|]. intros [[e|] doc].
  - apply scripted_ret.
  - destruct (url_Parse env serverAddr); [apply scripted_panic|].
    destruct doc; [|apply scripted_panic].
    apply scripted_bind; [apply scripted_AddFields | intros; apply scripted_ret].
Qed.

Lemma Rev2_scripted_gatherTasks serverAddr :
  scripted (Rev2.gatherTasks env serverAddr).
Proof.
  unfold Rev2.gatherTasks, Rev2.getJson.
  apply scripted_bind; [apply scripted_getJson_with|]. intros [[e|] tasks].
  - apply scripted_ret.
  - apply scripted_bind; [|intros; apply scripted_ret].
    apply scripted_range. intros task. unfold Rev2.task_body.
    destruct (url_Parse env serverAddr); [apply scripted_panic|].
    apply scripted_AddFields.
Qed.

(** What a goroutine does is the same whatever the others have done. *)
Lemma Rev2_scripted_goroutine (u : string * Rev2.gatherFunc) :
  In (snd u) (Rev2.gatherFunctions env) -> scripted (Rev2.goroutine u).
Proof.
  destruct u as [serv gf]. simpl. unfold Rev2.goroutine.
  intros [<-|[<-|[]]].
  - apply scripted_bind; [apply Rev2_scripted_gatherStatus|].
    intros [e|]; [apply scripted_AddError | apply scripted_ret].
  - apply scripted_bind; [apply Rev2_scripted_gatherTasks|].
    intros [e|]; [apply scripted_AddError | apply scripted_ret].
Qed.

(** An extractor hands a failed fetch back as it is, and adds nothing. *)
Lemma Rev2_gatherStatus_fetch_error serverAddr σ e doc σ1 :
  Rev2.getJson env (Decode_status env) (serverAddr +:+ "/status")
    (Some ErebStatus.zero) σ = Ok (Some e, doc) σ1 ->
  Rev2.gatherStatus env serverAddr σ = Ok (Some e) σ1.
Proof. intros H. unfold Rev2.gatherStatus, bind. rewrite H. reflexivity. Qed.

Lemma Rev2_gatherTasks_fetch_error serverAddr σ e doc σ1 :
  Rev2.getJson env (Decode_tasks env) (serverAddr +:+ "/tasks")
    ErebTasks.zero σ = Ok (Some e, doc) σ1 ->
  Rev2.gatherTasks env serverAddr σ = Ok (Some e) σ1.
Proof. intros H. unfold Rev2.gatherTasks, bind. rewrite H. reflexivity. Qed.

(** The loop over the tasks adds one record per task, in order. *)
Lemma Rev2_range_task_body u now (tasks : ErebTasks.t) σ :
  range tasks (Rev2.task_body (inr u) now) σ =
    Ok tt {| g := g σ;
             added := added σ ++ map (Rev2.task_metric u now) tasks;
             reported := reported σ; wire := wire σ;
             trace := trace σ ++
                      map Added (map (Rev2.task_metric u now) tasks) |}.
Proof.
  revert σ. induction tasks as [|task tasks IH]; intros σ.
  - simpl. rewrite !app_nil_r. destruct σ; reflexivity.
  - simpl. unfold bind. simpl. rewrite IH. simpl.
    rewrite <- !app_assoc. reflexivity.
Qed.

Lemma Rev2_gatherTasks_ok serverAddr σ tasks σ1 u :
  Rev2.getJson env (Decode_tasks env) (serverAddr +:+ "/tasks")
    ErebTasks.zero σ = Ok (None, tasks) σ1 ->
  url_Parse env serverAddr = inr u ->
  Rev2.gatherTasks env serverAddr σ =
    Ok None {| g := g σ1;
               added := added σ1 ++ map (Rev2.task_metric u (time_Now env)) tasks;
               reported := reported σ1; wire := wire σ1;
               trace := trace σ1 ++
                        map Added
                          (map (Rev2.task_metric u (time_Now env)) tasks) |}.
Proof.
  intros H Hu. unfold Rev2.gatherTasks, bind. rewrite H, Hu.
  rewrite Rev2_range_task_body. reflexivity.
Qed.

End Rev2Extractors.

(** C8: from a status document that was fetched, [gatherStatus] adds
    exactly one [ereb_status] record: [running] is 1 exactly when the
    state is the text [running] and 0 for every other state,
    [tasks_queue_length] is the number of upcoming tasks, [next_run_in]
    is the next-run value as it came. *)
Theorem C8_status_record (env : Env) (serverAddr : string) (σ σ1 : State)
    (doc : ErebStatus.t) (u : URL) :
  Rev2.getJson env (Decode_status env) (serverAddr +:+ "/status")
    (Some ErebStatus.zero) σ = Ok (None, Some doc) σ1 ->
  url_Parse env serverAddr = inr u ->
  exists m,
    Rev2.gatherStatus env serverAddr σ = Ok None (with_metric m σ1) /\
    added (with_metric m σ1) = added σ ++ [m] /\
    measurement m = "ereb_status" /\
    fields m !! "running" =
      Some (VInt (if String.eqb (ErebStatus.State doc) "running" then 1 else 0)) /\
    (fields m !! "running" = Some (VInt 1) <-> ErebStatus.State doc = "running") /\
    (fields m !! "running" = Some (VInt 0) <-> ErebStatus.State doc <> "running") /\
    fields m !! "tasks_queue_length" =
      Some (VInt (Z.of_nat (length (ErebStatus.NextTasks doc)))) /\
    fields m !! "next_run_in" = Some (VFloat (ErebStatus.NextRun doc)) /\
    tags m !! "hostname" = Some (Host u).
Proof.
  intros Hget Hu.
  destruct (getJson_frame env 30 30 (Decode_status env)
              (serverAddr +:+ "/status") (Some ErebStatus.zero) σ)
    as (r & σ' & Hrun & Hadded & _).
  unfold Rev2.getJson in Hget. rewrite Hget in Hrun.
  inversion Hrun; subst r σ'. clear Hrun.
  eexists. split; [|split; [|split; [|split; [|split; [|split; [|split; [|split]]]]]]].
  - unfold Rev2.gatherStatus, Rev2.getJson, bind. rewrite Hget, Hu. reflexivity.
  - simpl. rewrite Hadded. reflexivity.
  - reflexivity.
  - simpl. apply lookup_insert_eq.
  - simpl. rewrite lookup_insert_eq.
    destruct (String.eqb_spec (ErebStatus.State doc) "running") as [Heq|Hne].
    + split; [intros _; exact Heq | reflexivity].
    + split; [intros H; discriminate | intros H; contradiction].
  - simpl. rewrite lookup_insert_eq.
    destruct (String.eqb_spec (ErebStatus.State doc) "running") as [Heq|Hne].
    + split; [intros H; discriminate | intros H; contradiction].
    + split; [intros _; exact Hne | reflexivity].
  - simpl. rewrite lookup_insert_ne by discriminate. apply lookup_insert_eq.
  - simpl. rewrite !lookup_insert_ne by discriminate. apply lookup_insert_eq.
  - simpl. apply lookup_singleton_eq.
Qed.

Lemma C8_status_record_witness :
  exists m,
    Rev2.gatherStatus (Sample.healthy ["0"]) "http://localhost:8888"
      (Sample.start []) =
      Ok None (with_metric m
                 (with_request
                    (request "http://localhost:8888/status"
                       {| User := None; Host := "localhost:8888" |})
                    (ready 30 30 (Sample.start [])))) /\
    added (with_metric m
             (with_request
                (request "http://localhost:8888/status"
                   {| User := None; Host := "localhost:8888" |})
                (ready 30 30 (Sample.start [])))) = added (Sample.start []) ++ [m] /\
    measurement m = "ereb_status" /\
    fields m !! "running" =
      Some (VInt (if String.eqb (ErebStatus.State Sample.status_running) "running"
                  then 1 else 0)) /\
    (fields m !! "running" = Some (VInt 1) <->
       ErebStatus.State Sample.status_running = "running") /\
    (fields m !! "running" = Some (VInt 0) <->
       ErebStatus.State Sample.status_running <> "running") /\
    fields m !! "tasks_queue_length" =
      Some (VInt (Z.of_nat (length (ErebStatus.NextTasks Sample.status_running)))) /\
    fields m !! "next_run_in" =
      Some (VFloat (ErebStatus.NextRun Sample.status_running)) /\
    tags m !! "hostname" = Some "localhost:8888".
Proof.
  apply (C8_status_record (Sample.healthy ["0"]) "http://localhost:8888"
           (Sample.start []) _ Sample.status_running
           {| User := None; Host := "localhost:8888" |});
    reflexivity.
Defined.

(** [last_exit_code] and [last_errors_count] in the later copy: the last
    entry of the history, or [-1] and 0 for a task without history. *)
Lemma Rev2_last_exit_code (task : ErebTasks.Task) :
  let exitCodes := ErebTasks.ExitCodes (ErebTasks.Stats task) in
  Rev2.task_fields task !! "last_exit_code" =
    Some (VString (default "-1" (last exitCodes))) /\
  Rev2.task_fields task !! "last_errors_count" =
    Some (VInt (ExitCodes.scan exitCodes)) /\
  (exitCodes = [] ->
     Rev2.task_fields task !! "last_exit_code" = Some (VString "-1") /\
     Rev2.task_fields task !! "last_errors_count" = Some (VInt 0)).
Proof.
  cbv zeta. unfold Rev2.task_fields, ExitCodes.analyse.
  assert (Hlast : forall (l : list string) d, l <> [] ->
                    List.last l d = default "-1" (last l)).
  { induction l as [|x [|y l] IH]; intros d Hne; [done|reflexivity|].
    change (List.last (x :: y :: l) d) with (List.last (y :: l) d).
    rewrite IH by done. reflexivity. }
  destruct (ErebTasks.ExitCodes (ErebTasks.Stats task)) as [|e l] eqn:Hcodes.
  - simpl. split; [|split; [|intros _; split]];
      rewrite !lookup_insert_ne by discriminate; apply lookup_insert_eq.
  - assert (Hlen : (GoInt.len (e :: l) =? 0) = false).
    { apply Z.eqb_neq. unfold GoInt.len. simpl length. lia. }
    rewrite Hlen. split; [|split; [|intros H; discriminate]].
    + rewrite !lookup_insert_ne by discriminate. rewrite lookup_insert_eq.
      rewrite (Hlast (e :: l) "") by done. reflexivity.
    + rewrite !lookup_insert_ne by discriminate. apply lookup_insert_eq.
Qed.

(* ===================================================================== *)
(** * The extractors of the earlier copy *)
(* ===================================================================== *)

Section Rev1Extractors.
Context (env : Env).

Lemma quiet_ret {X} (x : X) : quiet (ret x).
Proof. intros σ. reflexivity. Qed.

Lemma quiet_panic {X} (msg : string) : quiet (@panic X msg).
Proof. intros σ. reflexivity. Qed.

Lemma quiet_bind {X Y} (m : M X) (k : X -> M Y) :
  quiet m -> (forall x, quiet (k x)) -> quiet (bind m k).
Proof.
  intros Hm Hk σ. unfold bind. specialize (Hm σ).
  destruct (m σ) as [x σ'|msg σ']; [|exact Hm].
  specialize (Hk x σ'). destruct (k x σ'); congruence.
Qed.

Lemma quiet_AddFields name fs ts t : quiet (AddFields name fs ts t).
Proof. intros σ. reflexivity. Qed.

Lemma quiet_range {X} (xs : list X) (body : X -> M unit) :
  (forall x, quiet (body x)) -> quiet (range xs body).
Proof.
  intros Hb. induction xs as [|x xs IH]; simpl; [apply quiet_ret|].
  apply quiet_bind; [apply Hb | intros _; exact IH].
Qed.

Lemma quiet_getJson_with h t {T} (Decode : string -> T -> Decoded T)
    requestUrl target :
  quiet (getJson_with env h t Decode requestUrl target).
Proof.
  intros σ.
  destruct (getJson_frame env h t Decode requestUrl target σ)
    as (r & σ' & -> & _ & Hrep & _). exact Hrep.
Qed.

Lemma Rev1_quiet_gatherStatus serverAddr : quiet (Rev1.gatherStatus env serverAddr).
Proof.
  unfold Rev1.gatherStatus, Rev1.getJson.
  apply quiet_bind; [apply quiet_getJson_with|]. intros [[e|] doc].
  - apply quiet_ret.
  - destruct (url_Parse env serverAddr); [apply quiet_panic|].
    destruct doc; [|apply quiet_panic].
    apply quiet_bind; [apply quiet_AddFields | intros; apply quiet_ret].
Qed.

Lemma Rev1_quiet_gatherTasks serverAddr : quiet (Rev1.gatherTasks env serverAddr).
Proof.
  unfold Rev1.gatherTasks, Rev1.getJson.
  apply quiet_bind; [apply quiet_getJson_with|]. intros [[e|] tasks].
  - apply quiet_ret.
  - apply quiet_bind; [|intros; apply quiet_ret].
    apply quiet_range. intros task. unfold Rev1.task_body.
    destruct (url_Parse env serverAddr); [apply quiet_panic|].
    destruct (Rev1.task_fields task); [apply quiet_AddFields|apply quiet_panic].
Qed.

(** In the earlier copy no goroutine ever reports an error, and so no
    cycle does. *)
Lemma Rev1_quiet_goroutine (server : string) (u : string * Rev1.gatherFunc) :
  In (snd u) (Rev1.gatherFunctions env) -> quiet (Rev1.goroutine server u).
Proof.
  destruct u as [serv gf]. simpl. unfold Rev1.goroutine.
  intros [<-|[<-|[]]].
  - apply quiet_bind; [apply Rev1_quiet_gatherStatus | intros; apply quiet_ret].
  - apply quiet_bind; [apply Rev1_quiet_gatherTasks | intros; apply quiet_ret].
Qed.

Lemma Rev1_units_gatherFunctions (eps : list string) :
  Forall (fun u => In (snd u) (Rev1.gatherFunctions env)) (Rev1.units env eps).
Proof.
  unfold Rev1.units. induction eps as [|e eps IH]; simpl; [constructor|].
  constructor; [simpl; left; reflexivity|].
  constructor; [simpl; right; left; reflexivity|].
  exact IH.
Qed.

Lemma Rev1_Gather_reports_nothing (σ : State) :
  match Rev1.Gather_in_order env σ with
  | Ok r σ' => r = None /\ reported σ' = reported σ
  | Panic _ σ' => reported σ' = reported σ
  end.
Proof.
  unfold Rev1.Gather_in_order, Rev1.endpoints, bind, Rev1.default_servers.
  assert (Hrange : forall us, Forall (fun u => In (snd u) (Rev1.gatherFunctions env)) us ->
                     quiet (range us (fun u => Rev1.goroutine (fst u) u))).
  { intros us Hus. induction Hus as [|u us Hu _ IH]; simpl; [apply quiet_ret|].
    apply quiet_bind; [apply Rev1_quiet_goroutine; exact Hu | intros _; exact IH]. }
  destruct (GoInt.len (Servers (g σ)) =? 0).
  - match goal with |- context [range ?us ?f ?s] =>
      pose proof (Hrange us (Rev1_units_gatherFunctions _) s) as H;
      destruct (range us f s) end; [|exact H].
    simpl. split; [reflexivity|exact H].
  - match goal with |- context [range ?us ?f ?s] =>
      pose proof (Hrange us (Rev1_units_gatherFunctions _) s) as H;
      destruct (range us f s) end; [|exact H].
    simpl. split; [reflexivity|exact H].
Qed.

(** Every request of the earlier [gatherTasks] goes to [/status]. *)
Lemma Rev1_gatherTasks_wire serverAddr σ :
  match Rev1.gatherTasks env serverAddr σ with
  | Ok _ σ' | Panic _ σ' =>
      wire σ' = wire σ \/
      exists req, wire σ' = wire σ ++ [req] /\
                  RequestURL req = serverAddr +:+ "/status"
  end.
Proof.
  unfold Rev1.gatherTasks, Rev1.getJson, bind.
  destruct (getJson_frame env 3 4 (Decode_tasks env) (serverAddr +:+ "/status")
              ErebTasks.zero σ) as (r & σ1 & -> & _ & _ & _ & Hw).
  assert (Hw' : wire σ1 = wire σ \/
                exists req, wire σ1 = wire σ ++ [req] /\
                            RequestURL req = serverAddr +:+ "/status").
  { destruct Hw as [Hw|(req & Hw & Hurl & _)]; [left; exact Hw|right; eauto]. }
  destruct r as [[e|] tasks]; [exact Hw'|].
  assert (Hloop : forall ts s, match range ts (Rev1.task_body (url_Parse env serverAddr)
                                                 (time_Now env)) s with
                               | Ok _ s' | Panic _ s' => wire s' = wire s
                               end).
  { induction ts as [|t ts IH]; intros s; simpl; [reflexivity|].
    unfold bind, Rev1.task_body.
    destruct (url_Parse env serverAddr); [reflexivity|].
    destruct (Rev1.task_fields t) as [fs|]; [|reflexivity].
    simpl. specialize (IH (with_metric
      {| measurement := "ereb_tasks"; fields := fs;
         tags := <["host":=Host u]> {["task_name" := ErebTasks.Name t]};
         timestamp := time_Now env |} s)).
    destruct (range ts _ _); exact IH. }
  specialize (Hloop tasks σ1).
  destruct (range tasks _ σ1) as [[] σ2|msg σ2];
    simpl; rewrite Hloop; exact Hw'.
Qed.

End Rev1Extractors.

(** Every request of the later [gatherTasks] goes to [/tasks], and the
    records it adds are those of the tasks in the answer, one each. *)
Lemma Rev2_gatherTasks_from_tasks (env : Env) (serverAddr : string) (σ : State)
    (u' u : URL) (res : Response) :
  url_Parse env (serverAddr +:+ "/tasks") = inr u' ->
  client_Do env (request (serverAddr +:+ "/tasks") u') = inr res ->
  StatusCode res = 200 ->
  url_Parse env serverAddr = inr u ->
  exists σ',
    Rev2.gatherTasks env serverAddr σ = Ok None σ' /\
    wire σ' = wire σ ++ [request (serverAddr +:+ "/tasks") u'] /\
    RequestURL (request (serverAddr +:+ "/tasks") u') = serverAddr +:+ "/tasks" /\
    added σ' = added σ ++
      map (Rev2.task_metric u (time_Now env))
          (after_Decode (Decode_tasks env (Body res) ErebTasks.zero) ErebTasks.zero).
Proof.
  intros Hu' Hdo H200 Hu. eexists. split; [|split; [|split]].
  - eapply Rev2_gatherTasks_ok; [|exact Hu].
    unfold Rev2.getJson. eapply getJson_200; eassumption.
  - reflexivity.
  - unfold request. destruct (User u') as [[? ?]|]; reflexivity.
  - reflexivity.
Qed.

(** C2: the later copy reports the last entry of the history, and the
    sentinel [-1] with 0 errors for a task without history.  The earlier
    copy (line 167) indexes the history at [len - 1] with no guard: on
    the same task it panics and no record is emitted. *)
Theorem C2_empty_history_panics_in_earlier_copy :
  let task := Sample.task "backup" [] in
  ErebTasks.ExitCodes (ErebTasks.Stats task) = [] /\
  Rev1.task_fields task = None /\
  Rev1.gatherTasks (Sample.tasks_at_status []) "http://localhost:8888"
    (Sample.start [])
    = Panic "index out of range [-1]"
        (with_request (NewRequest "GET" "http://localhost:8888/status")
           (ready 3 4 (Sample.start []))) /\
  Rev2.task_fields task !! "last_exit_code" = Some (VString "-1") /\
  Rev2.task_fields task !! "last_errors_count" = Some (VInt 0).
Proof.
  cbv zeta. split; [reflexivity|]. split; [reflexivity|].
  split; [vm_compute; reflexivity|].
  split; vm_compute; reflexivity.
Qed.

(** C7: the later [gatherTasks] asks for [/tasks] and derives one record
    per task of the answer.  The earlier [gatherTasks] (line 144) asks
    for [/status]: against a healthy scheduler its only request goes to
    [/status], the status document is no list of tasks, and no task
    record is emitted. *)
Theorem C7_earlier_copy_requests_status :
  match Rev1.gatherTasks (Sample.healthy ["0"]) "http://localhost:8888"
          (Sample.start []) with
  | Ok r σ' =>
      r = None /\
      map RequestURL (wire σ') = ["http://localhost:8888/status"] /\
      added σ' = []
  | Panic _ _ => False
  end /\
  match Rev2.gatherTasks (Sample.healthy ["0"]) "http://localhost:8888"
          (Sample.start []) with
  | Ok r σ' =>
      r = None /\
      map RequestURL (wire σ') = ["http://localhost:8888/tasks"] /\
      map measurement (added σ') = ["ereb_tasks"]
  | Panic _ _ => False
  end.
Proof. vm_compute. repeat split. Qed.

(** C3: against a scheduler that answers 500 to both requests, the cycle
    of the later copy returns nil and reports both failures; the cycle of
    the earlier copy (lines 97-107) drops what the extractors return and
    reports nothing. *)
Theorem C3_earlier_copy_reports_no_failure :
  match Rev1.Gather_in_order Sample.broken (Sample.start []) with
  | Ok r σ' =>
      r = None /\ added σ' = [] /\ reported σ' = [] /\
      map RequestURL (wire σ') =
        ["http://localhost:8888/status"; "http://localhost:8888/status"]
  | Panic _ _ => False
  end /\
  match Rev2.Gather_in_order Sample.broken (Sample.start []) with
  | Ok r σ' =>
      r = None /\ added σ' = [] /\
      reported σ' =
        [StatusError "http://localhost:8888/status" 500;
         StatusError "http://localhost:8888/tasks" 500]
  | Panic _ _ => False
  end.
Proof. vm_compute. repeat split. Qed.

(* ===================================================================== *)
(** * The cycle of the later copy: fan-out, barrier, isolation *)
(* ===================================================================== *)

Section Rev2Gather.
Context (env : Env).
Import GoInt.

Lemma Rev2_units_length (eps : list string) :
  length (Rev2.units env eps) = (2 * length eps)%nat.
Proof.
  unfold Rev2.units. induction eps as [|e eps IH]; [reflexivity|].
  cbn [flat_map]. rewrite length_app, IH. simpl. lia.
Qed.

Lemma Rev2_units_gatherFunctions (eps : list string) :
  Forall (fun u => In (snd u) (Rev2.gatherFunctions env)) (Rev2.units env eps).
Proof.
  unfold Rev2.units. induction eps as [|e eps IH]; simpl; [constructor|].
  constructor; [simpl; left; reflexivity|].
  constructor; [simpl; right; left; reflexivity|].
  exact IH.
Qed.



Lemma Rev2_launch_pool eps σ :
  map Rev2.unit_of (Rev2.pool (Rev2.launch env eps σ)) = Rev2.units env eps.
Proof.
  simpl. rewrite map_map. simpl. apply map_id.
Qed.

Lemma Rev2_launch_counted eps σ : Rev2.counted (Rev2.launch env eps σ).
Proof.
  unfold Rev2.counted, Rev2.launch, len. simpl.
  rewrite length_map, Rev2_units_length. lia.
Qed.


(** The script of a goroutine is the run of its code: from any state,
    the goroutine leaves what its effects make of that state, and ends
    as the script says. *)
Lemma Rev2_script_runs (u : string * Rev2.gatherFunc) (σ : State) :
  In (snd u) (Rev2.gatherFunctions env) ->
  final (Rev2.goroutine u σ) = replay (Rev2.script (Rev2.fly u)) σ /\
  panicked (Rev2.goroutine u σ) = Rev2.ending (Rev2.fly u).
Proof.
  intros Hu. apply scripted_final. apply (Rev2_scripted_goroutine env u Hu).
Qed.

Lemma Rev2_step_inv r o p :
  Rev2.step r o p ->
  (exists l1 f e es l2,
     Rev2.pool r = l1 ++ f :: l2 /\ Rev2.script f = e :: es /\ o = None /\
     p = Rev2.Live
           {| Rev2.pool := l1 ++ Rev2.with_script es f :: l2;
              Rev2.wg := Rev2.wg r;
              Rev2.st := apply_event e (Rev2.st r);
              Rev2.dying := Rev2.dying r |}) \/
  (exists l1 f l2,
     Rev2.pool r = l1 ++ f :: l2 /\ Rev2.script f = [] /\
     o = Some (Rev2.unit_of f) /\
     p = Rev2.Done
           {| Rev2.pool := l1 ++ l2; Rev2.wg := Rev2.wg r;
              Rev2.st := Rev2.st r;
              Rev2.dying := Rev2.dying r ++ Rev2.ending f |}).
Proof.
  intros Hstep.
  inversion Hstep as [l1 f e es l2 n σ d Hs|l1 f l2 n σ d Hs]; subst; simpl.
  - left. exists l1, f, e, es, l2. auto.
  - right. exists l1, f, l2. auto.
Qed.

(** With the counter right, [wg.Done] never finds it at zero. *)
Lemma Rev2_step_live r o p :
  Rev2.counted r -> Rev2.step r o p ->
  (exists l1 f e es l2,
     Rev2.pool r = l1 ++ f :: l2 /\ Rev2.script f = e :: es /\ o = None /\
     p = Rev2.Live
           {| Rev2.pool := l1 ++ Rev2.with_script es f :: l2;
              Rev2.wg := Rev2.wg r;
              Rev2.st := apply_event e (Rev2.st r);
              Rev2.dying := Rev2.dying r |}) \/
  (exists l1 f l2,
     Rev2.pool r = l1 ++ f :: l2 /\ Rev2.script f = [] /\
     o = Some (Rev2.unit_of f) /\
     p = Rev2.Live
           {| Rev2.pool := l1 ++ l2; Rev2.wg := Rev2.wg r - 1;
              Rev2.st := Rev2.st r;
              Rev2.dying := Rev2.dying r ++ Rev2.ending f |}).
Proof.
  intros Hc Hstep.
  destruct (Rev2_step_inv r o p Hstep)
    as [H|(l1 & f & l2 & Hpool & Hs & Ho & ->)]; [left; exact H|].
  right. exists l1, f, l2. split; [exact Hpool|]. split; [exact Hs|].
  split; [exact Ho|].
  unfold Rev2.counted, len in Hc. rewrite Hpool, length_app in Hc.
  simpl in Hc. unfold Rev2.Done. simpl.
  destruct (Z.ltb_spec (Rev2.wg r - 1) 0) as [Hneg|_]; [lia|reflexivity].
Qed.

Lemma Rev2_step_counted r o r' :
  Rev2.step r o (Rev2.Live r') -> Rev2.counted r ->
  Rev2.counted r' /\
  option_list o ++ map Rev2.unit_of (Rev2.pool r')
    ≡ₚ map Rev2.unit_of (Rev2.pool r).
Proof.
  intros Hstep Hc.
  destruct (Rev2_step_live r o _ Hc Hstep)
    as [(l1 & f & e & es & l2 & Hpool & Hs & -> & Hr')
       |(l1 & f & l2 & Hpool & Hs & -> & Hr')];
    inversion Hr'; subst r'; clear Hr';
    unfold Rev2.counted, len in *; rewrite Hpool in Hc |- *;
    cbn [Rev2.pool Rev2.wg option_list app];
    rewrite !length_app in *; rewrite !map_app; simpl in *.
  - split; [lia|reflexivity].
  - split; [lia|]. apply Permutation_middle.
Qed.

Lemma Rev2_steps_counted r finished r' :
  Rev2.steps r finished (Rev2.Live r') -> Rev2.counted r ->
  Rev2.counted r' /\
  finished ++ map Rev2.unit_of (Rev2.pool r')
    ≡ₚ map Rev2.unit_of (Rev2.pool r).
Proof.
  intros Hsteps. remember (Rev2.Live r') as p eqn:Hp.
  induction Hsteps
    as [r|r r1 finished p Hstep Hrest IH|r u r1 finished p Hstep Hrest IH
       |r o msg Hcrash|r msg Hexit];
    intros Hc.
  - inversion Hp; subst. split; [exact Hc|reflexivity].
  - destruct (Rev2_step_counted r None r1 Hstep Hc) as (Hc1 & Hperm).
    destruct (IH Hp Hc1) as [Hc' Hperm'].
    split; [exact Hc'|]. rewrite Hperm'. exact Hperm.
  - destruct (Rev2_step_counted r (Some u) r1 Hstep Hc) as (Hc1 & Hperm).
    destruct (IH Hp Hc1) as [Hc' Hperm'].
    split; [exact Hc'|]. simpl. rewrite Hperm'. exact Hperm.
  - discriminate.
  - discriminate.
Qed.

(** When the counter is zero every goroutine has ended. *)
Lemma Rev2_barrier eps σ finished r :
  Rev2.steps (Rev2.launch env eps σ) finished (Rev2.Live r) ->
  Rev2.wg r = 0 ->
  Rev2.pool r = [] /\ finished ≡ₚ Rev2.units env eps.
Proof.
  intros Hsteps Hwg.
  destruct (Rev2_steps_counted _ _ _ Hsteps (Rev2_launch_counted eps σ))
    as [Hc Hperm].
  unfold Rev2.counted in Hc. rewrite Hwg in Hc.
  assert (Hnil : Rev2.pool r = []) by (apply len_zero; lia).
  split; [exact Hnil|].
  rewrite Hnil, Rev2_launch_pool in Hperm. simpl in Hperm.
  rewrite app_nil_r in Hperm. exact Hperm.
Qed.


Lemma Rev2_steps_app r f1 r' f2 p :
  Rev2.steps r f1 (Rev2.Live r') -> Rev2.steps r' f2 p ->
  Rev2.steps r (f1 ++ f2) p.
Proof.
  intros H. remember (Rev2.Live r') as q eqn:Hq.
  induction H
    as [r|r r1 finished q Hstep Hrest IH|r u r1 finished q Hstep Hrest IH
       |r o msg Hcrash|r msg Hexit];
    intros Hp.
  - inversion Hq; subst. exact Hp.
  - eapply Rev2.steps_effect; [exact Hstep|]. apply (IH Hq Hp).
  - simpl. eapply Rev2.steps_end; [exact Hstep|]. apply (IH Hq Hp).
  - discriminate.
  - discriminate.
Qed.

(** One goroutine makes some of its effects, with no other in
    between. *)
Lemma Rev2_run_effects (es : list Event) :
  forall l1 f l2 n σ d rest,
    Rev2.script f = es ++ rest ->
    Rev2.steps {| Rev2.pool := l1 ++ f :: l2; Rev2.wg := n; Rev2.st := σ;
                  Rev2.dying := d |}
      []
      (Rev2.Live {| Rev2.pool := l1 ++ Rev2.with_script rest f :: l2;
                    Rev2.wg := n; Rev2.st := replay es σ;
                    Rev2.dying := d |}).
Proof.
  induction es as [|e es IH]; intros l1 f l2 n σ d rest Hs.
  - simpl in Hs. rewrite <- Hs. destruct f. apply Rev2.steps_refl.
  - eapply Rev2.steps_effect;
      [apply (Rev2.step_effect l1 f e (es ++ rest) l2 n σ d Hs)|].
    rewrite replay_cons.
    apply (IH l1 (Rev2.with_script (es ++ rest) f) l2 n (apply_event e σ) d
              rest eq_refl).
Qed.

(** A goroutine with no effect left ends. *)
Lemma Rev2_run_end l1 f l2 n σ d :
  Rev2.script f = [] -> 0 <= n - 1 ->
  Rev2.steps {| Rev2.pool := l1 ++ f :: l2; Rev2.wg := n; Rev2.st := σ;
                Rev2.dying := d |}
    [Rev2.unit_of f]
    (Rev2.Live {| Rev2.pool := l1 ++ l2; Rev2.wg := n - 1; Rev2.st := σ;
                  Rev2.dying := d ++ Rev2.ending f |}).
Proof.
  intros Hs Hn. eapply Rev2.steps_end; [|apply Rev2.steps_refl].
  pose proof (Rev2.step_end l1 f l2 n σ d Hs) as Hstep.
  unfold Rev2.Done in Hstep. simpl in Hstep.
  destruct (Z.ltb_spec (n - 1) 0) as [Hneg|_]; [lia|]. exact Hstep.
Qed.

(** One goroutine goes from where it is to its end, with no other in
    between. *)
Lemma Rev2_run_to_end (es : list Event) :
  forall f rest n σ d,
    Rev2.script f = es -> 0 <= n - 1 ->
    Rev2.steps {| Rev2.pool := f :: rest; Rev2.wg := n; Rev2.st := σ;
                  Rev2.dying := d |}
      [Rev2.unit_of f]
      (Rev2.Live {| Rev2.pool := rest; Rev2.wg := n - 1;
                    Rev2.st := replay es σ;
                    Rev2.dying := d ++ Rev2.ending f |}).
Proof.
  intros f rest n σ d Hs Hn.
  pose proof (Rev2_run_effects es [] f rest n σ d []) as H1.
  rewrite app_nil_r in H1. specialize (H1 Hs).
  pose proof (Rev2_run_end [] (Rev2.with_script [] f) rest n (replay es σ) d
                eq_refl Hn) as H2.
  apply (Rev2_steps_app _ [] _ _ _ H1 H2).
Qed.

(** Running the goroutines one after the other in the order of their
    launch is one of the schedules, and it ends with the counter at
    zero, whether the goroutines return or panic. *)
Lemma Rev2_in_order_steps (us : list (string * Rev2.gatherFunc)) :
  Forall (fun u => In (snd u) (Rev2.gatherFunctions env)) us ->
  forall σ d,
    Rev2.steps {| Rev2.pool := map Rev2.fly us; Rev2.wg := len us;
                  Rev2.st := σ; Rev2.dying := d |} us
      (Rev2.Live {| Rev2.pool := []; Rev2.wg := 0;
                    Rev2.st := Rev2.in_order us σ;
                    Rev2.dying := d ++ Rev2.in_order_panics us σ |}).
Proof.
  induction 1 as [|u us Hu _ IH]; intros σ d.
  - simpl. rewrite app_nil_r. apply Rev2.steps_refl.
  - destruct (Rev2_script_runs u σ Hu) as [Hfinal Hend].
    assert (Hlen : len (u :: us) - 1 = len us).
    { unfold len. simpl length. lia. }
    pose proof (Rev2_run_to_end (Rev2.script (Rev2.fly u)) (Rev2.fly u)
                  (map Rev2.fly us) (len (u :: us)) σ d eq_refl) as Hone.
    rewrite Hlen in Hone. specialize (Hone (len_nonneg us)).
    simpl. rewrite app_assoc, Hfinal, Hend.
    apply (Rev2_steps_app _ [u] _ us _ Hone). apply IH.
Qed.

Lemma Rev2_in_order_launch (eps : list string) (σ : State) :
  Rev2.steps (Rev2.launch env eps σ) (Rev2.units env eps)
    (Rev2.Live {| Rev2.pool := []; Rev2.wg := 0;
                  Rev2.st := Rev2.in_order (Rev2.units env eps) σ;
                  Rev2.dying :=
                    Rev2.in_order_panics (Rev2.units env eps) σ |}).
Proof.
  pose proof (Rev2_in_order_steps (Rev2.units env eps)
                (Rev2_units_gatherFunctions eps) σ []) as Hsteps.
  unfold Rev2.launch.
  replace (len eps * len (Rev2.gatherFunctions env))
    with (len (Rev2.units env eps)); [exact Hsteps|].
  unfold len. rewrite Rev2_units_length. simpl. lia.
Qed.


(** A run of the goroutines in which none panics. *)
Lemma Rev2_range_in_order (us : list (string * Rev2.gatherFunc)) :
  forall σ σ',
    range us Rev2.goroutine σ = Ok tt σ' ->
    Rev2.in_order us σ = σ' /\ Rev2.in_order_panics us σ = [].
Proof.
  induction us as [|u us IH]; intros σ σ' Hrun.
  - simpl in Hrun. inversion Hrun; subst. split; reflexivity.
  - simpl in Hrun. unfold bind in Hrun. simpl.
    destruct (Rev2.goroutine u σ) as [[] σ1|msg σ1] eqn:Hu; [|discriminate].
    simpl. apply IH. exact Hrun.
Qed.

Lemma Rev2_in_order_Gather σ r σ' :
  Rev2.Gather_in_order env σ = Ok r σ' ->
  exists eps σ1, Rev2.endpoints σ = Ok eps σ1 /\
                 Rev2.Gather env σ (Rev2.units env eps) r σ'.
Proof.
  unfold Rev2.Gather_in_order, bind. intros H.
  destruct (Rev2.endpoints σ) as [eps σ1|] eqn:Heps; [|discriminate].
  destruct (range (Rev2.units env eps) Rev2.goroutine σ1) as [[] σ2|] eqn:Hrun;
    [|discriminate].
  inversion H; subst r σ'. exists eps, σ1. split; [reflexivity|].
  destruct (Rev2_range_in_order _ _ _ Hrun) as [Hst _].
  pose proof (Rev2.Gather_returns env σ σ1 eps (Rev2.units env eps) _
                Heps (Rev2_in_order_launch eps σ1) eq_refl) as HG.
  simpl in HG. rewrite Hst in HG. exact HG.
Qed.

End Rev2Gather.

Section Rev2Isolation.
Context (env : Env).

(** What the script of a goroutine holds is what the goroutine adds,
    reports and sends when it runs on its own. *)
Lemma Rev2_script_effects (u : string * Rev2.gatherFunc) :
  In (snd u) (Rev2.gatherFunctions env) ->
  adds (Rev2.script (Rev2.fly u)) = Rev2.unit_added u /\
  reports (Rev2.script (Rev2.fly u)) = Rev2.unit_reported u /\
  sends (Rev2.script (Rev2.fly u)) = unit_wire u.
Proof.
  intros Hu. destruct (Rev2_script_runs env u blank Hu) as [Hfinal _].
  unfold Rev2.unit_added, Rev2.unit_reported, unit_wire.
  rewrite Hfinal, added_replay, reported_replay, wire_replay.
  repeat split.
Qed.

(** What a goroutine adds, reports and sends, and whether it panics,
    does not depend on what the accumulator and the wire held when it
    ran. *)
Lemma Rev2_goroutine_effect (u : string * Rev2.gatherFunc) (σ : State) :
  In (snd u) (Rev2.gatherFunctions env) ->
  added (final (Rev2.goroutine u σ)) = added σ ++ Rev2.unit_added u /\
  reported (final (Rev2.goroutine u σ)) = reported σ ++ Rev2.unit_reported u /\
  wire (final (Rev2.goroutine u σ)) = wire σ ++ unit_wire u /\
  panicked (Rev2.goroutine u σ) = panicked (Rev2.goroutine u blank).
Proof.
  intros Hu. destruct (Rev2_script_runs env u σ Hu) as [Hfinal Hend].
  destruct (Rev2_script_effects u Hu) as (Ha & He & Hw).
  rewrite Hfinal, added_replay, reported_replay, wire_replay, Ha, He, Hw.
  repeat split. exact Hend.
Qed.

(** A goroutine of the pool is a goroutine of the cycle at some point
    of its script. *)
Lemma Rev2_step_pool r o r' :
  Rev2.step r o (Rev2.Live r') ->
  Forall (fun f => Rev2.ending f = Rev2.ending (Rev2.fly (Rev2.unit_of f)))
         (Rev2.pool r) ->
  Forall (fun f => Rev2.ending f = Rev2.ending (Rev2.fly (Rev2.unit_of f)))
         (Rev2.pool r') /\
  Rev2.dying r' =
    Rev2.dying r ++
    concat (map (fun u => Rev2.ending (Rev2.fly u)) (option_list o)).
Proof.
  intros Hstep Hall.
  destruct (Rev2_step_inv r o _ Hstep)
    as [(l1 & f & e & es & l2 & Hpool & Hs & -> & Hr')
       |(l1 & f & l2 & Hpool & Hs & -> & Hr')].
  - inversion Hr'; subst r'. simpl. rewrite app_nil_r. split; [|reflexivity].
    rewrite Hpool, Forall_app in Hall. destruct Hall as [H1 H2].
    inversion H2 as [|? ? Hf Hl2]; subst.
    apply Forall_app. split; [exact H1|]. constructor; [exact Hf|exact Hl2].
  - unfold Rev2.Done in Hr'. simpl in Hr'.
    destruct (Rev2.wg r - 1 <? 0); [discriminate|].
    inversion Hr'; subst r'. simpl.
    rewrite Hpool, Forall_app in Hall. destruct Hall as [H1 H2].
    inversion H2 as [|? ? Hf Hl2]; subst.
    split; [apply Forall_app; split; assumption|].
    rewrite app_nil_r, Hf. reflexivity.
Qed.

Lemma Rev2_steps_dying r finished r' :
  Rev2.steps r finished (Rev2.Live r') ->
  Forall (fun f => Rev2.ending f = Rev2.ending (Rev2.fly (Rev2.unit_of f)))
         (Rev2.pool r) ->
  Rev2.dying r' =
    Rev2.dying r ++
    concat (map (fun u => panicked (Rev2.goroutine u blank)) finished).
Proof.
  intros Hsteps. remember (Rev2.Live r') as p eqn:Hp.
  induction Hsteps
    as [r|r r1 finished p Hstep Hrest IH|r u r1 finished p Hstep Hrest IH
       |r o msg Hcrash|r msg Hexit];
    intros Hall.
  - inversion Hp; subst. simpl. rewrite app_nil_r. reflexivity.
  - destruct (Rev2_step_pool r None r1 Hstep Hall) as [Hall' Hd].
    rewrite (IH Hp Hall'), Hd. simpl. rewrite app_nil_r. reflexivity.
  - destruct (Rev2_step_pool r (Some u) r1 Hstep Hall) as [Hall' Hd].
    rewrite (IH Hp Hall'), Hd. simpl. rewrite app_nil_r, <- app_assoc.
    reflexivity.
  - discriminate.
  - discriminate.
Qed.

Lemma Rev2_launch_endings eps σ :
  Forall (fun f => Rev2.ending f = Rev2.ending (Rev2.fly (Rev2.unit_of f)))
         (Rev2.pool (Rev2.launch env eps σ)).
Proof.
  simpl. apply Forall_map. apply List.Forall_forall. intros u _. reflexivity.
Qed.

End Rev2Isolation.

(** The effects of one kind ([c] of the state, [h] of a script) that
    were made and those that are still to come are, taken together, the
    same before and after every step. *)
Section Rev2Effects.
Context {B : Type} (c : State -> list B) (h : list Event -> list B).
Hypothesis h_cons : forall e es, h (e :: es) = h [e] ++ h es.
Hypothesis c_apply : forall e σ, c (apply_event e σ) = c σ ++ h [e].
Hypothesis h_nil : h [] = [].

Lemma Rev2_step_pending r o r' :
  Rev2.step r o (Rev2.Live r') ->
  c (Rev2.st r') ++ concat (map (fun f => h (Rev2.script f)) (Rev2.pool r'))
  ≡ₚ c (Rev2.st r) ++ concat (map (fun f => h (Rev2.script f)) (Rev2.pool r)).
Proof.
  intros Hstep.
  destruct (Rev2_step_inv r o _ Hstep)
    as [(l1 & f & e & es & l2 & Hpool & Hs & -> & Hr')
       |(l1 & f & l2 & Hpool & Hs & -> & Hr')].
  - inversion Hr'; subst r'. simpl. rewrite Hpool, c_apply.
    rewrite !map_app, !concat_app. simpl. rewrite Hs, (h_cons e es).
    rewrite <- !app_assoc. apply Permutation_app_head.
    rewrite !app_assoc. do 2 apply Permutation_app_tail.
    apply Permutation_app_comm.
  - unfold Rev2.Done in Hr'. simpl in Hr'.
    destruct (Rev2.wg r - 1 <? 0); [discriminate|].
    inversion Hr'; subst r'. simpl. rewrite Hpool.
    rewrite !map_app, !concat_app. simpl. rewrite Hs, h_nil. reflexivity.
Qed.

Lemma Rev2_steps_pending r finished r' :
  Rev2.steps r finished (Rev2.Live r') ->
  c (Rev2.st r') ++ concat (map (fun f => h (Rev2.script f)) (Rev2.pool r'))
  ≡ₚ c (Rev2.st r) ++ concat (map (fun f => h (Rev2.script f)) (Rev2.pool r)).
Proof.
  intros Hsteps. remember (Rev2.Live r') as p eqn:Hp.
  induction Hsteps
    as [r|r r1 finished p Hstep Hrest IH|r u r1 finished p Hstep Hrest IH
       |r o msg Hcrash|r msg Hexit].
  - inversion Hp; subst. reflexivity.
  - rewrite (IH Hp). apply (Rev2_step_pending _ _ _ Hstep).
  - rewrite (IH Hp). apply (Rev2_step_pending _ _ _ Hstep).
  - discriminate.
  - discriminate.
Qed.

End Rev2Effects.

Section Rev2Cycle.
Context (env : Env).

Lemma Rev2_endpoints_frame σ eps σ1 :
  Rev2.endpoints σ = Ok eps σ1 ->
  added σ1 = added σ /\ reported σ1 = reported σ /\ wire σ1 = wire σ.
Proof.
  unfold Rev2.endpoints, bind, Rev2.default_servers.
  destruct (GoInt.len (Servers (g σ)) =? 0); intros H; inversion H; subst;
    repeat split; reflexivity.
Qed.

Lemma concat_map_Permutation {A B} (f : A -> list B) (l l' : list A) :
  l ≡ₚ l' -> concat (map f l) ≡ₚ concat (map f l').
Proof.
  induction 1 as [|x l l' _ IH|x y l|l l' l'' _ IH1 _ IH2]; simpl.
  - reflexivity.
  - rewrite IH. reflexivity.
  - rewrite !app_assoc. apply Permutation_app_tail, Permutation_app_comm.
  - rewrite IH1. exact IH2.
Qed.

Lemma Rev2_launch_pending {B} (h : list Event -> list B)
    (k : string * Rev2.gatherFunc -> list B) eps σ :
  (forall u, In (snd u) (Rev2.gatherFunctions env) ->
             h (Rev2.script (Rev2.fly u)) = k u) ->
  concat (map (fun f => h (Rev2.script f)) (Rev2.pool (Rev2.launch env eps σ)))
  = concat (map k (Rev2.units env eps)).
Proof.
  intros Hk. simpl. rewrite map_map. f_equal.
  apply map_ext_in. intros u Hin. apply Hk.
  pose proof (Rev2_units_gatherFunctions env eps) as Hall.
  rewrite List.Forall_forall in Hall. apply Hall, Hin.
Qed.

(** However the effects of the goroutines come one among the others, a
    cycle that returns returns nil, every goroutine has ended once, by
    returning or by panicking, and the accumulator and the wire hold, in
    some order, what each goroutine adds, reports and sends on its
    own. *)
Lemma Rev2_Gather_effect σ finished ret σ' :
  Rev2.Gather env σ finished ret σ' ->
  ret = None /\
  (exists eps σ1, Rev2.endpoints σ = Ok eps σ1 /\
                  finished ≡ₚ Rev2.units env eps) /\
  added σ' ≡ₚ added σ ++ concat (map Rev2.unit_added finished) /\
  reported σ' ≡ₚ reported σ ++ concat (map Rev2.unit_reported finished) /\
  wire σ' ≡ₚ wire σ ++ concat (map unit_wire finished).
Proof.
  intros HG. inversion HG as [σ0 σ1 eps fin r Heps Hsteps Hwg]; subst.
  destruct (Rev2_barrier env eps σ1 finished r Hsteps Hwg) as [Hnil Hperm].
  destruct (Rev2_endpoints_frame σ eps σ1 Heps) as (Ha & He & Hw).
  pose proof (Rev2_steps_pending added adds adds_cons added_apply_event
                eq_refl _ _ _ Hsteps) as Ha'.
  pose proof (Rev2_steps_pending reported reports reports_cons
                reported_apply_event eq_refl _ _ _ Hsteps) as He'.
  pose proof (Rev2_steps_pending wire sends sends_cons wire_apply_event
                eq_refl _ _ _ Hsteps) as Hw'.
  rewrite (Rev2_launch_pending adds Rev2.unit_added eps σ1
             (fun u Hu => proj1 (Rev2_script_effects env u Hu))) in Ha'.
  rewrite (Rev2_launch_pending reports Rev2.unit_reported eps σ1
             (fun u Hu => proj1 (proj2 (Rev2_script_effects env u Hu)))) in He'.
  rewrite (Rev2_launch_pending sends unit_wire eps σ1
             (fun u Hu => proj2 (proj2 (Rev2_script_effects env u Hu)))) in Hw'.
  rewrite Hnil in Ha', He', Hw'. simpl in Ha', He', Hw'.
  rewrite app_nil_r in Ha', He', Hw'.
  split; [reflexivity|]. split; [eauto|].
  rewrite Ha', He', Hw', Ha, He, Hw.
  split; [|split]; apply Permutation_app_head, concat_map_Permutation;
    symmetry; exact Hperm.
Qed.

End Rev2Cycle.

Section Rev2Failures.
Context (env : Env).

(** A goroutine whose fetch fails adds nothing and reports that error. *)
Lemma Rev2_failed_status_unit serv e doc δ :
  Rev2.getJson env (Decode_status env) (serv +:+ "/status")
    (Some ErebStatus.zero) blank = Ok (Some e, doc) δ ->
  Rev2.unit_added (serv, Rev2.gatherStatus env) = [] /\
  Rev2.unit_reported (serv, Rev2.gatherStatus env) = [e].
Proof.
  intros H. unfold Rev2.unit_added, Rev2.unit_reported, Rev2.goroutine, bind.
  rewrite (Rev2_gatherStatus_fetch_error env serv blank e doc δ H).
  destruct (getJson_frame env 30 30 (Decode_status env) (serv +:+ "/status")
              (Some ErebStatus.zero) blank) as (r & δ' & Hrun & Ha & He & _).
  unfold Rev2.getJson in H. rewrite H in Hrun. inversion Hrun; subst.
  simpl. rewrite Ha, He. split; reflexivity.
Qed.

Lemma Rev2_failed_tasks_unit serv e doc δ :
  Rev2.getJson env (Decode_tasks env) (serv +:+ "/tasks")
    ErebTasks.zero blank = Ok (Some e, doc) δ ->
  Rev2.unit_added (serv, Rev2.gatherTasks env) = [] /\
  Rev2.unit_reported (serv, Rev2.gatherTasks env) = [e].
Proof.
  intros H. unfold Rev2.unit_added, Rev2.unit_reported, Rev2.goroutine, bind.
  rewrite (Rev2_gatherTasks_fetch_error env serv blank e doc δ H).
  destruct (getJson_frame env 30 30 (Decode_tasks env) (serv +:+ "/tasks")
              ErebTasks.zero blank) as (r & δ' & Hrun & Ha & He & _).
  unfold Rev2.getJson in H. rewrite H in Hrun. inversion Hrun; subst.
  simpl. rewrite Ha, He. split; reflexivity.
Qed.

End Rev2Failures.

(** What an extractor does depends on the world only through the answer
    to its own request: two worlds that differ in the answers to other
    URLs alone give it the same run. *)
Lemma Rev2_getJson_own_answer (env env' : Env) {T}
    (Decode : string -> T -> Decoded T) (requestUrl : string) (target : T)
    (σ : State) :
  url_Parse env = url_Parse env' ->
  (forall req, RequestURL req = requestUrl ->
               client_Do env req = client_Do env' req) ->
  Rev2.getJson env Decode requestUrl target σ =
  Rev2.getJson env' Decode requestUrl target σ.
Proof.
  intros Hp Hdo. unfold Rev2.getJson, getJson_with, bind, init_client, Do.
  rewrite <- Hp. destruct (url_Parse env requestUrl) as [err|u]; [reflexivity|].
  rewrite <- (Hdo (request requestUrl u)); [reflexivity|].
  unfold request. destruct (User u) as [[? ?]|]; reflexivity.
Qed.

Lemma Rev2_gatherStatus_own_answer (env env' : Env) (serv : string) (σ : State) :
  url_Parse env = url_Parse env' ->
  Decode_status env = Decode_status env' ->
  time_Now env = time_Now env' ->
  (forall req, RequestURL req = serv +:+ "/status" ->
               client_Do env req = client_Do env' req) ->
  Rev2.gatherStatus env serv σ = Rev2.gatherStatus env' serv σ.
Proof.
  intros Hp Hd Ht Hdo. unfold Rev2.gatherStatus, bind.
  rewrite <- (Rev2_getJson_own_answer env env' _ _ _ σ Hp Hdo).
  rewrite <- Hd, <- Hp, <- Ht. reflexivity.
Qed.

Lemma Rev2_gatherTasks_own_answer (env env' : Env) (serv : string) (σ : State) :
  url_Parse env = url_Parse env' ->
  Decode_tasks env = Decode_tasks env' ->
  time_Now env = time_Now env' ->
  (forall req, RequestURL req = serv +:+ "/tasks" ->
               client_Do env req = client_Do env' req) ->
  Rev2.gatherTasks env serv σ = Rev2.gatherTasks env' serv σ.
Proof.
  intros Hp Hd Ht Hdo. unfold Rev2.gatherTasks, bind.
  rewrite <- (Rev2_getJson_own_answer env env' _ _ _ σ Hp Hdo).
  rewrite <- Hd, <- Hp, <- Ht. reflexivity.
Qed.


(** One cycle against a healthy scheduler, in the order of the launch:
    [Gather] returns nil with one status record and one task record, and
    nothing reported. *)
Example Rev2_Gather_healthy :
  exists finished σ',
    Rev2.Gather (Sample.healthy ["0"]) (Sample.start []) finished None σ' /\
    length finished = 2%nat /\
    map measurement (added σ') = ["ereb_status"; "ereb_tasks"] /\
    reported σ' = [].
Proof.
  destruct (Rev2.Gather_in_order (Sample.healthy ["0"]) (Sample.start []))
    as [r σ'|msg] eqn:Hrun; [|vm_compute in Hrun; discriminate].
  pose proof Hrun as Hval. vm_compute in Hval.
  destruct (Rev2_in_order_Gather _ _ _ _ Hrun) as (eps & σ1 & Heps & HG).
  assert (Heps' : eps = ["http://localhost:8888"]).
  { vm_compute in Heps. inversion Heps; reflexivity. }
  subst eps. inversion Hval; subst r σ'.
  eexists _, _. split; [exact HG|]. repeat split.
Qed.

(** A cycle against the same scheduler in which the status goroutine
    sends its request, the task goroutine sends its own, gets its answer
    and adds its record, and the status goroutine adds its record last:
    the requests are in one order and the records in the other. *)
Example Rev2_Gather_interleaved :
  exists finished σ',
    Rev2.Gather (Sample.healthy ["0"]) (Sample.start []) finished None σ' /\
    map (fun u => fst u) finished
      = ["http://localhost:8888"; "http://localhost:8888"] /\
    map RequestURL (wire σ') =
      ["http://localhost:8888/status"; "http://localhost:8888/tasks"] /\
    map measurement (added σ') = ["ereb_tasks"; "ereb_status"] /\
    reported σ' = [].
Proof.
  set (env := Sample.healthy ["0"]).
  set (u1 := ("http://localhost:8888", Rev2.gatherStatus env)).
  set (u2 := ("http://localhost:8888", Rev2.gatherTasks env)).
  set (σ1 := with_g {| Servers := ["http://localhost:8888"];
                       debug_mode := false; client := None |}
                    (Sample.start [])).
  set (s1 := Rev2.script (Rev2.fly u1)).
  set (s2 := Rev2.script (Rev2.fly u2)).
  assert (Hsteps :
    Rev2.steps (Rev2.launch env ["http://localhost:8888"] σ1) [u2; u1]
      (Rev2.Live
         {| Rev2.pool := []; Rev2.wg := 0;
            Rev2.st := replay (drop 2 s1) (replay s2 (replay (take 2 s1) σ1));
            Rev2.dying := ([] ++ Rev2.ending (Rev2.fly u2))
                          ++ Rev2.ending (Rev2.fly u1) |})).
  { apply (Rev2_steps_app _ [] _ [u2; u1] _
             (Rev2_run_effects (take 2 s1) [] (Rev2.fly u1) [Rev2.fly u2] 2
                σ1 [] (drop 2 s1) (eq_sym (take_drop 2 s1)))).
    apply (Rev2_steps_app _ [] _ [u2; u1] _
             (Rev2_run_effects s2
                [Rev2.with_script (drop 2 s1) (Rev2.fly u1)] (Rev2.fly u2) []
                2 _ [] [] (eq_sym (app_nil_r s2)))).
    apply (Rev2_steps_app _ [u2] _ [u1] _
             (Rev2_run_end [Rev2.with_script (drop 2 s1) (Rev2.fly u1)]
                (Rev2.with_script [] (Rev2.fly u2)) [] 2 _ [] eq_refl
                ltac:(lia))).
    apply (Rev2_steps_app _ [] _ [u1] _
             (Rev2_run_effects (drop 2 s1) []
                (Rev2.with_script (drop 2 s1) (Rev2.fly u1)) [] (2 - 1) _ _ []
                (eq_sym (app_nil_r _)))).
    apply (Rev2_run_end [] (Rev2.with_script []
                              (Rev2.with_script (drop 2 s1) (Rev2.fly u1)))
             [] (2 - 1) _ _ eq_refl ltac:(lia)). }
  exists [u2; u1]. eexists. split.
  - apply (Rev2.Gather_returns env (Sample.start []) σ1
             ["http://localhost:8888"] [u2; u1] _ eq_refl Hsteps eq_refl).
  - split; [reflexivity|]. vm_compute. repeat split.
Qed.

(* ===================================================================== *)
(** * More on the exit-code scan *)
(* ===================================================================== *)

Section HistoryFacts.
Import GoInt ExitCodes.

Lemma scan_step_resets (c : Z) (e : string) :
  History.resets e = true -> scan_step c e = 0.
Proof.
  unfold History.resets, History.is_None, scan_step.
  intros H. apply andb_true_iff in H as [Hn Hz]. rewrite Hn.
  apply Z.eqb_eq in Hz. rewrite Hz. reflexivity.
Qed.

Lemma scan_step_cases (c : Z) (e : string) :
  scan_step c e =
    if History.resets e then 0
    else if History.counts e then wrap (c + 1) else c.
Proof.
  unfold History.resets, History.counts, History.is_None, scan_step.
  destruct (String.eqb e "None"); simpl; [reflexivity|].
  destruct (Z.eqb_spec (fst (strconv.Atoi e)) 0) as [H0|H0].
  - rewrite H0. reflexivity.
  - destruct (0 <? fst (strconv.Atoi e)); reflexivity.
Qed.

Lemma scan_from_no_reset (t : list string) :
  forallb (fun e => negb (History.resets e)) t = true ->
  forall c, 0 <= c -> c + len t <= MaxInt ->
    fold_left scan_step t c = c + len (List.filter History.counts t).
Proof.
  induction t as [|e t IH]; intros Hall c Hc Hlen.
  - unfold len. simpl. lia.
  - cbn [forallb] in Hall. apply andb_true_iff in Hall as [He Ht].
    apply negb_true_iff in He.
    unfold len in Hlen. simpl length in Hlen. rewrite Nat2Z.inj_succ in Hlen.
    cbn [fold_left List.filter]. rewrite scan_step_cases, He.
    destruct (History.counts e).
    + rewrite wrap_id by (unfold MinInt, MaxInt in *; lia).
      rewrite IH; [|exact Ht|lia|unfold len; lia].
      unfold len. simpl length. lia.
    + rewrite IH; [reflexivity|exact Ht|lia|unfold len; lia].
Qed.

Lemma scan_from_le_counts (h : list string) :
  forall c, 0 <= c -> c + len h <= MaxInt ->
    0 <= fold_left scan_step h c <= c + len (List.filter History.counts h).
Proof.
  induction h as [|e h IH]; intros c Hc Hlen.
  - unfold len. simpl. lia.
  - unfold len in Hlen. simpl length in Hlen. rewrite Nat2Z.inj_succ in Hlen.
    cbn [fold_left List.filter]. rewrite scan_step_cases.
    destruct (History.resets e) eqn:Hr.
    + assert (Hcnt : History.counts e = false).
      { unfold History.resets, History.counts in *.
        apply andb_true_iff in Hr as [Hn Hz]. rewrite Hn. simpl.
        apply Z.eqb_eq in Hz. rewrite Hz. reflexivity. }
      rewrite Hcnt. specialize (IH 0). unfold len in *. lia.
    + destruct (History.counts e).
      * rewrite wrap_id by (unfold MinInt, MaxInt in *; lia).
        specialize (IH (c + 1)). unfold len in *. simpl length. lia.
      * specialize (IH c). unfold len in *. lia.
Qed.

Lemma filter_counts_le (h : list string) :
  len (List.filter History.counts h) <= len h.
Proof. unfold len. pose proof (List.filter_length_le History.counts h). lia. Qed.

End HistoryFacts.

(** X1: whatever a history held before its most recent entry that parses
    to zero is forgotten: the scan of the whole history is the scan of
    what follows that entry. *)
Theorem scan_forgets_before_reset (h t : list string) (e : string) :
  History.resets e = true ->
  ExitCodes.scan (h ++ e :: t) = ExitCodes.scan t.
Proof.
  intros He. unfold ExitCodes.scan.
  rewrite fold_left_app. cbn [fold_left].
  rewrite scan_step_resets by exact He. reflexivity.
Qed.

Lemma scan_forgets_before_reset_witness :
  ExitCodes.scan (["1"; "7"; "None"] ++ "0" :: ["2"; "None"; "3"])
  = ExitCodes.scan ["2"; "None"; "3"].
Proof.
  apply (scan_forgets_before_reset ["1"; "7"; "None"] ["2"; "None"; "3"] "0").
  reflexivity.
Defined.

(** X2: on a stretch of history in which no entry parses to zero, the
    scan is the number of entries with a positive exit code; "None" and
    negative entries add nothing. *)
Theorem scan_counts_positive_entries (t : list string) :
  forallb (fun e => negb (History.resets e)) t = true ->
  GoInt.len t <= GoInt.MaxInt ->
  ExitCodes.scan t = GoInt.len (List.filter History.counts t).
Proof.
  intros Hall Hlen. unfold ExitCodes.scan.
  rewrite (scan_from_no_reset t Hall 0); lia.
Qed.

Lemma scan_counts_positive_entries_witness :
  ExitCodes.scan ["2"; "None"; "-9"; "3"]
  = GoInt.len (List.filter History.counts ["2"; "None"; "-9"; "3"]).
Proof.
  apply (scan_counts_positive_entries ["2"; "None"; "-9"; "3"]).
  - reflexivity.
  - vm_compute. discriminate.
Defined.

(** X3: "None" entries can be taken out of a history without changing
    [last_errors_count]. *)
Theorem scan_ignores_None (h : list string) :
  ExitCodes.scan (List.filter (fun e => negb (History.is_None e)) h)
  = ExitCodes.scan h.
Proof.
  unfold ExitCodes.scan. generalize 0 at 1 2 as c.
  induction h as [|e h IH]; intros c; [reflexivity|].
  cbn [List.filter]. unfold History.is_None at 1.
  destruct (String.eqb e "None") eqn:Hn; simpl negb; cbv iota.
  - cbn [fold_left].
    assert (Hstep : ExitCodes.scan_step c e = c)
      by (unfold ExitCodes.scan_step; rewrite Hn; reflexivity).
    rewrite Hstep. apply IH.
  - cbn [fold_left]. apply IH.
Qed.

(** X4: [last_errors_count] is never negative and never more than the
    number of entries with a positive exit code, so never more than the
    length of the history. *)
Theorem scan_range (h : list string) :
  GoInt.len h <= GoInt.MaxInt ->
  0 <= ExitCodes.scan h <= GoInt.len (List.filter History.counts h) /\
  GoInt.len (List.filter History.counts h) <= GoInt.len h.
Proof.
  intros Hlen. split; [|apply filter_counts_le].
  unfold ExitCodes.scan.
  pose proof (scan_from_le_counts h 0) as H. lia.
Qed.

Lemma scan_range_witness :
  0 <= ExitCodes.scan ["1"; "0"; "2"; "None"; "3"]
    <= GoInt.len (List.filter History.counts ["1"; "0"; "2"; "None"; "3"]) /\
  GoInt.len (List.filter History.counts ["1"; "0"; "2"; "None"; "3"])
    <= GoInt.len ["1"; "0"; "2"; "None"; "3"].
Proof.
  apply (scan_range ["1"; "0"; "2"; "None"; "3"]).
  vm_compute. discriminate.
Defined.

(** X5: the [timeout] field of a task record is whatever [Atoi] makes of
    the declared timeout, with its error dropped: the value of a decimal
    text (clamped to the range of [int]), and 0 for a malformed text of
    at most 19 bytes; the extraction does not fail on it. *)
Theorem timeout_field (task : ErebTasks.Task) :
  Rev2.task_fields task !! "timeout"
    = Some (VInt (fst (strconv.Atoi (ErebTasks.Timeout task)))) /\
  (Spec.is_numeric (ErebTasks.Timeout task) = true ->
     Rev2.task_fields task !! "timeout"
       = Some (VInt (GoInt.clamp (Spec.int_value (ErebTasks.Timeout task))))) /\
  (Spec.is_numeric (ErebTasks.Timeout task) = false ->
     (String.length (ErebTasks.Timeout task) <= 19)%nat ->
     Rev2.task_fields task !! "timeout" = Some (VInt 0)).
Proof.
  assert (H : Rev2.task_fields task !! "timeout"
              = Some (VInt (fst (strconv.Atoi (ErebTasks.Timeout task))))).
  { unfold Rev2.task_fields.
    destruct (ExitCodes.analyse _) as [lastExitCode lastErrorsCount].
    rewrite !lookup_insert_ne by discriminate. apply lookup_insert_eq. }
  split; [exact H|]. split.
  - intros Hnum. rewrite H, (Atoi_numeric _ Hnum). reflexivity.
  - intros Hnum Hlen. rewrite H, (Atoi_syntax _ Hnum Hlen). reflexivity.
Qed.

(* ===================================================================== *)
(** * More on the endpoints of a cycle *)
(* ===================================================================== *)

Section EndpointFacts.
Import strings.



Lemma TrimRight_twice (e : string) :
  TrimRight (TrimRight e "/") "/" = TrimRight e "/".
Proof. apply TrimRight_no_slash, TrimRight_idem. Qed.



End EndpointFacts.


(** X7: the endpoints of a cycle are those of the next one: once
    [Gather] has computed them (and stored the default, if no server was
    configured), computing them again gives the same list and changes
    nothing. *)
Theorem endpoints_stable (σ σ1 : State) (eps : list string) :
  Rev2.endpoints σ = Ok eps σ1 ->
  Rev2.endpoints σ1 = Ok eps σ1.
Proof.
  destruct σ as [[servers dbg cl] ad rep wi].
  unfold Rev2.endpoints, bind, Rev2.default_servers. simpl.
  destruct servers as [|s servers]; simpl; intros H; inversion H; reflexivity.
Qed.

Lemma endpoints_stable_witness :
  Rev2.endpoints
    (with_g {| Servers := ["http://localhost:8888"]; debug_mode := false;
               client := None |} fresh)
  = Ok ["http://localhost:8888"]
       (with_g {| Servers := ["http://localhost:8888"]; debug_mode := false;
                  client := None |} fresh).
Proof.
  apply (endpoints_stable fresh). reflexivity.
Defined.

(** X8: when servers are configured and none of them begins with [http],
    the default is not used: the cycle launches no goroutine, sends no
    request, adds and reports nothing, and returns nil at once, leaving
    the state as it was. *)
Theorem cycle_without_endpoints (env : Env) (σ : State) :
  (GoInt.len (Servers (g σ)) =? 0) = false ->
  Rev2.normalize (Servers (g σ)) = [] ->
  Rev2.Gather env σ [] None σ /\
  (forall finished ret σ',
     Rev2.Gather env σ finished ret σ' ->
     finished = [] /\ ret = None /\ σ' = σ).
Proof.
  intros Hlen Hnorm.
  assert (Heps : Rev2.endpoints σ = Ok [] σ).
  { unfold Rev2.endpoints, bind, Rev2.default_servers.
    rewrite Hlen, Hnorm. reflexivity. }
  split.
  - apply (Rev2.Gather_returns env σ σ [] [] (Rev2.launch env [] σ) Heps).
    + apply Rev2.steps_refl.
    + reflexivity.
  - intros finished ret σ' HG.
    inversion HG as [σ0 σ1 eps fin r Heps' Hsteps Hwg]; subst.
    rewrite Heps in Heps'. inversion Heps'; subst eps σ1.
    inversion Hsteps
      as [r0|r0 r1 fin p Hstep Hrest|r0 u r1 fin p Hstep Hrest| |]; subst.
    + repeat split.
    + exfalso.
      destruct (Rev2_step_inv _ _ _ Hstep)
        as [(l1 & f & e & es & l2 & Hpool & _)|(l1 & f & l2 & Hpool & _)];
        simpl in Hpool; destruct l1; discriminate.
    + exfalso.
      destruct (Rev2_step_inv _ _ _ Hstep)
        as [(l1 & f & e & es & l2 & Hpool & _)|(l1 & f & l2 & Hpool & _)];
        simpl in Hpool; destruct l1; discriminate.
Qed.

Lemma cycle_without_endpoints_witness :
  Rev2.Gather Sample.broken (Sample.start ["localhost:8888"; "ftp://host"])
    [] None (Sample.start ["localhost:8888"; "ftp://host"]) /\
  (forall finished ret σ',
     Rev2.Gather Sample.broken (Sample.start ["localhost:8888"; "ftp://host"])
       finished ret σ' ->
     finished = [] /\ ret = None /\
     σ' = Sample.start ["localhost:8888"; "ftp://host"]).
Proof.
  apply (cycle_without_endpoints Sample.broken
           (Sample.start ["localhost:8888"; "ftp://host"])); reflexivity.
Defined.

(* ===================================================================== *)
(** * More on the fetcher *)
(* ===================================================================== *)

Section FetcherMore.
Context (env : Env) (h t : Z).
Context {T : Type} (Decode : string -> T -> Decoded T).

Lemma request_record (requestUrl : string) (u : URL) :
  request requestUrl u =
    {| Method := "GET"; RequestURL := requestUrl; BasicAuth := User u |}.
Proof. unfold request. destruct (User u) as [[name p]|]; reflexivity. Qed.

(** What [getJson] leaves of the plugin object and of the wire. *)
Lemma getJson_state (requestUrl : string) (target : T) (σ : State) :
  exists r σ',
    getJson_with env h t Decode requestUrl target σ = Ok r σ' /\
    g σ' = cached_client h t (g σ) /\
    wire σ' = wire σ ++
      match url_Parse env requestUrl with
      | inl _ => []
      | inr u => [ {| Method := "GET"; RequestURL := requestUrl;
                      BasicAuth := User u |} ]
      end.
Proof.
  destruct (url_Parse env requestUrl) as [err|u] eqn:Hu.
  - eexists _, _. split; [apply getJson_malformed; exact Hu|].
    simpl. rewrite app_nil_r. split; reflexivity.
  - rewrite <- request_record.
    destruct (client_Do env (request requestUrl u)) as [err|res] eqn:Hdo.
    + eexists _, _. split; [eapply getJson_no_response; eassumption|].
      split; reflexivity.
    + destruct (Z.eq_dec (StatusCode res) 200) as [H200|H200].
      * eexists _, _. split; [eapply getJson_200; eassumption|].
        split; reflexivity.
      * eexists _, _. split; [eapply getJson_bad_status; eassumption|].
        split; reflexivity.
Qed.

Lemma cached_client_idem (e : ereb) :
  cached_client h t (cached_client h t e) = cached_client h t e.
Proof.
  unfold cached_client. destruct (client e) eqn:Hc.
  - rewrite Hc. reflexivity.
  - reflexivity.
Qed.

End FetcherMore.

(** X9: [getJson] makes a single attempt: for a URL that parses it sends
    exactly one request, a GET to that URL, carrying as basic
    authentication the user name and password of the URL when it has
    them and none otherwise; for a URL that does not parse it sends
    nothing. *)
Theorem getJson_sends_one_request (env : Env) (T : Type)
    (Decode : string -> T -> Decoded T)
    (requestUrl : string) (target : T) (σ : State) :
  exists r σ',
    Rev2.getJson env Decode requestUrl target σ = Ok r σ' /\
    wire σ' = wire σ ++
      match url_Parse env requestUrl with
      | inl _ => []
      | inr u => [ {| Method := "GET"; RequestURL := requestUrl;
                      BasicAuth := User u |} ]
      end.
Proof.
  destruct (getJson_state env 30 30 Decode requestUrl target σ)
    as (r & σ' & Hrun & _ & Hw).
  exists r, σ'. split; [exact Hrun | exact Hw].
Qed.

(** X10: the HTTP client is made on the first call of [getJson] and kept:
    the call leaves a client in the plugin, the one that was there or,
    if there was none, one with timeouts of 30 and 30 seconds (3 and 4 in
    the earlier copy); servers and debug flag stay; a further call
    changes nothing in the plugin object. *)
Theorem getJson_caches_client (env : Env) (T : Type)
    (Decode : string -> T -> Decoded T)
    (requestUrl : string) (target : T) (σ : State) :
  (exists r σ',
     Rev2.getJson env Decode requestUrl target σ = Ok r σ' /\
     client (g σ') =
       Some (default {| ResponseHeaderTimeout := 30; Timeout := 30 |}
                     (client (g σ))) /\
     Servers (g σ') = Servers (g σ) /\
     debug_mode (g σ') = debug_mode (g σ) /\
     (forall requestUrl' target',
        exists r2 σ2,
          Rev2.getJson env Decode requestUrl' target' σ' = Ok r2 σ2 /\
          g σ2 = g σ')) /\
  (exists r σ',
     Rev1.getJson env Decode requestUrl target σ = Ok r σ' /\
     client (g σ') =
       Some (default {| ResponseHeaderTimeout := 3; Timeout := 4 |}
                     (client (g σ)))).
Proof.
  split.
  - destruct (getJson_state env 30 30 Decode requestUrl target σ)
      as (r & σ' & Hrun & Hg & _).
    exists r, σ'. split; [exact Hrun|]. rewrite Hg.
    split; [|split; [|split]].
    + unfold cached_client. destruct (client (g σ)) eqn:Hc;
        [rewrite Hc|]; reflexivity.
    + unfold cached_client. destruct (client (g σ)); reflexivity.
    + unfold cached_client. destruct (client (g σ)); reflexivity.
    + intros requestUrl' target'.
      destruct (getJson_state env 30 30 Decode requestUrl' target' σ')
        as (r2 & σ2 & Hrun2 & Hg2 & _).
      exists r2, σ2. split; [exact Hrun2|].
      rewrite Hg2, Hg. apply cached_client_idem.
  - destruct (getJson_state env 3 4 Decode requestUrl target σ)
      as (r & σ' & Hrun & Hg & _).
    exists r, σ'. split; [exact Hrun|]. rewrite Hg.
    unfold cached_client. destruct (client (g σ)) eqn:Hc;
      [rewrite Hc|]; reflexivity.
Qed.

(** X11: a 200 answer to [/status] whose body is the JSON [null] stores a
    nil pointer in the target, and [gatherStatus] then dereferences
    it: the goroutine panics, with the client cached and the request
    sent, and nothing added or reported. *)
Theorem gatherStatus_null_document (env : Env) (serverAddr : string)
    (σ : State) (u : URL) (res : Response) (err : option string) :
  url_Parse env (serverAddr +:+ "/status") = inr u ->
  client_Do env (request (serverAddr +:+ "/status") u) = inr res ->
  StatusCode res = 200 ->
  Decode_status env (Body res) (Some ErebStatus.zero) = Stored None err ->
  Rev2.gatherStatus env serverAddr σ
  = Panic "invalid memory address or nil pointer dereference"
      (with_request (request (serverAddr +:+ "/status") u) (ready 30 30 σ)).
Proof.
  intros Hu Hdo H200 Hdec. unfold Rev2.gatherStatus, Rev2.getJson, bind.
  rewrite (getJson_200 env 30 30 (Decode_status env) _ _ σ u res Hu Hdo H200).
  rewrite Hdec. simpl.
  destruct (url_Parse env serverAddr); reflexivity.
Qed.

Lemma gatherStatus_null_document_witness :
  Rev2.gatherStatus Worlds.null_status "http://localhost:8888" fresh
  = Panic "invalid memory address or nil pointer dereference"
      (with_request
         (request ("http://localhost:8888" +:+ "/status")
                  {| User := None; Host := "localhost:8888" |})
         (ready 30 30 fresh)).
Proof.
  apply (gatherStatus_null_document Worlds.null_status "http://localhost:8888"
           fresh {| User := None; Host := "localhost:8888" |}
           {| StatusCode := 200; Body := "null" |} None);
    reflexivity.
Defined.

(* ===================================================================== *)
(** * More on the cycle of the later copy *)
(* ===================================================================== *)

Section CycleMore.
Context (env : Env).

Lemma scripted_Panic_everywhere {X} (m : M X) (msg : string) (δ : State) :
  scripted m -> m blank = Panic msg δ ->
  forall σ, exists σ', m σ = Panic msg σ'.
Proof.
  intros Hm Hb σ. specialize (Hm σ).
  rewrite Hb in Hm. destruct (m σ) as [x σ'|msg' σ']; [contradiction|].
  destruct Hm as [-> _]. eauto.
Qed.

Lemma range_reaches_panic (us : list (string * Rev2.gatherFunc)) u msg δ :
  In u us ->
  Forall (fun v => In (snd v) (Rev2.gatherFunctions env)) us ->
  Rev2.goroutine u blank = Panic msg δ ->
  forall σ, exists msg' σ', range us Rev2.goroutine σ = Panic msg' σ'.
Proof.
  intros Hin Hall Hp. induction Hall as [|v us Hv _ IH]; [destruct Hin|].
  pose proof (Rev2_scripted_goroutine env v Hv) as Hsv.
  intros σ. simpl. unfold bind.
  destruct (Rev2.goroutine v σ) as [[] σ1|msg1 σ1] eqn:Hrun; [|eauto].
  destruct Hin as [->|Hin].
  - destruct (scripted_Panic_everywhere _ msg δ Hsv Hp σ) as [σ' Hσ'].
    rewrite Hσ' in Hrun. discriminate.
  - apply (IH Hin σ1).
Qed.

End CycleMore.

Lemma healthy_cycle_returns :
  Rev2.Gather (Sample.healthy ["0"]) (Sample.start [])
    (Rev2.units (Sample.healthy ["0"]) ["http://localhost:8888"])
    None Worlds.after_healthy_cycle.
Proof.
  destruct (Rev2.Gather_in_order (Sample.healthy ["0"]) (Sample.start []))
    as [r σ'|msg σ'] eqn:Hrun; [|vm_compute in Hrun; discriminate].
  assert (Hσ : Worlds.after_healthy_cycle = σ').
  { unfold Worlds.after_healthy_cycle. rewrite Hrun. reflexivity. }
  assert (Hr : r = None).
  { pose proof Hrun as H. vm_compute in H. inversion H. reflexivity. }
  destruct (Rev2_in_order_Gather _ _ _ _ Hrun) as (eps & σ1 & Heps & HG).
  assert (Heps' : eps = ["http://localhost:8888"]).
  { vm_compute in Heps. inversion Heps; reflexivity. }
  subst eps r. rewrite Hσ. exact HG.
Qed.

(** X12: a goroutine that panics does not hold the cycle back.  When one
    of the goroutines of a cycle panics (as the status extractor does on
    a [null] document), a process that is gone at the first panic never
    gets to the end of [Gather]; but the deferred [wg.Done] of that
    goroutine has run, so while the process lasts the other goroutines
    go on and [Gather] can return nil: the counter is zero only when the
    panicking goroutine has ended too, and from then on the process can
    be gone with that panic at any moment. *)
Theorem panic_releases_barrier (env : Env) (σ σ1 : State)
    (eps : list string) (u : string * Rev2.gatherFunc) (msg : string)
    (δ : State) :
  Rev2.endpoints σ = Ok eps σ1 ->
  In u (Rev2.units env eps) ->
  Rev2.goroutine u blank = Panic msg δ ->
  (exists msg' σ', Rev2.Gather_in_order env σ = Panic msg' σ') /\
  Rev2.Gather env σ (Rev2.units env eps) None
    (Rev2.in_order (Rev2.units env eps) σ1) /\
  (forall finished r,
     Rev2.steps (Rev2.launch env eps σ1) finished (Rev2.Live r) ->
     (Rev2.wg r = 0 -> In u finished) /\
     (In u finished ->
        In msg (Rev2.dying r) /\ Rev2.steps r [] (Rev2.Crashed msg))).
Proof.
  intros Heps Hin Hp. split; [|split].
  - unfold Rev2.Gather_in_order, bind. rewrite Heps.
    destruct (range_reaches_panic env (Rev2.units env eps) u msg δ Hin
                (Rev2_units_gatherFunctions env eps) Hp σ1)
      as (msg' & σ' & Hrun).
    rewrite Hrun. eauto.
  - apply (Rev2.Gather_returns env σ σ1 eps (Rev2.units env eps) _
             Heps (Rev2_in_order_launch env eps σ1) eq_refl).
  - intros finished r Hsteps. split.
    + intros Hwg.
      destruct (Rev2_barrier env eps σ1 finished r Hsteps Hwg) as [_ Hperm].
      apply (Permutation_in _ (Permutation_sym Hperm)). exact Hin.
    + intros Hfin.
      pose proof (Rev2_steps_dying _ _ _ Hsteps
                    (Rev2_launch_endings env eps σ1)) as Hd.
      simpl in Hd.
      assert (Hmsg : In msg (Rev2.dying r)).
      { rewrite Hd. apply in_concat.
        exists (panicked (Rev2.goroutine u blank)). split.
        - apply in_map_iff. exists u. split; [reflexivity|exact Hfin].
        - rewrite Hp. simpl. left. reflexivity. }
      split; [exact Hmsg|]. apply Rev2.steps_exit. exact Hmsg.
Qed.

Lemma panic_releases_barrier_witness :
  (exists msg' σ',
     Rev2.Gather_in_order Worlds.null_status (Sample.start []) = Panic msg' σ') /\
  Rev2.Gather Worlds.null_status (Sample.start [])
    (Rev2.units Worlds.null_status ["http://localhost:8888"]) None
    (Rev2.in_order (Rev2.units Worlds.null_status ["http://localhost:8888"])
       (with_g {| Servers := ["http://localhost:8888"]; debug_mode := false;
                  client := None |} (Sample.start []))) /\
  (forall finished r,
     Rev2.steps
       (Rev2.launch Worlds.null_status ["http://localhost:8888"]
          (with_g {| Servers := ["http://localhost:8888"]; debug_mode := false;
                     client := None |} (Sample.start [])))
       finished (Rev2.Live r) ->
     (Rev2.wg r = 0 ->
        In ("http://localhost:8888", Rev2.gatherStatus Worlds.null_status)
           finished) /\
     (In ("http://localhost:8888", Rev2.gatherStatus Worlds.null_status)
         finished ->
        In "invalid memory address or nil pointer dereference" (Rev2.dying r) /\
        Rev2.steps r []
          (Rev2.Crashed "invalid memory address or nil pointer dereference"))).
Proof.
  apply (panic_releases_barrier Worlds.null_status (Sample.start [])
           (with_g {| Servers := ["http://localhost:8888"]; debug_mode := false;
                      client := None |} (Sample.start []))
           ["http://localhost:8888"]
           ("http://localhost:8888", Rev2.gatherStatus Worlds.null_status)
           "invalid memory address or nil pointer dereference"
           (with_request
              (NewRequest "GET" "http://localhost:8888/status")
              (ready 30 30 blank))).
  - reflexivity.
  - simpl. left. reflexivity.
  - vm_compute. reflexivity.
Defined.

(** X13: however the effects of the goroutines interleave, a cycle that
    returns returns nil, every goroutine of the cycle has ended once, by
    returning or by panicking, and the accumulator and the wire hold
    what they held before and, in some order, what each goroutine of the
    cycle adds (the time of the records apart), reports and sends when
    it runs on its own. *)
Theorem cycle_is_sum_of_units (env : Env) (σ σ' : State)
    (finished : list (string * Rev2.gatherFunc)) (ret : option error) :
  Rev2.Gather env σ finished ret σ' ->
  ret = None /\
  exists eps σ1,
    Rev2.endpoints σ = Ok eps σ1 /\
    finished ≡ₚ Rev2.units env eps /\
    map untimed (added σ') ≡ₚ
      map untimed (added σ) ++
      concat (map (fun u => map untimed (Rev2.unit_added u))
                  (Rev2.units env eps)) /\
    reported σ' ≡ₚ
      reported σ ++ concat (map Rev2.unit_reported (Rev2.units env eps)) /\
    wire σ' ≡ₚ
      wire σ ++ concat (map unit_wire (Rev2.units env eps)).
Proof.
  intros HG.
  destruct (Rev2_Gather_effect env σ finished ret σ' HG)
    as (Hret & (eps & σ1 & Heps & Hperm) & Ha & He & Hw).
  split; [exact Hret|]. exists eps, σ1.
  split; [exact Heps|]. split; [exact Hperm|].
  split; [|split].
  - rewrite Ha, map_app, concat_map, map_map.
    apply Permutation_app_head, concat_map_Permutation, Hperm.
  - rewrite He. apply Permutation_app_head, concat_map_Permutation, Hperm.
  - rewrite Hw. apply Permutation_app_head, concat_map_Permutation, Hperm.
Qed.

Lemma cycle_is_sum_of_units_witness :
  @None error = None /\
  exists eps σ1,
    Rev2.endpoints (Sample.start []) = Ok eps σ1 /\
    Rev2.units (Sample.healthy ["0"]) ["http://localhost:8888"]
      ≡ₚ Rev2.units (Sample.healthy ["0"]) eps /\
    map untimed (added Worlds.after_healthy_cycle) ≡ₚ
      map untimed (added (Sample.start [])) ++
      concat (map (fun u => map untimed (Rev2.unit_added u))
                  (Rev2.units (Sample.healthy ["0"]) eps)) /\
    reported Worlds.after_healthy_cycle ≡ₚ
      reported (Sample.start []) ++
      concat (map Rev2.unit_reported (Rev2.units (Sample.healthy ["0"]) eps)) /\
    wire Worlds.after_healthy_cycle ≡ₚ
      wire (Sample.start []) ++
      concat (map unit_wire (Rev2.units (Sample.healthy ["0"]) eps)).
Proof.
  apply (cycle_is_sum_of_units (Sample.healthy ["0"]) (Sample.start [])
           Worlds.after_healthy_cycle
           (Rev2.units (Sample.healthy ["0"]) ["http://localhost:8888"]) None).
  exact healthy_cycle_returns.
Defined.

(** X14: what a goroutine does depends on the network only through the
    answer to its own request: in two worlds that differ at most in the
    answer to one URL, every status goroutine and every task goroutine
    whose own URL is another one runs the same, from any state. *)
Theorem unit_unaffected_by_other_answers (env env' : Env) (other serv : string)
    (σ : State) :
  url_Parse env = url_Parse env' ->
  Decode_status env = Decode_status env' ->
  Decode_tasks env = Decode_tasks env' ->
  time_Now env = time_Now env' ->
  (forall req, RequestURL req <> other ->
               client_Do env req = client_Do env' req) ->
  (serv +:+ "/status" <> other ->
     Rev2.goroutine (serv, Rev2.gatherStatus env) σ
     = Rev2.goroutine (serv, Rev2.gatherStatus env') σ) /\
  (serv +:+ "/tasks" <> other ->
     Rev2.goroutine (serv, Rev2.gatherTasks env) σ
     = Rev2.goroutine (serv, Rev2.gatherTasks env') σ).
Proof.
  intros Hp Hds Hdt Ht Hdo. split; intros Hne; unfold Rev2.goroutine, bind.
  - rewrite (Rev2_gatherStatus_own_answer env env' serv σ Hp Hds Ht);
      [reflexivity|].
    intros req Hreq. apply Hdo. rewrite Hreq. exact Hne.
  - rewrite (Rev2_gatherTasks_own_answer env env' serv σ Hp Hdt Ht);
      [reflexivity|].
    intros req Hreq. apply Hdo. rewrite Hreq. exact Hne.
Qed.

Lemma unit_unaffected_by_other_answers_witness :
  ("http://localhost:8888" +:+ "/status" <> "http://localhost:8888/tasks" ->
     Rev2.goroutine ("http://localhost:8888",
                     Rev2.gatherStatus (Sample.healthy ["0"])) fresh
     = Rev2.goroutine ("http://localhost:8888",
                       Rev2.gatherStatus Worlds.tasks_down) fresh) /\
  ("http://localhost:8888" +:+ "/tasks" <> "http://localhost:8888/tasks" ->
     Rev2.goroutine ("http://localhost:8888",
                     Rev2.gatherTasks (Sample.healthy ["0"])) fresh
     = Rev2.goroutine ("http://localhost:8888",
                       Rev2.gatherTasks Worlds.tasks_down) fresh).
Proof.
  apply (unit_unaffected_by_other_answers (Sample.healthy ["0"])
           Worlds.tasks_down "http://localhost:8888/tasks"
           "http://localhost:8888" fresh); try reflexivity.
  intros req Hne. simpl.
  destruct (String.eqb_spec (RequestURL req) "http://localhost:8888/status");
    [reflexivity|].
  destruct (String.eqb_spec (RequestURL req) "http://localhost:8888/tasks");
    [contradiction|reflexivity].
Defined.

(** X15: from a task list that was fetched, [gatherTasks] adds one
    [ereb_tasks] record per task, in the order of the list; each record
    carries the host of the endpoint and the name of its task as tags,
    and the name, the enabled flag and the two lifetime counters of the
    task as they came; nothing is reported. *)
Theorem task_records (env : Env) (serverAddr : string) (σ : State)
    (u' u : URL) (res : Response) :
  url_Parse env (serverAddr +:+ "/tasks") = inr u' ->
  client_Do env (request (serverAddr +:+ "/tasks") u') = inr res ->
  StatusCode res = 200 ->
  url_Parse env serverAddr = inr u ->
  exists σ' records,
    Rev2.gatherTasks env serverAddr σ = Ok None σ' /\
    added σ' = added σ ++ records /\
    reported σ' = reported σ /\
    Forall2 (fun task m =>
               measurement m = "ereb_tasks" /\
               tags m !! "hostname" = Some (Host u) /\
               tags m !! "task_tag" = Some (ErebTasks.Name task) /\
               fields m !! "task_name" = Some (VString (ErebTasks.Name task)) /\
               fields m !! "enabled" = Some (VBool (ErebTasks.Enabled task)) /\
               fields m !! "success_count"
                 = Some (VInt (ErebTasks.Success (ErebTasks.Stats task))) /\
               fields m !! "errors_count"
                 = Some (VInt (ErebTasks.Error (ErebTasks.Stats task))))
            (after_Decode (Decode_tasks env (Body res) ErebTasks.zero)
                          ErebTasks.zero)
            records.
Proof.
  intros Hu' Hdo H200 Hu.
  destruct (Rev2_gatherTasks_from_tasks env serverAddr σ u' u res Hu' Hdo H200 Hu)
    as (σ' & Hrun & _ & _ & Hadded).
  exists σ', (map (Rev2.task_metric u (time_Now env))
                (after_Decode (Decode_tasks env (Body res) ErebTasks.zero)
                              ErebTasks.zero)).
  split; [exact Hrun|]. split; [exact Hadded|]. split.
  - pose proof (Rev2_gatherTasks_ok env serverAddr σ) as Hok.
    unfold Rev2.getJson in Hok.
    rewrite (Hok _ _ u (getJson_200 env 30 30 (Decode_tasks env) _ _ σ u' res
                          Hu' Hdo H200) Hu) in Hrun.
    inversion Hrun. reflexivity.
  - clear Hadded Hrun.
    induction (after_Decode _ _) as [|task tasks IH]; [constructor|].
    constructor; [|exact IH].
    unfold Rev2.task_metric, Rev2.task_tags, Rev2.task_fields. simpl.
    destruct (ExitCodes.analyse _) as [lastExitCode lastErrorsCount].
    repeat split; rewrite ?lookup_insert_ne by discriminate;
      first [apply lookup_insert_eq | apply lookup_singleton_eq].
Qed.

Lemma task_records_witness :
  exists σ' records,
    Rev2.gatherTasks Worlds.two_tasks "http://localhost:8888" fresh = Ok None σ' /\
    added σ' = added fresh ++ records /\
    reported σ' = reported fresh /\
    Forall2 (fun task m =>
               measurement m = "ereb_tasks" /\
               tags m !! "hostname" = Some "localhost:8888" /\
               tags m !! "task_tag" = Some (ErebTasks.Name task) /\
               fields m !! "task_name" = Some (VString (ErebTasks.Name task)) /\
               fields m !! "enabled" = Some (VBool (ErebTasks.Enabled task)) /\
               fields m !! "success_count"
                 = Some (VInt (ErebTasks.Success (ErebTasks.Stats task))) /\
               fields m !! "errors_count"
                 = Some (VInt (ErebTasks.Error (ErebTasks.Stats task))))
            (after_Decode (Decode_tasks Worlds.two_tasks "TASKS" ErebTasks.zero)
                          ErebTasks.zero)
            records.
Proof.
  apply (task_records Worlds.two_tasks "http://localhost:8888" fresh
           {| User := None; Host := "localhost:8888" |}
           {| User := None; Host := "localhost:8888" |}
           {| StatusCode := 200; Body := "TASKS" |});
    reflexivity.
Defined.

(* ===================================================================== *)
(** * Computations that make effects of one kind only *)
(* ===================================================================== *)

Section Logs.
Context (env : Env) (P : Event -> Prop).

Lemma logs_ret {X} (x : X) : logs P (ret x).
Proof. intros σ. exists []. simpl. rewrite app_nil_r. split; [reflexivity|constructor]. Qed.

Lemma logs_panic {X} (msg : string) : logs P (@panic X msg).
Proof. intros σ. exists []. simpl. rewrite app_nil_r. split; [reflexivity|constructor]. Qed.

Lemma logs_bind {X Y} (m : M X) (k : X -> M Y) :
  logs P m -> (forall x, logs P (k x)) -> logs P (bind m k).
Proof.
  intros Hm Hk σ. unfold bind. specialize (Hm σ).
  destruct (m σ) as [x σ1|msg σ1]; [|exact Hm].
  destruct Hm as (e1 & H1 & P1). destruct (Hk x σ1) as (e2 & H2 & P2).
  exists (e1 ++ e2). simpl in H1. rewrite H2, H1, app_assoc.
  split; [reflexivity|]. apply Forall_app. split; assumption.
Qed.

Lemma logs_AddFields name fs ts t :
  (forall m, P (Added m)) -> logs P (AddFields name fs ts t).
Proof. intros HP σ. eexists. split; [reflexivity|]. repeat constructor. apply HP. Qed.

Lemma logs_init_client h t : P (Cached h t) -> logs P (init_client h t).
Proof. intros HP σ. eexists. split; [reflexivity|]. repeat constructor. exact HP. Qed.

Lemma logs_Do req : P (Sent req) -> logs P (Do env req).
Proof. intros HP σ. eexists. split; [reflexivity|]. repeat constructor. exact HP. Qed.

Lemma logs_range {X} (xs : list X) (body : X -> M unit) :
  (forall x, logs P (body x)) -> logs P (range xs body).
Proof.
  intros Hb. induction xs as [|x xs IH]; simpl; [apply logs_ret|].
  apply logs_bind; [apply Hb | intros _; exact IH].
Qed.

Lemma logs_getJson_with h t {T} (Decode : string -> T -> Decoded T)
    requestUrl target :
  P (Cached h t) ->
  (forall auth, P (Sent {| Method := "GET"; RequestURL := requestUrl;
                           BasicAuth := auth |})) ->
  logs P (getJson_with env h t Decode requestUrl target).
Proof.
  intros Hc Hs. unfold getJson_with.
  apply logs_bind; [apply logs_init_client, Hc|]. intros _.
  destruct (url_Parse env requestUrl) as [err|u]; [apply logs_ret|].
  apply logs_bind; [apply logs_Do; rewrite request_record; apply Hs|].
  intros [err|res]; [apply logs_ret|].
  destruct (negb _); apply logs_ret.
Qed.

End Logs.

(* ===================================================================== *)
(** * What one goroutine of the later copy leaves behind *)
(* ===================================================================== *)

Section UnitOutcome.
Context (env : Env).

Lemma Rev2_range_nil_URL (err : string) (now : Z) (tasks : ErebTasks.t) σ :
  range tasks (Rev2.task_body (inl err) now) σ =
    match tasks with
    | [] => Ok tt σ
    | _ => Panic "invalid memory address or nil pointer dereference" σ
    end.
Proof. destruct tasks; reflexivity. Qed.

(** A returned status goroutine has added one record and reported
    nothing, or added nothing and reported one error. *)
Lemma Rev2_status_unit_cases (serv : string) (σ σ' : State) :
  Rev2.goroutine (serv, Rev2.gatherStatus env) σ = Ok tt σ' ->
  g σ' = cached_client 30 30 (g σ) /\
  ((exists m, added σ' = added σ ++ [m] /\ reported σ' = reported σ) \/
   (exists e, added σ' = added σ /\ reported σ' = reported σ ++ [e])).
Proof.
  unfold Rev2.goroutine, Rev2.gatherStatus, Rev2.getJson, bind.
  destruct (getJson_frame env 30 30 (Decode_status env) (serv +:+ "/status")
              (Some ErebStatus.zero) σ) as (r & σ1 & Hrun & Ha & He & _).
  destruct (getJson_state env 30 30 (Decode_status env) (serv +:+ "/status")
              (Some ErebStatus.zero) σ) as (r' & σ1' & Hrun' & Hg & _).
  rewrite Hrun in Hrun'. inversion Hrun'; subst r' σ1'. clear Hrun'.
  rewrite Hrun. destruct r as [[e|] doc]; simpl.
  - intros H. inversion H; subst σ'. simpl. split; [exact Hg|].
    right. exists e. rewrite Ha, He. split; reflexivity.
  - destruct (url_Parse env serv) as [perr|u]; [discriminate|].
    destruct doc as [doc|]; [|discriminate].
    simpl. intros H. inversion H; subst σ'. simpl. split; [exact Hg|].
    left. eexists. rewrite Ha, He. split; reflexivity.
Qed.

(** A returned task goroutine has added the records of its tasks and
    reported nothing, or added nothing and reported one error. *)
Lemma Rev2_tasks_unit_cases (serv : string) (σ σ' : State) :
  Rev2.goroutine (serv, Rev2.gatherTasks env) σ = Ok tt σ' ->
  g σ' = cached_client 30 30 (g σ) /\
  ((exists ms, added σ' = added σ ++ ms /\ reported σ' = reported σ) \/
   (exists e, added σ' = added σ /\ reported σ' = reported σ ++ [e])).
Proof.
  unfold Rev2.goroutine, Rev2.gatherTasks, Rev2.getJson, bind.
  destruct (getJson_frame env 30 30 (Decode_tasks env) (serv +:+ "/tasks")
              ErebTasks.zero σ) as (r & σ1 & Hrun & Ha & He & _).
  destruct (getJson_state env 30 30 (Decode_tasks env) (serv +:+ "/tasks")
              ErebTasks.zero σ) as (r' & σ1' & Hrun' & Hg & _).
  rewrite Hrun in Hrun'. inversion Hrun'; subst r' σ1'. clear Hrun'.
  rewrite Hrun. destruct r as [[e|] tasks]; simpl.
  - intros H. inversion H; subst σ'. simpl. split; [exact Hg|].
    right. exists e. rewrite Ha, He. split; reflexivity.
  - destruct (url_Parse env serv) as [perr|u].
    + rewrite Rev2_range_nil_URL. destruct tasks; [|discriminate].
      simpl. intros H. inversion H; subst σ'. simpl. split; [exact Hg|].
      right. eexists. rewrite Ha, He. split; reflexivity.
    + rewrite Rev2_range_task_body. simpl.
      intros H. inversion H; subst σ'. simpl. split; [exact Hg|].
      left. eexists. rewrite Ha, He. split; reflexivity.
Qed.

(** However a goroutine ends, it leaves the plugin object as [getJson]
    left it: with the client cached. *)
Lemma Rev2_unit_plugin (u : string * Rev2.gatherFunc) (σ : State) :
  In (snd u) (Rev2.gatherFunctions env) ->
  g (final (Rev2.goroutine u σ)) = cached_client 30 30 (g σ).
Proof.
  destruct u as [serv gf]. simpl. intros [<-|[<-|[]]].
  - unfold Rev2.goroutine, Rev2.gatherStatus, Rev2.getJson, bind.
    destruct (getJson_state env 30 30 (Decode_status env) (serv +:+ "/status")
                (Some ErebStatus.zero) σ) as (r & σ1 & Hrun & Hg & _).
    rewrite Hrun. destruct r as [[e|] doc]; simpl; [exact Hg|].
    destruct (url_Parse env serv) as [perr|u]; [exact Hg|].
    destruct doc as [doc|]; simpl; exact Hg.
  - unfold Rev2.goroutine, Rev2.gatherTasks, Rev2.getJson, bind.
    destruct (getJson_state env 30 30 (Decode_tasks env) (serv +:+ "/tasks")
                ErebTasks.zero σ) as (r & σ1 & Hrun & Hg & _).
    rewrite Hrun. destruct r as [[e|] tasks]; simpl; [exact Hg|].
    destruct (url_Parse env serv) as [perr|u].
    + rewrite Rev2_range_nil_URL. destruct tasks; simpl; exact Hg.
    + rewrite Rev2_range_task_body. simpl. exact Hg.
Qed.

Lemma opens_bind h t {X Y} (m : M X) (k : X -> M Y) :
  opens h t m -> (forall x, calm (k x)) -> opens h t (bind m k).
Proof.
  intros Hm Hk σ. unfold bind. specialize (Hm σ).
  destruct (m σ) as [x σ1|msg σ1]; [|exact Hm].
  destruct Hm as (e1 & H1 & P1). destruct (Hk x σ1) as (e2 & H2 & P2).
  exists (e1 ++ e2). simpl in H1. rewrite H2, H1, <- app_assoc.
  split; [reflexivity|]. apply Forall_app. split; assumption.
Qed.

Lemma opens_init_client h t {Y} (k : unit -> M Y) :
  (forall x, calm (k x)) -> opens h t (bind (init_client h t) k).
Proof.
  intros Hk σ. unfold bind, init_client.
  destruct (Hk tt (ready h t σ)) as (es & H & P).
  exists es. rewrite H. simpl. rewrite <- app_assoc. split; [reflexivity|exact P].
Qed.

Lemma opens_getJson_with h t {T} (Decode : string -> T -> Decoded T)
    requestUrl target :
  opens h t (getJson_with env h t Decode requestUrl target).
Proof.
  unfold getJson_with. apply opens_init_client. intros _. unfold calm.
  destruct (url_Parse env requestUrl) as [err|u]; [apply logs_ret|].
  apply logs_bind; [apply logs_Do; exact I|].
  intros [err|res]; [apply logs_ret|].
  destruct (negb _); apply logs_ret.
Qed.

Lemma calm_report (err : option error) :
  calm (match err with Some err => AddError err | None => ret tt end).
Proof.
  destruct err as [e|]; [|apply logs_ret].
  intros σ. eexists. split; [reflexivity|]. repeat constructor.
Qed.

(** A goroutine first finds or makes the client, and leaves the plugin
    object alone from then on. *)
Lemma Rev2_goroutine_opens (u : string * Rev2.gatherFunc) :
  In (snd u) (Rev2.gatherFunctions env) -> opens 30 30 (Rev2.goroutine u).
Proof.
  destruct u as [serv gf]. simpl. unfold Rev2.goroutine.
  intros [<-|[<-|[]]].
  - apply opens_bind; [|apply calm_report].
    unfold Rev2.gatherStatus, Rev2.getJson.
    apply opens_bind; [apply opens_getJson_with|]. intros [[e|] doc]; unfold calm.
    + apply logs_ret.
    + destruct (url_Parse env serv); [apply logs_panic|].
      destruct doc; [|apply logs_panic].
      apply logs_bind; [apply logs_AddFields; intros; exact I|].
      intros; apply logs_ret.
  - apply opens_bind; [|apply calm_report].
    unfold Rev2.gatherTasks, Rev2.getJson.
    apply opens_bind; [apply opens_getJson_with|]. intros [[e|] tasks]; unfold calm.
    + apply logs_ret.
    + apply logs_bind; [|intros; apply logs_ret].
      apply logs_range. intros task. unfold Rev2.task_body.
      destruct (url_Parse env serv); [apply logs_panic|].
      apply logs_AddFields. intros; exact I.
Qed.

Lemma neutral_keeps_plugin (e : Event) (σ : State) :
  neutral e -> g (apply_event e σ) = g σ.
Proof. destruct e; simpl; [contradiction|reflexivity..]. Qed.

Lemma Rev2_launch_client_coming eps σ :
  client_coming (g σ) (Rev2.launch env eps σ).
Proof.
  split; [left; reflexivity|]. simpl. apply Forall_map.
  eapply Forall_impl; [apply Rev2_units_gatherFunctions|].
  intros u Hu. simpl.
  destruct (Rev2_goroutine_opens u Hu blank) as (es & -> & Hes). simpl.
  split.
  - constructor; [left; reflexivity|].
    eapply Forall_impl; [exact Hes|]. intros e He. right. exact He.
  - left. left. reflexivity.
Qed.

Lemma Rev2_step_client_coming G0 r o r' :
  Rev2.step r o (Rev2.Live r') ->
  client_coming G0 r ->
  client_coming G0 r' /\
  (g (Rev2.st r) = cached_client 30 30 G0 ->
   g (Rev2.st r') = cached_client 30 30 G0) /\
  (o <> None -> g (Rev2.st r') = cached_client 30 30 G0).
Proof.
  intros Hstep [Hg Hpool].
  destruct (Rev2_step_inv r o _ Hstep)
    as [(l1 & f & e & es & l2 & Hp & Hs & -> & Hr')
       |(l1 & f & l2 & Hp & Hs & -> & Hr')].
  - inversion Hr'; subst r'. clear Hr'. unfold client_coming. simpl.
    rewrite Hp, Forall_app in Hpool. destruct Hpool as [H1 H2].
    inversion H2 as [|? ? [Hok Hin] Hl2]; subst. rewrite Hs in Hok, Hin.
    inversion Hok as [|? ? He Hes]; subst.
    destruct He as [->|He].
    + assert (Hnew : cached_client 30 30 (g (Rev2.st r))
                     = cached_client 30 30 G0).
      { destruct Hg as [->| ->]; [reflexivity|apply cached_client_idem]. }
      simpl. split; [|split; [intros _; exact Hnew|done]].
      split; [right; exact Hnew|].
      apply Forall_app. split.
      * eapply Forall_impl; [exact H1|]. intros f' [Hok' _].
        split; [exact Hok'|right; exact Hnew].
      * constructor; [split; [exact Hes|right; exact Hnew]|].
        eapply Forall_impl; [exact Hl2|]. intros f' [Hok' _].
        split; [exact Hok'|right; exact Hnew].
    + rewrite (neutral_keeps_plugin e _ He).
      split; [|split; [auto|done]].
      split; [exact Hg|].
      apply Forall_app. split; [exact H1|].
      constructor; [|exact Hl2]. simpl. split; [exact Hes|].
      destruct Hin as [[->|Hin]|Hin]; [contradiction|left; exact Hin|right; exact Hin].
  - unfold Rev2.Done in Hr'. simpl in Hr'.
    destruct (Rev2.wg r - 1 <? 0); [discriminate|].
    inversion Hr'; subst r'. clear Hr'. unfold client_coming. simpl.
    rewrite Hp, Forall_app in Hpool. destruct Hpool as [H1 H2].
    inversion H2 as [|? ? [Hok Hin] Hl2]; subst. rewrite Hs in Hin.
    destruct Hin as [[]|Hcached].
    split; [|split; [auto|intros _; exact Hcached]].
    split; [right; exact Hcached|].
    apply Forall_app. split; assumption.
Qed.

Lemma Rev2_steps_client_coming G0 r finished r' :
  Rev2.steps r finished (Rev2.Live r') ->
  client_coming G0 r ->
  (g (Rev2.st r) = cached_client 30 30 G0 ->
   g (Rev2.st r') = cached_client 30 30 G0) /\
  (finished <> [] -> g (Rev2.st r') = cached_client 30 30 G0).
Proof.
  intros Hsteps. remember (Rev2.Live r') as p eqn:Hp.
  induction Hsteps
    as [r|r r1 finished p Hstep Hrest IH|r u r1 finished p Hstep Hrest IH
       |r o msg Hcrash|r msg Hexit];
    intros HJ.
  - inversion Hp; subst. split; [auto|done].
  - destruct (Rev2_step_client_coming G0 r None r1 Hstep HJ) as (HJ1 & Hk & _).
    destruct (IH Hp HJ1) as [Hk' Hf]. split; [auto|exact Hf].
  - destruct (Rev2_step_client_coming G0 r (Some u) r1 Hstep HJ)
      as (HJ1 & Hk & Hend).
    destruct (IH Hp HJ1) as [Hk' Hf].
    split; [auto|]. intros _. apply Hk', Hend. discriminate.
  - discriminate.
  - discriminate.
Qed.

(** With no goroutine nothing happens. *)
Lemma Rev2_steps_idle r finished r' :
  Rev2.pool r = [] -> Rev2.steps r finished (Rev2.Live r') ->
  r' = r /\ finished = [].
Proof.
  intros Hnil Hsteps.
  inversion Hsteps
    as [r0|r0 r1 fin p Hstep Hrest|r0 u r1 fin p Hstep Hrest| |]; subst.
  - split; reflexivity.
  - exfalso.
    destruct (Rev2_step_inv _ _ _ Hstep)
      as [(l1 & f & e & es & l2 & Hpool & _)|(l1 & f & l2 & Hpool & _)];
      rewrite Hnil in Hpool; destruct l1; discriminate.
  - exfalso.
    destruct (Rev2_step_inv _ _ _ Hstep)
      as [(l1 & f & e & es & l2 & Hpool & _)|(l1 & f & l2 & Hpool & _)];
      rewrite Hnil in Hpool; destruct l1; discriminate.
Qed.

Lemma Rev2_Gather_plugin eps σ1 finished r :
  Rev2.steps (Rev2.launch env eps σ1) finished (Rev2.Live r) ->
  Rev2.wg r = 0 ->
  g (Rev2.st r) =
    match finished with
    | [] => g σ1
    | _ => cached_client 30 30 (g σ1)
    end.
Proof.
  intros Hsteps Hwg.
  destruct (Rev2_barrier env eps σ1 finished r Hsteps Hwg) as [_ Hperm].
  destruct finished as [|u finished].
  - apply Permutation_nil_l in Hperm.
    assert (Hnil : Rev2.pool (Rev2.launch env eps σ1) = []).
    { simpl. rewrite <- Hperm. reflexivity. }
    destruct (Rev2_steps_idle _ _ _ Hnil Hsteps) as [-> _]. reflexivity.
  - destruct (Rev2_steps_client_coming (g σ1) _ _ _ Hsteps
                (Rev2_launch_client_coming eps σ1)) as [_ Hf].
    apply Hf. discriminate.
Qed.

End UnitOutcome.

Lemma cached_client_fields (h t : Z) (e : ereb) :
  Servers (cached_client h t e) = Servers e /\
  debug_mode (cached_client h t e) = debug_mode e /\
  client (cached_client h t e) =
    Some (default {| ResponseHeaderTimeout := h; Timeout := t |} (client e)).
Proof.
  unfold cached_client. destruct (client e) eqn:Hc; simpl; rewrite ?Hc;
    repeat split.
Qed.

(** X16: a goroutine of the later copy never leaves a partial result: when
    it returns it has either added records and reported no error, or
    reported exactly one error and added no record; the status goroutine
    adds exactly one record when it adds any. *)
Theorem no_partial_records (env : Env) (serv : string) (σ σ' : State) :
  (Rev2.goroutine (serv, Rev2.gatherStatus env) σ = Ok tt σ' ->
     (exists m, added σ' = added σ ++ [m] /\ reported σ' = reported σ) \/
     (exists e, added σ' = added σ /\ reported σ' = reported σ ++ [e])) /\
  (Rev2.goroutine (serv, Rev2.gatherTasks env) σ = Ok tt σ' ->
     (exists ms, added σ' = added σ ++ ms /\ reported σ' = reported σ) \/
     (exists e, added σ' = added σ /\ reported σ' = reported σ ++ [e])).
Proof.
  split; intros Hrun.
  - apply (Rev2_status_unit_cases env serv σ σ' Hrun).
  - apply (Rev2_tasks_unit_cases env serv σ σ' Hrun).
Qed.

(** X17: a cycle that returns, whether its goroutines returned or
    panicked, has changed the plugin object in two ways only: with no
    server configured it stores the default server, and once a goroutine
    has run the client is cached (the one that was there, or a new one
    with timeouts of 30 seconds); the configured servers and the debug
    flag are otherwise left as they were. *)
Theorem plugin_after_cycle (env : Env) (σ σ' : State)
    (finished : list (string * Rev2.gatherFunc)) (ret : option error) :
  Rev2.Gather env σ finished ret σ' ->
  Servers (g σ') =
    (if GoInt.len (Servers (g σ)) =? 0
     then Servers (g σ) ++ ["http://localhost:8888"]
     else Servers (g σ)) /\
  debug_mode (g σ') = debug_mode (g σ) /\
  client (g σ') =
    match finished with
    | [] => client (g σ)
    | _ => Some (default {| ResponseHeaderTimeout := 30; Timeout := 30 |}
                         (client (g σ)))
    end.
Proof.
  intros HG. inversion HG as [σ0 σ1 eps fin r Heps Hsteps Hwg]; subst.
  pose proof (Rev2_Gather_plugin env eps σ1 finished r Hsteps Hwg) as Hg.
  assert (H1 : Servers (g σ1) =
               (if GoInt.len (Servers (g σ)) =? 0
                then Servers (g σ) ++ ["http://localhost:8888"]
                else Servers (g σ)) /\
               debug_mode (g σ1) = debug_mode (g σ) /\
               client (g σ1) = client (g σ)).
  { unfold Rev2.endpoints, bind, Rev2.default_servers in Heps.
    destruct (GoInt.len (Servers (g σ)) =? 0); inversion Heps; subst;
      repeat split. }
  destruct H1 as (Hs & Hd & Hc). rewrite Hg.
  destruct finished as [|u finished].
  - rewrite Hs, Hd, Hc. repeat split.
  - destruct (cached_client_fields 30 30 (g σ1)) as (Hs' & Hd' & Hc').
    rewrite Hs', Hd', Hc', Hs, Hd, Hc. repeat split.
Qed.

Lemma plugin_after_cycle_witness :
  Servers (g Worlds.after_healthy_cycle) =
    (if GoInt.len (Servers (g (Sample.start []))) =? 0
     then Servers (g (Sample.start [])) ++ ["http://localhost:8888"]
     else Servers (g (Sample.start []))) /\
  debug_mode (g Worlds.after_healthy_cycle) = debug_mode (g (Sample.start [])) /\
  client (g Worlds.after_healthy_cycle) =
    match Rev2.units (Sample.healthy ["0"]) ["http://localhost:8888"] with
    | [] => client (g (Sample.start []))
    | _ => Some (default {| ResponseHeaderTimeout := 30; Timeout := 30 |}
                         (client (g (Sample.start []))))
    end.
Proof.
  apply (plugin_after_cycle (Sample.healthy ["0"]) (Sample.start [])
           Worlds.after_healthy_cycle
           (Rev2.units (Sample.healthy ["0"]) ["http://localhost:8888"]) None).
  exact healthy_cycle_returns.
Defined.

(* ===================================================================== *)
(** * More on the cycle of the earlier copy *)
(* ===================================================================== *)

Section Rev1Cycle.
Context (env : Env) (eps : list string).

Lemma polls_request (serv : string) (auth : option (string * string)) :
  In serv eps ->
  polls eps (Sent {| Method := "GET"; RequestURL := serv +:+ "/status";
                     BasicAuth := auth |}).
Proof.
  intros Hin. split; [reflexivity|]. exists serv. split; [exact Hin|reflexivity].
Qed.

Lemma Rev1_gatherStatus_polls serv :
  In serv eps -> logs (polls eps) (Rev1.gatherStatus env serv).
Proof.
  intros Hin. unfold Rev1.gatherStatus, Rev1.getJson.
  apply logs_bind.
  - apply logs_getJson_with; [exact I|]. intros auth. apply polls_request, Hin.
  - intros [[e|] doc]; [apply logs_ret|].
    destruct (url_Parse env serv); [apply logs_panic|].
    destruct doc; [|apply logs_panic].
    apply logs_bind; [apply logs_AddFields; intros; exact I|].
    intros; apply logs_ret.
Qed.

Lemma Rev1_gatherTasks_polls serv :
  In serv eps -> logs (polls eps) (Rev1.gatherTasks env serv).
Proof.
  intros Hin. unfold Rev1.gatherTasks, Rev1.getJson.
  apply logs_bind.
  - apply logs_getJson_with; [exact I|]. intros auth. apply polls_request, Hin.
  - intros [[e|] tasks]; [apply logs_ret|].
    apply logs_bind; [|intros; apply logs_ret].
    apply logs_range. intros task. unfold Rev1.task_body.
    destruct (url_Parse env serv); [apply logs_panic|].
    destruct (Rev1.task_fields task);
      [apply logs_AddFields; intros; exact I|apply logs_panic].
Qed.

(** A goroutine asks the server the loop variable names, whatever the
    endpoint it was launched for. *)
Lemma Rev1_goroutine_polls (server : string) (u : string * Rev1.gatherFunc) :
  In server eps ->
  In (snd u) (Rev1.gatherFunctions env) ->
  logs (polls eps) (Rev1.goroutine server u).
Proof.
  intros Hin. destruct u as [serv gf]. simpl. unfold Rev1.goroutine.
  intros [<-|[<-|[]]].
  - apply logs_bind; [apply Rev1_gatherStatus_polls, Hin|].
    intros; apply logs_ret.
  - apply logs_bind; [apply Rev1_gatherTasks_polls, Hin|].
    intros; apply logs_ret.
Qed.

Lemma Rev1_script_polls (server : string) (u : string * Rev1.gatherFunc) :
  In server eps ->
  In (snd u) (Rev1.gatherFunctions env) ->
  Forall (polls eps) (trace (final (Rev1.goroutine server u blank))).
Proof.
  intros Hs Hu.
  destruct (Rev1_goroutine_polls server u Hs Hu blank) as (es & -> & Hes).
  exact Hes.
Qed.

Lemma Rev1_units_of_cycle :
  Forall (fun u => In (fst u) eps /\ In (snd u) (Rev1.gatherFunctions env))
         (Rev1.units env eps).
Proof.
  unfold Rev1.units. apply List.Forall_forall. intros [e f] Hin.
  apply in_flat_map in Hin. destruct Hin as (e' & He' & Hin).
  apply in_map_iff in Hin. destruct Hin as (f' & Heq & Hf').
  inversion Heq; subst. split; assumption.
Qed.

Lemma Rev1_launch_polling (σ : State) :
  Rev1_polling env eps σ (Rev1.launch env eps σ).
Proof.
  split; simpl.
  - apply Rev1_units_of_cycle.
  - constructor.
  - left. reflexivity.
  - unfold GoInt.len. simpl.
    assert (Hlen : length (Rev1.units env eps) = (2 * length eps)%nat).
    { unfold Rev1.units. clear. induction eps as [|e l IH]; [reflexivity|].
      cbn [flat_map]. rewrite length_app, IH. simpl. lia. }
    rewrite Hlen. lia.
  - reflexivity.
  - exists []. rewrite app_nil_r. split; [reflexivity|constructor].
Qed.

Lemma Rev1_step_polling (σ0 : State) r r' :
  Rev1.step r (Rev1.Live r') ->
  Rev1_polling env eps σ0 r -> Rev1_polling env eps σ0 r'.
Proof.
  intros Hstep [Htodo Hpool Hserver Hwg Hrep Hwire].
  inversion Hstep as [e f rest s p n σ d Hr Hr'
                     |t s l1 u l2 n σ d Hr Hr'
                     |t s l1 u e es en l2 n σ d Hr Hr'
                     |t s l1 u en l2 n σ d Hr Hd]; subst; simpl in *.
  - inversion Htodo as [|u0 l0 [He Hf] Hrest]; subst. split; simpl.
    + exact Hrest.
    + apply Forall_app. split; [exact Hpool|]. constructor; [exact Hf|constructor].
    + right. exact He.
    + unfold GoInt.len in *. rewrite length_app. simpl in *. lia.
    + exact Hrep.
    + exact Hwire.
  - assert (Hs : In s eps).
    { destruct Hserver as [Hnil|Hs]; [destruct l1; discriminate|exact Hs]. }
    rewrite Forall_app in Hpool. destruct Hpool as [H1 H2].
    inversion H2 as [|? ? Hu Hl2]; subst.
    split; simpl.
    + exact Htodo.
    + apply Forall_app. split; [exact H1|].
      constructor; [apply Rev1_script_polls; assumption|exact Hl2].
    + right. exact Hs.
    + unfold GoInt.len in *. rewrite !length_app in *. cbn [length] in *. lia.
    + exact Hrep.
    + exact Hwire.
  - rewrite Forall_app in Hpool. destruct Hpool as [H1 H2].
    inversion H2 as [|? ? Hes Hl2]; subst.
    inversion Hes as [|? ? He Hes']; subst.
    split; simpl.
    + exact Htodo.
    + apply Forall_app. split; [exact H1|]. constructor; [exact Hes'|exact Hl2].
    + destruct Hserver as [Hnil|Hs]; [destruct l1; discriminate|right; exact Hs].
    + unfold GoInt.len in *. rewrite !length_app in *. cbn [length] in *. lia.
    + rewrite reported_apply_event, Hrep.
      destruct e; simpl in *; rewrite ?app_nil_r; [reflexivity..|contradiction].
    + destruct Hwire as (reqs & Hw & HP).
      exists (reqs ++ sends [e]). rewrite wire_apply_event, Hw, app_assoc.
      split; [reflexivity|]. apply Forall_app. split; [exact HP|].
      destruct e; simpl in *;
        [constructor|constructor; [exact He|constructor]|constructor..].
  - unfold Rev1.Done in Hd. simpl in Hd.
    destruct (n - 1 <? 0); [discriminate|]. inversion Hd; subst r'. clear Hd.
    rewrite Forall_app in Hpool. destruct Hpool as [H1 H2].
    inversion H2 as [|? ? Hes Hl2]; subst.
    split; simpl.
    + exact Htodo.
    + apply Forall_app. split; assumption.
    + destruct Hserver as [Hnil|Hs]; [destruct l1; discriminate|right; exact Hs].
    + unfold GoInt.len in *. rewrite !length_app in *. cbn [length] in *. lia.
    + exact Hrep.
    + exact Hwire.
Qed.

Lemma Rev1_steps_polling (σ0 : State) r r' :
  Rev1.steps r (Rev1.Live r') ->
  Rev1_polling env eps σ0 r -> Rev1_polling env eps σ0 r'.
Proof.
  intros Hsteps. remember (Rev1.Live r') as p eqn:Hp.
  induction Hsteps as [r|r r1 p Hstep Hrest IH|r msg Hcrash|r msg Hexit];
    intros Hinv.
  - inversion Hp; subst. exact Hinv.
  - apply (IH Hp). apply (Rev1_step_polling σ0 r r1 Hstep Hinv).
  - discriminate.
  - discriminate.
Qed.

End Rev1Cycle.

Section Rev1Schedules.
Context (env : Env).
Import GoInt.

Lemma Rev1_scripted_gatherStatus serverAddr :
  scripted (Rev1.gatherStatus env serverAddr).
Proof.
  unfold Rev1.gatherStatus, Rev1.getJson.
  apply scripted_bind; [apply scripted_getJson_with|]. intros [[e|] doc].
  - apply scripted_ret.
  - destruct (url_Parse env serverAddr); [apply scripted_panic|].
    destruct doc; [|apply scripted_panic].
    apply scripted_bind; [apply scripted_AddFields | intros; apply scripted_ret].
Qed.

Lemma Rev1_scripted_gatherTasks serverAddr :
  scripted (Rev1.gatherTasks env serverAddr).
Proof.
  unfold Rev1.gatherTasks, Rev1.getJson.
  apply scripted_bind; [apply scripted_getJson_with|]. intros [[e|] tasks].
  - apply scripted_ret.
  - apply scripted_bind; [|intros; apply scripted_ret].
    apply scripted_range. intros task. unfold Rev1.task_body.
    destruct (url_Parse env serverAddr); [apply scripted_panic|].
    destruct (Rev1.task_fields task);
      [apply scripted_AddFields|apply scripted_panic].
Qed.

(** What a goroutine does once it has read the loop variable is the
    same whatever the others have done. *)
Lemma Rev1_scripted_goroutine (server : string)
    (u : string * Rev1.gatherFunc) :
  In (snd u) (Rev1.gatherFunctions env) ->
  scripted (Rev1.goroutine server u).
Proof.
  destruct u as [serv gf]. simpl. unfold Rev1.goroutine.
  intros [<-|[<-|[]]].
  - apply scripted_bind; [apply Rev1_scripted_gatherStatus|].
    intros; apply scripted_ret.
  - apply scripted_bind; [apply Rev1_scripted_gatherTasks|].
    intros; apply scripted_ret.
Qed.

Lemma Rev1_steps_trans r r' p :
  Rev1.steps r (Rev1.Live r') -> Rev1.steps r' p -> Rev1.steps r p.
Proof.
  intros H. remember (Rev1.Live r') as q eqn:Hq.
  induction H as [r|r r1 q Hstep Hrest IH|r msg Hcrash|r msg Hexit];
    intros Hp.
  - inversion Hq; subst. exact Hp.
  - eapply Rev1.steps_step; [exact Hstep|]. apply (IH Hq Hp).
  - discriminate.
  - discriminate.
Qed.

Lemma last_cons_default {A} (a d : A) (l : list A) :
  default d (last (a :: l)) = default a (last l).
Proof. rewrite last_cons. destruct (last l); reflexivity. Qed.

Lemma Rev1_units_last (eps : list string) (d : string) :
  default d (last (map fst (Rev1.units env eps))) = default d (last eps).
Proof.
  revert d. unfold Rev1.units.
  induction eps as [|e eps IH]; intros d; [reflexivity|].
  cbn [flat_map map app Rev1.gatherFunctions fst].
  rewrite !last_cons_default. apply IH.
Qed.

(** The loops launch every goroutine before any of them goes on. *)
Lemma Rev1_launch_all (todo : list (string * Rev1.gatherFunc)) :
  forall s p n σ d,
    Rev1.steps
      {| Rev1.todo := todo; Rev1.server := s; Rev1.pool := p; Rev1.wg := n;
         Rev1.st := σ; Rev1.dying := d |}
      (Rev1.Live
         {| Rev1.todo := []; Rev1.server := default s (last (map fst todo));
            Rev1.pool := p ++ map Rev1.Waiting todo; Rev1.wg := n;
            Rev1.st := σ; Rev1.dying := d |}).
Proof.
  induction todo as [|[e f] todo IH]; intros s p n σ d.
  - simpl. rewrite app_nil_r. apply Rev1.steps_refl.
  - eapply Rev1.steps_step; [apply Rev1.step_launch|].
    cbn [map fst]. rewrite last_cons_default.
    replace (p ++ Rev1.Waiting (e, f) :: map Rev1.Waiting todo)
      with ((p ++ [Rev1.Waiting (e, f)]) ++ map Rev1.Waiting todo)
      by (rewrite <- app_assoc; reflexivity).
    apply IH.
Qed.

(** A goroutine that has read the loop variable goes to its end, with
    no other in between. *)
Lemma Rev1_run_to_end (es : list Event) :
  forall t s u en rest n σ d,
    0 <= n - 1 ->
    Rev1.steps
      {| Rev1.todo := t; Rev1.server := s;
         Rev1.pool := Rev1.Going u es en :: rest; Rev1.wg := n;
         Rev1.st := σ; Rev1.dying := d |}
      (Rev1.Live
         {| Rev1.todo := t; Rev1.server := s; Rev1.pool := rest;
            Rev1.wg := n - 1; Rev1.st := replay es σ;
            Rev1.dying := d ++ en |}).
Proof.
  induction es as [|e es IH]; intros t s u en rest n σ d Hn.
  - eapply Rev1.steps_step; [|apply Rev1.steps_refl].
    pose proof (Rev1.step_end t s [] u en rest n σ d) as Hstep.
    unfold Rev1.Done in Hstep. simpl in Hstep.
    destruct (Z.ltb_spec (n - 1) 0) as [Hneg|_]; [lia|]. exact Hstep.
  - eapply Rev1.steps_step;
      [apply (Rev1.step_effect t s [] u e es en rest n σ d)|].
    rewrite replay_cons. apply IH. exact Hn.
Qed.

(** A goroutine that was launched reads the loop variable and goes to
    its end: it leaves what its body leaves when it is called with what
    the variable holds. *)
Lemma Rev1_run_one t s (u : string * Rev1.gatherFunc) rest n σ d :
  In (snd u) (Rev1.gatherFunctions env) ->
  0 <= n - 1 ->
  Rev1.steps
    {| Rev1.todo := t; Rev1.server := s;
       Rev1.pool := Rev1.Waiting u :: rest; Rev1.wg := n;
       Rev1.st := σ; Rev1.dying := d |}
    (Rev1.Live
       {| Rev1.todo := t; Rev1.server := s; Rev1.pool := rest;
          Rev1.wg := n - 1; Rev1.st := final (Rev1.goroutine s u σ);
          Rev1.dying := d ++ panicked (Rev1.goroutine s u σ) |}).
Proof.
  intros Hu Hn.
  destruct (scripted_final (Rev1.goroutine s u) σ
              (Rev1_scripted_goroutine s u Hu)) as [-> ->].
  eapply Rev1.steps_step; [apply (Rev1.step_read t s [] u rest n σ d)|].
  apply Rev1_run_to_end. exact Hn.
Qed.

(** The goroutines of the pool run one after the other, with the loop
    variable as the loops left it. *)
Lemma Rev1_run_all (us : list (string * Rev1.gatherFunc)) :
  Forall (fun u => In (snd u) (Rev1.gatherFunctions env)) us ->
  forall s σ d, exists d',
    Rev1.steps
      {| Rev1.todo := []; Rev1.server := s; Rev1.pool := map Rev1.Waiting us;
         Rev1.wg := len us; Rev1.st := σ; Rev1.dying := d |}
      (Rev1.Live
         {| Rev1.todo := []; Rev1.server := s; Rev1.pool := [];
            Rev1.wg := 0; Rev1.st := Rev1.in_order s us σ;
            Rev1.dying := d' |}).
Proof.
  induction 1 as [|u us Hu _ IH]; intros s σ d.
  - exists d. apply Rev1.steps_refl.
  - destruct (IH s (final (Rev1.goroutine s u σ))
                (d ++ panicked (Rev1.goroutine s u σ))) as [d' Hrest].
    exists d'.
    assert (Hlen : len (u :: us) - 1 = len us).
    { unfold len. simpl length. lia. }
    pose proof (Rev1_run_one [] s u (map Rev1.Waiting us) (len (u :: us)) σ d Hu)
      as Hone.
    rewrite Hlen in Hone. specialize (Hone (len_nonneg us)).
    apply (Rev1_steps_trans _ _ _ Hone Hrest).
Qed.

Lemma Rev1_units_len (eps : list string) :
  len eps * len (Rev1.gatherFunctions env) = len (Rev1.units env eps).
Proof.
  unfold len, Rev1.units. induction eps as [|e l IH]; [reflexivity|].
  cbn [flat_map]. rewrite length_app. simpl length in *. lia.
Qed.

Lemma Rev1_units_gfs (eps : list string) :
  Forall (fun u => In (snd u) (Rev1.gatherFunctions env)) (Rev1.units env eps).
Proof.
  eapply Forall_impl; [apply Rev1_units_of_cycle|]. intros u [_ Hu]. exact Hu.
Qed.

(** The schedule in which the goroutines go on only when the loops have
    ended: all of them read the last endpoint from the loop variable. *)
Lemma Rev1_late_Gather (σ σ1 : State) (eps : list string) :
  Rev1.endpoints σ = Ok eps σ1 ->
  Rev1.Gather env σ None
    (Rev1.in_order (default "" (last eps)) (Rev1.units env eps) σ1).
Proof.
  intros Heps.
  destruct (Rev1_run_all (Rev1.units env eps) (Rev1_units_gfs eps)
              (default "" (last eps)) σ1 []) as [d' Hrun].
  pose proof (Rev1_launch_all (Rev1.units env eps) "" []
                (len (Rev1.units env eps)) σ1 []) as Hlaunch.
  rewrite Rev1_units_last in Hlaunch. simpl in Hlaunch.
  pose proof (Rev1_steps_trans _ _ _ Hlaunch Hrun) as Hsteps.
  rewrite <- Rev1_units_len in Hsteps at 1.
  apply (Rev1.Gather_returns env σ σ1 eps _ Heps Hsteps eq_refl eq_refl).
Qed.

(** The schedule in which every goroutine runs as soon as it is
    launched. *)
Lemma Rev1_eager_steps (todo : list (string * Rev1.gatherFunc)) :
  Forall (fun u => In (snd u) (Rev1.gatherFunctions env)) todo ->
  forall s σ σ' d,
    range todo (fun u => Rev1.goroutine (fst u) u) σ = Ok tt σ' ->
    Rev1.steps
      {| Rev1.todo := todo; Rev1.server := s; Rev1.pool := [];
         Rev1.wg := len todo; Rev1.st := σ; Rev1.dying := d |}
      (Rev1.Live
         {| Rev1.todo := []; Rev1.server := default s (last (map fst todo));
            Rev1.pool := []; Rev1.wg := 0; Rev1.st := σ';
            Rev1.dying := d |}).
Proof.
  induction 1 as [|[e f] todo Hu _ IH]; intros s σ σ' d Hrun.
  - simpl in Hrun. inversion Hrun; subst. apply Rev1.steps_refl.
  - cbn [range] in Hrun. unfold bind in Hrun. cbn [fst] in Hrun.
    destruct (Rev1.goroutine e (e, f) σ) as [[] σ1|msg σ1] eqn:Hrun1;
      [|discriminate].
    eapply Rev1.steps_step; [apply Rev1.step_launch|].
    assert (Hlen : len ((e, f) :: todo) - 1 = len todo).
    { unfold len. simpl length. lia. }
    pose proof (Rev1_run_one todo e (e, f) [] (len ((e, f) :: todo)) σ d Hu)
      as Hone.
    rewrite Hlen, Hrun1 in Hone. specialize (Hone (len_nonneg todo)).
    simpl in Hone. rewrite app_nil_r in Hone.
    apply (Rev1_steps_trans _ _ _ Hone).
    cbn [map fst]. rewrite last_cons_default. apply (IH e σ1 σ' d Hrun).
Qed.

Lemma Rev1_eager_Gather (σ σ' : State) (r : option error) :
  Rev1.Gather_in_order env σ = Ok r σ' -> Rev1.Gather env σ r σ'.
Proof.
  unfold Rev1.Gather_in_order, bind. intros H.
  destruct (Rev1.endpoints σ) as [eps σ1|] eqn:Heps; [|discriminate].
  destruct (range (Rev1.units env eps) _ σ1) as [[] σ2|] eqn:Hrun;
    [|discriminate].
  inversion H; subst r σ'.
  pose proof (Rev1_eager_steps (Rev1.units env eps) (Rev1_units_gfs eps)
                "" σ1 σ2 [] Hrun) as Hsteps.
  rewrite <- Rev1_units_len in Hsteps.
  apply (Rev1.Gather_returns env σ σ1 eps _ Heps Hsteps eq_refl eq_refl).
Qed.

Lemma polls_sends (eps : list string) (es : list Event) :
  Forall (polls eps) es -> Forall (asks_status eps) (sends es).
Proof.
  induction 1 as [|e es He _ IH]; [constructor|].
  rewrite sends_cons. apply Forall_app. split; [|exact IH].
  destruct e; simpl in *;
    [constructor|constructor; [exact He|constructor]|constructor..].
Qed.

Lemma Rev1_in_order_wire (s : string) (eps : list string)
    (us : list (string * Rev1.gatherFunc)) :
  In s eps ->
  Forall (fun u => In (snd u) (Rev1.gatherFunctions env)) us ->
  forall σ, exists reqs,
    wire (Rev1.in_order s us σ) = wire σ ++ reqs /\
    Forall (asks_status eps) reqs.
Proof.
  intros Hs Hall. induction Hall as [|u us Hu _ IH]; intros σ.
  - exists []. simpl. rewrite app_nil_r. split; [reflexivity|constructor].
  - simpl.
    destruct (scripted_final (Rev1.goroutine s u) σ
                (Rev1_scripted_goroutine s u Hu)) as [Hfinal _].
    destruct (IH (final (Rev1.goroutine s u σ))) as (r2 & Hw2 & HP2).
    exists (sends (trace (final (Rev1.goroutine s u blank))) ++ r2).
    rewrite Hw2, Hfinal, wire_replay, app_assoc.
    split; [reflexivity|]. apply Forall_app. split; [|exact HP2].
    apply polls_sends. apply (Rev1_script_polls env eps s u Hs Hu).
Qed.

Lemma Rev1_endpoints_frame σ eps σ1 :
  Rev1.endpoints σ = Ok eps σ1 ->
  added σ1 = added σ /\ reported σ1 = reported σ /\ wire σ1 = wire σ.
Proof.
  unfold Rev1.endpoints, bind, Rev1.default_servers.
  destruct (GoInt.len (Servers (g σ)) =? 0); intros H; inversion H; subst;
    repeat split; reflexivity.
Qed.

End Rev1Schedules.

(** Two endpoints, two schedules of the earlier copy: run as they are
    launched, the goroutines ask each endpoint twice; run after the loops
    have ended, all four ask the second endpoint. *)
Example Rev1_Gather_two_schedules :
  let eps := ["http://a:1"; "http://b:2"] in
  let σ := Sample.start eps in
  (exists σ',
     Rev1.Gather Sample.broken σ None σ' /\
     map RequestURL (wire σ') =
       ["http://a:1/status"; "http://a:1/status";
        "http://b:2/status"; "http://b:2/status"]) /\
  (exists σ',
     Rev1.Gather Sample.broken σ None σ' /\
     map RequestURL (wire σ') =
       ["http://b:2/status"; "http://b:2/status";
        "http://b:2/status"; "http://b:2/status"]).
Proof.
  cbv zeta. split.
  - eexists. split.
    + apply Rev1_eager_Gather. vm_compute. reflexivity.
    + vm_compute. reflexivity.
  - eexists. split.
    + apply (Rev1_late_Gather Sample.broken
               (Sample.start ["http://a:1"; "http://b:2"])
               (Sample.start ["http://a:1"; "http://b:2"])
               ["http://a:1"; "http://b:2"]).
      reflexivity.
    + vm_compute. reflexivity.
Qed.

(** X18: a cycle of the earlier copy never reports an error and never
    asks for a task list, however the loops and the goroutines take
    their turns: when it returns it returns nil, the errors reported
    are those reported before, and every request it has sent is a GET
    for the [/status] of one of the endpoints of the cycle.  Which
    endpoint is up to the schedule, since the goroutines read the
    variable of the loop: when they run as they are launched each asks
    the endpoint it was launched for, and when they go on only after
    the loops have ended all of them ask the last endpoint. *)
Theorem earlier_cycle_asks_status_only (env : Env) (σ σ1 : State)
    (eps : list string) :
  Rev1.endpoints σ = Ok eps σ1 ->
  (forall ret σ',
     Rev1.Gather env σ ret σ' ->
     ret = None /\ reported σ' = reported σ /\
     exists reqs, wire σ' = wire σ ++ reqs /\ Forall (asks_status eps) reqs) /\
  (forall r σ',
     Rev1.Gather_in_order env σ = Ok r σ' -> Rev1.Gather env σ r σ') /\
  Rev1.Gather env σ None
    (Rev1.in_order (default "" (last eps)) (Rev1.units env eps) σ1) /\
  (exists reqs,
     wire (Rev1.in_order (default "" (last eps)) (Rev1.units env eps) σ1)
       = wire σ ++ reqs /\
     (eps <> [] -> Forall (asks_status [default "" (last eps)]) reqs)).
Proof.
  intros Heps.
  destruct (Rev1_endpoints_frame σ eps σ1 Heps) as (_ & Hrep & Hwire).
  split; [|split; [|split]].
  - intros ret σ' HG.
    inversion HG as [σ0 σ2 eps' r Heps' Hsteps Htodo Hwg]; subst.
    rewrite Heps in Heps'. inversion Heps'; subst eps' σ2.
    destruct (Rev1_steps_polling env eps σ1 _ _ Hsteps
                (Rev1_launch_polling env eps σ1))
      as [_ _ _ _ Hrep' Hwire'].
    split; [reflexivity|]. rewrite Hrep', Hrep. split; [reflexivity|].
    rewrite <- Hwire. exact Hwire'.
  - intros r σ'. apply Rev1_eager_Gather.
  - apply Rev1_late_Gather. exact Heps.
  - destruct eps as [|e eps'] eqn:Heq.
    + exists []. simpl. rewrite app_nil_r. split; [exact Hwire|done].
    + rewrite <- Heq in *.
      destruct (Rev1_in_order_wire env (default "" (last eps))
                  [default "" (last eps)]
                  (Rev1.units env eps) (or_introl eq_refl)
                  (Rev1_units_gfs env eps) σ1)
        as (reqs & Hw & HP).
      exists reqs. rewrite Hw, Hwire. split; [reflexivity|]. intros _. exact HP.
Qed.

Lemma earlier_cycle_asks_status_only_witness :
  let eps := ["http://a:1"; "http://b:2"] in
  let σ := Sample.start eps in
  (forall ret σ',
     Rev1.Gather Sample.broken σ ret σ' ->
     ret = None /\ reported σ' = reported σ /\
     exists reqs, wire σ' = wire σ ++ reqs /\ Forall (asks_status eps) reqs) /\
  (forall r σ',
     Rev1.Gather_in_order Sample.broken σ = Ok r σ' ->
     Rev1.Gather Sample.broken σ r σ') /\
  Rev1.Gather Sample.broken σ None
    (Rev1.in_order (default "" (last eps)) (Rev1.units Sample.broken eps) σ) /\
  (exists reqs,
     wire (Rev1.in_order (default "" (last eps))
             (Rev1.units Sample.broken eps) σ)
       = wire σ ++ reqs /\
     (eps <> [] -> Forall (asks_status [default "" (last eps)]) reqs)).
Proof.
  cbv zeta.
  apply (earlier_cycle_asks_status_only Sample.broken
           (Sample.start ["http://a:1"; "http://b:2"])
           (Sample.start ["http://a:1"; "http://b:2"])
           ["http://a:1"; "http://b:2"]).
  reflexivity.
Defined.
